(** * vp-master-bot: the matching and offer lifecycle

    A shallow embedding of the core of [bot.py], [database.py] and
    [rate_limiter.py]: the SQLite tables as lists of rows, the handlers as
    computations in a state-and-exception monad over the database, the
    persistence faults, the outcomes of the Telegram API calls and the
    in-memory rate limiter.

    Conventions.
    - A Python [str] is a list of Unicode code points ([text]).
    - A cell holding [str(user_id)] is the integer itself; a text cell that
      is read back with [int(...)] is [option Z], [None] when it is NULL or
      not the decimal form of an integer.
    - A DATETIME cell written with [strftime("%Y-%m-%d %H:%M:%S")] is a
      [Stamp]; the clock is a number of seconds.
    - A REAL cell is the rational it denotes ([Q]); the binary rounding of
      IEEE doubles is not part of the model.
    - Columns that no modelled statement reads (names, descriptions,
      document file ids, the complaints table) are left out.
    - A handler runs from its first to its last line without another
      handler in between (the serialized-writer model of the store). *)

From Stdlib Require Import String.
From Stdlib Require Import ZArith NArith List Bool Lia QArith Qabs.
From Stdlib Require Import Permutation Sorted.
Import ListNotations.
Open Scope Z_scope.

Set Implicit Arguments.

(** ** Data model *)

Definition text := list N.

(** [requests.status]: 'new', 'assigned', 'pending_confirmation', 'completed'. *)
Inductive Status := New | Assigned | PendingConfirmation | Completed.

(** [offers.status]: 'sent', 'taken', 'skipped'. *)
Inductive OfferStatus := Sent | Taken | Skipped.

(** [masters.level]; [OtherLevel] is any text outside the ranking table. *)
Inductive Level := Top | Verified | Checked | Candidate | OtherLevel.

(** [masters.skill_tier]: 'Новичок', 'Мастер', 'Профессионал'. *)
Inductive Tier := Novice | MasterTier | Professional.

(** A DATETIME text cell: NULL or empty, text that [strptime] rejects, or a
    well-formed time. *)
Inductive Stamp := Null | Malformed | At (t : Z).

Record Request := mkRequest {
  r_id : Z;
  r_contact : option Z;
  r_category : text;
  r_status : Status;
  r_master_id : option Z;
  r_client_user_id : option Z;
  r_review_requested : bool;
  r_completed_at : option Z;
  r_created_at : Z
}.

Record Master := mkMaster {
  m_id : Z;
  m_contact : option Z;
  m_level : Level;
  m_is_active : bool;
  m_sub_until : Stamp;
  m_priority_until : Stamp;
  m_pin_until : Stamp;
  m_free_orders_left : option Z;
  m_categories_auto : option text;
  m_orders_completed : option Z;
  m_skill_tier : Tier;
  m_avg_rating : Q;
  m_reviews_count : Z
}.

Record Offer := mkOffer {
  o_id : Z;
  o_request_id : option Z;
  o_master_id : Z;
  o_status : OfferStatus
}.

Record Review := mkReview {
  v_id : Z;
  v_request_id : Z;
  v_master_id : Z;
  v_client_id : Z;
  v_rating : Z;
  v_comment : option text
}.

(** The database: the four tables in rowid order and, per table, the last
    rowid handed out (AUTOINCREMENT never reuses one). *)
Record Store := mkStore {
  requests : list Request;
  masters : list Master;
  offers : list Offer;
  reviews : list Review;
  request_seq : Z;
  master_seq : Z;
  offer_seq : Z;
  review_seq : Z
}.

Definition empty_store : Store := mkStore [] [] [] [] 0 0 0 0.

Definition set_requests (l : list Request) (s : Store) : Store :=
  mkStore l (masters s) (offers s) (reviews s)
          (request_seq s) (master_seq s) (offer_seq s) (review_seq s).
Definition set_masters (l : list Master) (s : Store) : Store :=
  mkStore (requests s) l (offers s) (reviews s)
          (request_seq s) (master_seq s) (offer_seq s) (review_seq s).
Definition set_offers (l : list Offer) (s : Store) : Store :=
  mkStore (requests s) (masters s) l (reviews s)
          (request_seq s) (master_seq s) (offer_seq s) (review_seq s).
Definition set_reviews (l : list Review) (s : Store) : Store :=
  mkStore (requests s) (masters s) (offers s) l
          (request_seq s) (master_seq s) (offer_seq s) (review_seq s).

(** Row setters, one per column that some statement writes. *)
Definition r_set_status (st : Status) (r : Request) : Request :=
  mkRequest (r_id r) (r_contact r) (r_category r) st (r_master_id r)
            (r_client_user_id r) (r_review_requested r) (r_completed_at r)
            (r_created_at r).
Definition r_set_master_id (m : option Z) (r : Request) : Request :=
  mkRequest (r_id r) (r_contact r) (r_category r) (r_status r) m
            (r_client_user_id r) (r_review_requested r) (r_completed_at r)
            (r_created_at r).
Definition r_set_review_requested (b : bool) (r : Request) : Request :=
  mkRequest (r_id r) (r_contact r) (r_category r) (r_status r) (r_master_id r)
            (r_client_user_id r) b (r_completed_at r) (r_created_at r).
Definition r_set_completed_at (t : option Z) (r : Request) : Request :=
  mkRequest (r_id r) (r_contact r) (r_category r) (r_status r) (r_master_id r)
            (r_client_user_id r) (r_review_requested r) t (r_created_at r).

Definition m_set_is_active (b : bool) (m : Master) : Master :=
  mkMaster (m_id m) (m_contact m) (m_level m) b (m_sub_until m)
           (m_priority_until m) (m_pin_until m) (m_free_orders_left m)
           (m_categories_auto m) (m_orders_completed m) (m_skill_tier m)
           (m_avg_rating m) (m_reviews_count m).
Definition m_set_sub_until (t : Stamp) (m : Master) : Master :=
  mkMaster (m_id m) (m_contact m) (m_level m) (m_is_active m) t
           (m_priority_until m) (m_pin_until m) (m_free_orders_left m)
           (m_categories_auto m) (m_orders_completed m) (m_skill_tier m)
           (m_avg_rating m) (m_reviews_count m).
Definition m_set_priority_until (t : Stamp) (m : Master) : Master :=
  mkMaster (m_id m) (m_contact m) (m_level m) (m_is_active m) (m_sub_until m)
           t (m_pin_until m) (m_free_orders_left m)
           (m_categories_auto m) (m_orders_completed m) (m_skill_tier m)
           (m_avg_rating m) (m_reviews_count m).
Definition m_set_pin_until (t : Stamp) (m : Master) : Master :=
  mkMaster (m_id m) (m_contact m) (m_level m) (m_is_active m) (m_sub_until m)
           (m_priority_until m) t (m_free_orders_left m)
           (m_categories_auto m) (m_orders_completed m) (m_skill_tier m)
           (m_avg_rating m) (m_reviews_count m).
Definition m_set_free_orders_left (f : option Z) (m : Master) : Master :=
  mkMaster (m_id m) (m_contact m) (m_level m) (m_is_active m) (m_sub_until m)
           (m_priority_until m) (m_pin_until m) f
           (m_categories_auto m) (m_orders_completed m) (m_skill_tier m)
           (m_avg_rating m) (m_reviews_count m).
Definition m_set_completed (n : option Z) (t : Tier) (m : Master) : Master :=
  mkMaster (m_id m) (m_contact m) (m_level m) (m_is_active m) (m_sub_until m)
           (m_priority_until m) (m_pin_until m) (m_free_orders_left m)
           (m_categories_auto m) n t
           (m_avg_rating m) (m_reviews_count m).
Definition m_set_stats (a : Q) (n : Z) (m : Master) : Master :=
  mkMaster (m_id m) (m_contact m) (m_level m) (m_is_active m) (m_sub_until m)
           (m_priority_until m) (m_pin_until m) (m_free_orders_left m)
           (m_categories_auto m) (m_orders_completed m) (m_skill_tier m)
           a n.

Definition o_set_status (st : OfferStatus) (o : Offer) : Offer :=
  mkOffer (o_id o) (o_request_id o) (o_master_id o) st.

Definition v_set_comment (c : option text) (v : Review) : Review :=
  mkReview (v_id v) (v_request_id v) (v_master_id v) (v_client_id v)
           (v_rating v) c.

(** Decidable equalities on cells. *)
Definition status_eqb (a b : Status) : bool :=
  match a, b with
  | New, New | Assigned, Assigned
  | PendingConfirmation, PendingConfirmation | Completed, Completed => true
  | _, _ => false
  end.

Definition offer_status_eqb (a b : OfferStatus) : bool :=
  match a, b with
  | Sent, Sent | Taken, Taken | Skipped, Skipped => true
  | _, _ => false
  end.

(** SQL [col = ?]: a NULL on either side never compares equal. *)
Definition sql_eq (cell param : option Z) : bool :=
  match cell, param with
  | Some a, Some b => a =? b
  | _, _ => false
  end.

(** Python [x or 0] on a nullable integer cell. *)
Definition or0 (x : option Z) : Z :=
  match x with Some v => v | None => 0 end.

(** ** The world a handler runs in *)

(** What a Telegram API call did: delivered, refused because the user
    blocked the bot or is deactivated, or failed otherwise. *)
Inductive Delivery := Delivered | Blocked | Failed.

(** A raised Python exception, as far as a handler tells them apart. *)
Inductive Exn := ExnBlocked | ExnOther.

(** The messages the modelled handlers send. *)
Inductive Msg :=
| MsgTooManyActions
| MsgOrderNotFound
| MsgSkipped
| MsgAuthError
| MsgAlreadyTaken
| MsgMasterNotFound
| MsgUpsell
| MsgAnswer
| MsgOrderAssigned
| MsgClientTaken
| MsgMasterDetails
| MsgAdmin
| MsgOffer (request_id : option Z) (master_id : Z)
| MsgReviewPrompt (request_id : Z)
| MsgRequestNotFound
| MsgThanksForRating
| MsgError
| MsgNoRights
| MsgAlreadyCompleted
| MsgAwaitingConfirmation
| MsgMarkedDone
| MsgConfirmPrompt
| MsgThanksForConfirming
| MsgMasterConfirmed
| MsgCompletionFailed
| MsgSorry
| MsgMasterProblem
| MsgAutoCompleted
| MsgRequestSent
| MsgSubscribed
| MsgPriorityOn
| MsgPinned
| MsgDataDeleted
| MsgProfileSaved
| MsgCongrats
| MsgThanksForReview.

(** [RateLimiter.user_requests]: a defaultdict from the key
    [f"{user_id}_{action}"] to the times of the admitted calls. *)
Definition Limiter := Z -> String.string -> list Z.

Record World := mkWorld {
  store : Store;
  faults : list bool;      (* per database statement: does it raise *)
  net : list Delivery;     (* per Telegram API call: what happens *)
  user_requests : Limiter;
  out : list Msg;          (* the API calls made, latest first *)
  ADMIN_CHAT_ID : Z
}.

Definition set_store (s : Store) (w : World) : World :=
  mkWorld s (faults w) (net w) (user_requests w) (out w) (ADMIN_CHAT_ID w).
Definition set_faults (f : list bool) (w : World) : World :=
  mkWorld (store w) f (net w) (user_requests w) (out w) (ADMIN_CHAT_ID w).
Definition set_net (n : list Delivery) (w : World) : World :=
  mkWorld (store w) (faults w) n (user_requests w) (out w) (ADMIN_CHAT_ID w).
Definition set_user_requests (l : Limiter) (w : World) : World :=
  mkWorld (store w) (faults w) (net w) l (out w) (ADMIN_CHAT_ID w).
Definition set_out (o : list Msg) (w : World) : World :=
  mkWorld (store w) (faults w) (net w) (user_requests w) o (ADMIN_CHAT_ID w).

(** A world without faults: every statement commits, every call is
    delivered, nobody has used the limiter. *)
Definition calm (s : Store) : World :=
  mkWorld s [] [] (fun _ _ => []) [] 1.

(** ** The monad of handlers *)

Inductive Result (A : Type) := Ok (a : A) | Raised (e : Exn).
Arguments Raised {A} e.

Definition M (A : Type) : Type := World -> Result A * World.

Definition ret {A} (a : A) : M A := fun w => (Ok a, w).

Definition bind {A B} (m : M A) (k : A -> M B) : M B :=
  fun w => match m w with
           | (Ok a, w') => k a w'
           | (Raised e, w') => (Raised e, w')
           end.

Definition raise {A} (e : Exn) : M A := fun w => (Raised e, w).

(** [try: body  except Exception as e: handler e]. *)
Definition try_except {A} (body : M A) (handler : Exn -> M A) : M A :=
  fun w => match body w with
           | (Ok a, w') => (Ok a, w')
           | (Raised e, w') => handler e w'
           end.

Declare Scope monad_scope.
Delimit Scope monad_scope with monad.
Notation "x <- m ;; k" := (bind m (fun x => k))
  (at level 61, m at next level, right associativity) : monad_scope.
Notation "m ;;; k" := (bind m (fun _ => k))
  (at level 61, right associativity) : monad_scope.
Open Scope monad_scope.

Definition exec {A} (m : M A) (w : World) : World := snd (m w).
Definition result {A} (m : M A) (w : World) : Result A := fst (m w).

(** [for x in l: body x]. *)
Fixpoint for_each {A} (l : list A) (body : A -> M unit) : M unit :=
  match l with
  | [] => ret tt
  | x :: l' => body x ;;; for_each l' body
  end.

(** ** database.py: DatabaseManager *)

(** [execute]: run one statement and commit; any exception is logged and
    [None] comes back instead of the cursor.  A statement is a function on
    the store that may fail by itself (a violated constraint), and the next
    entry of [faults] says whether the engine raises. *)
Definition execute {A} (stmt : Store -> option (A * Store)) : M (option A) :=
  fun w =>
    let w1 := set_faults (tl (faults w)) w in
    match faults w with
    | true :: _ => (Ok None, w1)
    | _ => match stmt (store w) with
           | Some (a, s') => (Ok (Some a), set_store s' w1)
           | None => (Ok None, w1)
           end
    end.

(** [fetch_one]: [cur.fetchone() if cur else None]. *)
Definition fetch_one {A} (q : Store -> list A) : M (option A) :=
  cur <- execute (fun s => Some (q s, s)) ;;
  ret (match cur with Some rows => hd_error rows | None => None end).

(** [fetch_all]: [cur.fetchall() if cur else []]. *)
Definition fetch_all {A} (q : Store -> list A) : M (list A) :=
  cur <- execute (fun s => Some (q s, s)) ;;
  ret (match cur with Some rows => rows | None => [] end).

(** [commit]: every [execute] has committed already. *)
Definition commit : M unit := ret tt.

(** An UPDATE or DELETE: no result beyond the cursor. *)
Definition update (f : Store -> Store) : Store -> option (unit * Store) :=
  fun s => Some (tt, f s).

(** ** Telegram API calls *)

(** One call ([bot.send_message], [c.answer], [c.message.edit_text], ...):
    it is recorded, and the next entry of [net] decides whether it returns
    or raises. *)
Definition api (m : Msg) : M unit :=
  fun w =>
    let w1 := set_out (m :: out w) (set_net (tl (net w)) w) in
    match net w with
    | Blocked :: _ => (Raised ExnBlocked, w1)
    | Failed :: _ => (Raised ExnOther, w1)
    | _ => (Ok tt, w1)
    end.

(** [notify_admin]. *)
Definition notify_admin : M unit :=
  fun w =>
    if ADMIN_CHAT_ID w =? 0 then (Ok tt, w)
    else try_except (api MsgAdmin) (fun _ => ret tt) w.

(** ** bot.py: helpers *)

(** [is_active(until_str)]: present, well-formed and strictly later than
    the clock. *)
Definition is_active (now : Z) (until_str : Stamp) : bool :=
  match until_str with
  | At t => now <? t
  | _ => false
  end.

(** The tier of a number of completed orders, as [calc_skill_tier] branches. *)
Definition tier_of (orders_completed : Z) : Tier :=
  if orders_completed <? 20 then Novice
  else if orders_completed <? 50 then MasterTier
  else Professional.

Definition select_master (master_id : option Z) (s : Store) : list Master :=
  filter (fun m => sql_eq (Some (m_id m)) master_id) (masters s).

Definition select_request (request_id : Z) (s : Store) : list Request :=
  filter (fun r => r_id r =? request_id) (requests s).

(** [calc_skill_tier(master_id)]: reads [orders_completed] as stored now. *)
Definition calc_skill_tier (master_id : option Z) : M Tier :=
  master <- fetch_one (select_master master_id) ;;
  match master with
  | None => ret Novice
  | Some m => ret (tier_of (or0 (m_orders_completed m)))
  end.

(** ** bot.py: the review subsystem *)

Definition select_reviews_by_request (request_id : Z) (s : Store) : list Review :=
  filter (fun v => v_request_id v =? request_id) (reviews s).

(** The ratings [... FROM reviews WHERE master_id = ?] aggregates over. *)
Definition ratings_of (master_id : option Z) (s : Store) : list Z :=
  map v_rating
      (filter (fun v => sql_eq (Some (v_master_id v)) master_id) (reviews s)).

Definition sum_Z (l : list Z) : Z := fold_right Z.add 0 l.

(** SQL [AVG]: NULL over no rows, else the sum over the count. *)
Definition sql_avg (l : list Z) : option Q :=
  match Z.of_nat (length l) with
  | Z.pos n => Some (sum_Z l # n)
  | _ => None
  end.

(** SQL [COUNT( * )]. *)
Definition sql_count {A} (l : list A) : Z := Z.of_nat (length l).

(** Python [round(x, 1)]: to the nearest tenth, a tie to the even one. *)
Definition round1 (x : Q) : Q :=
  let n := Qnum x * 10 in
  let d := Z.pos (Qden x) in
  let fl := n / d in
  let rem := n mod d in
  let up := match 2 * rem ?= d with
            | Lt => false
            | Gt => true
            | Eq => Z.odd fl
            end in
  (if up then fl + 1 else fl) # 10.

Definition sql_update_stats (avg : Q) (cnt : Z) (master_id : option Z)
  : Store -> Store :=
  fun s => set_masters
             (map (fun m => if sql_eq (Some (m_id m)) master_id
                            then m_set_stats avg cnt m else m)
                  (masters s)) s.

(** [update_master_stats(master_id)]. *)
Definition update_master_stats (master_id : option Z) : M unit :=
  try_except
    (stats <- fetch_one (fun s => [(sql_avg (ratings_of master_id s),
                                    sql_count (ratings_of master_id s))]) ;;
     match stats with
     | Some (avg, reviews_count) =>
         if 0 <? reviews_count then
           match avg with
           | Some a =>
               execute (update (sql_update_stats (round1 a) reviews_count
                                                 master_id)) ;;;
               ret tt
           | None => raise ExnOther        (* round(None, 1) *)
           end
         else ret tt
     | None => ret tt
     end)
    (fun _ => ret tt).

Definition sql_set_review_requested (request_id : Z) : Store -> Store :=
  fun s => set_requests
             (map (fun r => if r_id r =? request_id
                            then r_set_review_requested true r else r)
                  (requests s)) s.

(** [request_review(request_id, master_id, client_id)]. *)
Definition request_review (request_id : Z) (master_id : option Z) : M unit :=
  try_except
    (request_data <- fetch_one (select_request request_id) ;;
     if match request_data with
        | Some r => r_review_requested r
        | None => false
        end
     then ret tt
     else
       existing_review <- fetch_one (select_reviews_by_request request_id) ;;
       match existing_review with
       | Some _ => ret tt
       | None =>
           execute (update (sql_set_review_requested request_id)) ;;;
           fetch_one (select_master master_id) ;;;
           api (MsgReviewPrompt request_id)
       end)
    (fun _ => ret tt).

(** [get_rating_stars(rating)]: [int] truncates towards zero, and a string
    times a negative number is empty.  The symbols are U+2B50, U+2728 and
    U+2606. *)
Definition get_rating_stars (rating : Q) : text :=
  let full_stars := Z.quot (Qnum rating) (Z.pos (Qden rating)) in
  let half_star := Qle_bool (1 # 2) (rating - inject_Z full_stars) in
  let empty_stars := 5 - full_stars - (if half_star then 1 else 0) in
  repeat 11088%N (Z.to_nat full_stars)
  ++ (if half_star then [10024%N] else [])
  ++ repeat 9734%N (Z.to_nat empty_stars).

(** ** bot.py: completing an order *)

Definition sql_set_completed (now : Z) (request_id : Z) : Store -> Store :=
  fun s => set_requests
             (map (fun r => if r_id r =? request_id
                            then r_set_completed_at (Some now)
                                   (r_set_status Completed r)
                            else r)
                  (requests s)) s.

(** [UPDATE masters SET orders_completed = orders_completed + 1,
    skill_tier = ? WHERE id = ?]. *)
Definition sql_count_order (tier : Tier) (master_id : option Z)
  : Store -> Store :=
  fun s => set_masters
             (map (fun m => if sql_eq (Some (m_id m)) master_id
                            then m_set_completed
                                   (option_map (fun n => n + 1)
                                               (m_orders_completed m))
                                   tier m
                            else m)
                  (masters s)) s.

(** [mark_request_completed(request_id)]: the arguments of the last UPDATE,
    [calc_skill_tier] among them, are evaluated before the statement runs. *)
Definition mark_request_completed (now : Z) (request_id : Z) : M bool :=
  try_except
    (request <- fetch_one (select_request request_id) ;;
     match request with
     | None => ret false
     | Some request =>
         execute (update (sql_set_completed now request_id)) ;;;
         request_review request_id (r_master_id request) ;;;
         tier <- calc_skill_tier (r_master_id request) ;;
         execute (update (sql_count_order tier (r_master_id request))) ;;;
         ret true
     end)
    (fun _ => ret false).

(** [INSERT INTO reviews (request_id, master_id, client_id, rating)]:
    [master_id] is NOT NULL and [rating] is CHECKed to lie in 1..5. *)
Definition sql_insert_review (request_id : Z) (master_id : option Z)
           (client_id rating : Z) : Store -> option (Z * Store) :=
  fun s =>
    match master_id with
    | None => None
    | Some mid =>
        if (1 <=? rating) && (rating <=? 5) then
          let rowid := review_seq s + 1 in
          Some (rowid,
                mkStore (requests s) (masters s) (offers s)
                        (reviews s ++
                           [mkReview rowid request_id mid client_id rating None])
                        (request_seq s) (master_seq s) (offer_seq s) rowid)
        else None
    end.

(** [process_rating]: the callback [review:<request_id>:<rating>]. *)
Definition process_rating (uid request_id rating : Z) : M unit :=
  try_except
    (request <- fetch_one (select_request request_id) ;;
     match request with
     | None => api MsgRequestNotFound
     | Some request =>
         let master_id := r_master_id request in
         execute (sql_insert_review request_id master_id uid rating) ;;;
         commit ;;;
         update_master_stats master_id ;;;
         api MsgThanksForRating ;;;
         api MsgAnswer
     end)
    (fun _ => api MsgError).

Definition select_master_by_contact (uid : Z) (s : Store) : list Master :=
  filter (fun m => sql_eq (m_contact m) (Some uid)) (masters s).

(** [main_menu_kb(user_id)] looks the user up among the masters. *)
Definition main_menu_kb (uid : Z) : M unit :=
  fetch_one (select_master_by_contact uid) ;;; ret tt.

Definition sql_set_status (st : Status) (request_id : Z) : Store -> Store :=
  fun s => set_requests
             (map (fun r => if r_id r =? request_id
                            then r_set_status st r else r)
                  (requests s)) s.

(** [... WHERE id = ? AND master_id = (SELECT id FROM masters WHERE contact = ?)]. *)
Definition select_own_request (request_id uid : Z) (s : Store) : list Request :=
  filter (fun r => (r_id r =? request_id)
                   && sql_eq (r_master_id r)
                        (option_map m_id
                           (hd_error (select_master_by_contact uid s))))
         (requests s).

(** [complete_order]: the callback [complete:<request_id>] of a master. *)
Definition complete_order (uid request_id : Z) : M unit :=
  try_except
    (request <- fetch_one (select_own_request request_id uid) ;;
     match request with
     | None => api MsgNoRights
     | Some request =>
         match r_status request with
         | Completed => api MsgAlreadyCompleted
         | PendingConfirmation => api MsgAwaitingConfirmation
         | _ =>
             execute (update (sql_set_status PendingConfirmation request_id)) ;;;
             api MsgMarkedDone ;;;
             match r_client_user_id request with
             | Some _ =>
                 fetch_one (select_master (r_master_id request)) ;;;
                 try_except (api MsgConfirmPrompt) (fun _ => ret tt)
             | None => ret tt
             end ;;;
             api MsgAnswer
         end
     end)
    (fun _ => api MsgError).

(** The last field of the callback [confirm:<request_id>:<answer>]. *)
Inductive Answer := Yes | No | OtherAnswer.

(** [client_confirmation]. *)
Definition client_confirmation (now uid request_id : Z) (answer : Answer)
  : M unit :=
  try_except
    (request <- fetch_one (select_request request_id) ;;
     match request with
     | None => api MsgOrderNotFound
     | Some request =>
         match r_status request with
         | Completed => api MsgAlreadyCompleted
         | _ =>
             match answer with
             | Yes =>
                 success <- mark_request_completed now request_id ;;
                 (if success : bool then
                    api MsgThanksForConfirming ;;;
                    master <- fetch_one (select_master (r_master_id request)) ;;
                    match master with
                    | Some _ =>
                        try_except (api MsgMasterConfirmed) (fun _ => ret tt)
                    | None => ret tt
                    end
                  else api MsgCompletionFailed)
             | No =>
                 main_menu_kb uid ;;;
                 api MsgSorry ;;;
                 execute (update (sql_set_status Assigned request_id)) ;;;
                 notify_admin ;;;
                 master <- fetch_one (select_master (r_master_id request)) ;;
                 match master with
                 | Some _ =>
                     try_except (api MsgMasterProblem) (fun _ => ret tt)
                 | None => ret tt
                 end
             | OtherAnswer => ret tt
             end ;;;
             api MsgAnswer
         end
     end)
    (fun _ => api MsgError).

(** The auto-completion pass of [periodic_cleanup]: requests in
    'pending_confirmation' created more than 24 hours ago. *)
Definition select_stale_pending (now : Z) (s : Store) : list Request :=
  filter (fun r => status_eqb (r_status r) PendingConfirmation
                   && (r_created_at r <? now - 24 * 3600))
         (requests s).

Definition auto_complete (now : Z) : M unit :=
  try_except
    (pending_requests <- fetch_all (select_stale_pending now) ;;
     for_each pending_requests
       (fun req =>
          mark_request_completed now (r_id req) ;;;
          match r_client_user_id req with
          | Some _ => try_except (api MsgAutoCompleted) (fun _ => ret tt)
          | None => ret tt
          end))
    (fun _ => ret tt).

(** ** bot.py: matching a request with masters *)

(** The class [а-яА-Я] of the regular expression: U+0410 .. U+044F. *)
Definition is_cyrillic (c : N) : bool := ((1040 <=? c) && (c <=? 1103))%N.

(** [re.sub(r"[^а-яА-Я]", "", s)]. *)
Definition re_sub_non_cyrillic (s : text) : text := filter is_cyrillic s.

(** The characters [str.strip()] removes. *)
Definition is_space (c : N) : bool :=
  (((9 <=? c) && (c <=? 13)) || ((28 <=? c) && (c <=? 32))
   || (c =? 133) || (c =? 160) || (c =? 5760)
   || ((8192 <=? c) && (c <=? 8202))
   || (c =? 8232) || (c =? 8233) || (c =? 8239) || (c =? 8287)
   || (c =? 12288))%N.

Fixpoint lstrip (s : text) : text :=
  match s with
  | c :: s' => if is_space c then lstrip s' else s
  | [] => []
  end.

Definition strip (s : text) : text := rev (lstrip (rev (lstrip s))).

(** [str.lower()] on the letters that pass the filter: А..Я go to а..я. *)
Definition lower_char (c : N) : N :=
  (if (1040 <=? c) && (c <=? 1071) then c + 32 else c)%N.

Definition lower (s : text) : text := map lower_char s.

(** [s.split(sep)] for a one-character separator. *)
Fixpoint split (sep : N) (s : text) : list text :=
  match s with
  | [] => [[]]
  | c :: s' =>
      if (c =? sep)%N then [] :: split sep s'
      else match split sep s' with
           | w :: ws => (c :: w) :: ws
           | [] => [[c]]
           end
  end.

Definition comma : N := 44.
Definition slash : N := 47.

Fixpoint starts_with (p s : text) : bool :=
  match p, s with
  | [], _ => true
  | a :: p', b :: s' => (a =? b)%N && starts_with p' s'
  | _ :: _, [] => false
  end.

(** Python [p in s] on strings. *)
Fixpoint contains (p s : text) : bool :=
  starts_with p s
  || match s with
     | [] => false
     | _ :: s' => contains p s'
     end.

Definition clean (s : text) : text :=
  lower (strip (re_sub_non_cyrillic s)).

(** The list [master_cats] that the loop of [cat_match] builds. *)
Definition master_cats (cats_auto : text) : list text :=
  filter (fun clean_cat => negb (Nat.eqb (length clean_cat) 0))
         (map (fun cat => clean (strip (hd [] (split slash cat))))
              (split comma cats_auto)).

(** [cat_match(cats_auto, request_category)]. *)
Definition cat_match (cats_auto : option text) (request_category : text)
  : bool :=
  match cats_auto with
  | None | Some [] => false
  | Some cats =>
      let clean_request := clean request_category in
      existsb (fun mc => contains clean_request mc || contains mc clean_request)
              (master_cats cats)
  end.

(** The table [{"ТОП":3, "Верифицированный":2, "Проверенный":1, "Кандидат":0}]
    with the default 0. *)
Definition lvl_rank (l : Level) : Z :=
  match l with
  | Top => 3
  | Verified => 2
  | Checked => 1
  | Candidate => 0
  | OtherLevel => 0
  end.

(** [sort_key(r)]: the tuple [(-pr, -sub, -lvl_rank)]. *)
Definition sort_key (now : Z) (r : Master) : Z * Z * Z :=
  let pr := if is_active now (m_priority_until r) then 1 else 0 in
  let sub := if is_active now (m_sub_until r) then 1 else 0 in
  (- pr, - sub, - lvl_rank (m_level r)).

(** Python's order on tuples: [a <= b]. *)
Definition key_leb (a b : Z * Z * Z) : bool :=
  let '(a1, a2, a3) := a in
  let '(b1, b2, b3) := b in
  (a1 <? b1) || ((a1 =? b1) && ((a2 <? b2) || ((a2 =? b2) && (a3 <=? b3)))).

(** [sorted(rows, key=...)]: Python's sort is stable, and a stable sort has
    one possible result; insertion into the sorted tail computes it. *)
Section Sorted.

Variables (A : Type) (key : A -> Z * Z * Z).

Fixpoint insert (x : A) (l : list A) : list A :=
  match l with
  | [] => [x]
  | y :: l' => if key_leb (key x) (key y) then x :: l
               else y :: insert x l'
  end.

Fixpoint sorted (l : list A) : list A :=
  match l with
  | [] => []
  | x :: l' => insert x (sorted l')
  end.

End Sorted.

Definition select_active_masters (s : Store) : list Master :=
  filter m_is_active (masters s).

(** The masters [send_to_masters] picks from the fetched rows. *)
Definition pick_masters (now : Z) (category : text) (rows : list Master)
  : list Master :=
  firstn 5 (sorted (sort_key now)
                   (filter (fun r => cat_match (m_categories_auto r) category)
                           rows)).

Definition sql_insert_offer (request_id : option Z) (master_id : Z)
  : Store -> option (Z * Store) :=
  fun s =>
    let rowid := offer_seq s + 1 in
    Some (rowid,
          mkStore (requests s) (masters s)
                  (offers s ++ [mkOffer rowid request_id master_id Sent])
                  (reviews s)
                  (request_seq s) (master_seq s) rowid (review_seq s)).

Definition sql_deactivate (master_id : Z) : Store -> Store :=
  fun s => set_masters
             (map (fun m => if m_id m =? master_id
                            then m_set_is_active false m else m)
                  (masters s)) s.

Definition select_request_opt (request_id : option Z) (s : Store)
  : list Request :=
  filter (fun r => sql_eq (Some (r_id r)) request_id) (requests s).

(** The body of the loop of [send_to_masters]: the offer is inserted, then
    sent; a master who has blocked the bot is deactivated. *)
Definition offer_to (request_id : option Z) (r : Master) : M unit :=
  let mid := m_id r in
  execute (sql_insert_offer request_id mid) ;;;
  commit ;;;
  try_except (api (MsgOffer request_id mid))
    (fun e =>
       match e with
       | ExnBlocked => execute (update (sql_deactivate mid)) ;;; ret tt
       | ExnOther => ret tt
       end).

(** [send_to_masters(request_id, category, district)]. *)
Definition send_to_masters (now : Z) (request_id : option Z) (category : text)
  : M unit :=
  rows <- fetch_all select_active_masters ;;
  let rows := pick_masters now category rows in
  fetch_one (select_request_opt request_id) ;;;
  for_each rows (offer_to request_id).

(** ** rate_limiter.py *)

Definition limiter_set (f : Limiter) (uid : Z) (action : String.string)
           (v : list Z) : Limiter :=
  fun u a => if (u =? uid) && String.eqb a action then v else f u a.

(** [RateLimiter.check_limit(user_id, action, limit, period)]. *)
Definition check_limit (now uid : Z) (action : String.string)
           (limit period : Z) : M bool :=
  fun w =>
    let kept := filter (fun req_time => now - req_time <? period)
                       (user_requests w uid action) in
    if limit <=? Z.of_nat (length kept)
    then (Ok false, set_user_requests
                      (limiter_set (user_requests w) uid action kept) w)
    else (Ok true, set_user_requests
                     (limiter_set (user_requests w) uid action
                                  (kept ++ [now])) w).

(** [RateLimiter.get_remaining(user_id, action, limit, period)]: it prunes
    the entry as [check_limit] does. *)
Definition get_remaining (now uid : Z) (action : String.string)
           (limit period : Z) : M Z :=
  fun w =>
    let kept := filter (fun req_time => now - req_time <? period)
                       (user_requests w uid action) in
    (Ok (Z.max 0 (limit - Z.of_nat (length kept))),
     set_user_requests (limiter_set (user_requests w) uid action kept) w).


(** [RateLimiter.cleanup_old_entries()]: every entry loses the times older
    than 24 hours; a key whose list is empty reads as the empty list
    whether it is deleted or not. *)
Definition cleanup_old_entries (now : Z) : M unit :=
  fun w =>
    (Ok tt,
     set_user_requests
       (fun u a => filter (fun t => now - t <? 24 * 3600)
                          (user_requests w u a)) w).

(** ** bot.py: taking an order *)

(** The second field of the callback [offer:<action>:<req_id>:<master_id>]. *)
Inductive Action := Take | Skip | OtherAction.

Definition sql_set_offer_status (st : OfferStatus) (req_id master_id : Z)
  : Store -> Store :=
  fun s => set_offers
             (map (fun o => if sql_eq (o_request_id o) (Some req_id)
                               && (o_master_id o =? master_id)
                            then o_set_status st o else o)
                  (offers s)) s.

(** [UPDATE masters SET free_orders_left=free_orders_left-1 WHERE id=?]. *)
Definition sql_debit (master_id : Z) : Store -> Store :=
  fun s => set_masters
             (map (fun m => if m_id m =? master_id
                            then m_set_free_orders_left
                                   (option_map (fun n => n - 1)
                                               (m_free_orders_left m)) m
                            else m)
                  (masters s)) s.

(** [UPDATE requests SET status='assigned', master_id=? WHERE id=?]. *)
Definition sql_assign (master_id req_id : Z) : Store -> Store :=
  fun s => set_requests
             (map (fun r => if r_id r =? req_id
                            then r_set_master_id (Some master_id)
                                   (r_set_status Assigned r)
                            else r)
                  (requests s)) s.

(** What [offer_actions] does after the assignment: the notices to the
    client, the master and the administrator, and the offer marked
    'taken'. *)
Definition take_notify (req_id master_id : Z) : M unit :=
  api MsgOrderAssigned ;;;
  request_full <- fetch_one (select_request req_id) ;;
  match request_full with
  | Some request_full =>
      match r_client_user_id request_full with
      | Some _ =>
          master_info <- fetch_one (select_master (Some master_id)) ;;
          match master_info with
          | Some _ => try_except (api MsgClientTaken) (fun _ => ret tt)
          | None => ret tt
          end
      | None => ret tt
      end ;;;
      api MsgMasterDetails
  | None => ret tt
  end ;;;
  execute (update (sql_set_offer_status Taken req_id master_id)) ;;;
  notify_admin ;;;
  api MsgAnswer.

(** What [offer_actions] does once the claim is admitted: the assignment
    and what follows it. *)
Definition take_admitted (req_id master_id : Z) : M unit :=
  execute (update (sql_assign master_id req_id)) ;;;
  take_notify req_id master_id.

(** [offer_actions]. *)
Definition offer_actions (now uid : Z) (action : Action)
           (req_id master_id : Z) : M unit :=
  admitted <- check_limit now uid "offer_actions"%string 10 3600 ;;
  if negb admitted then api MsgTooManyActions
  else
    row <- fetch_one (select_request req_id) ;;
    match row with
    | None => api MsgOrderNotFound
    | Some row =>
        let status := r_status row in
        match action with
        | Skip =>
            execute (update (sql_set_offer_status Skipped req_id master_id)) ;;;
            api MsgSkipped
        | Take =>
            current_master <- fetch_one (select_master_by_contact uid) ;;
            if match current_master with
               | Some cm => negb (m_id cm =? master_id)
               | None => true
               end
            then api MsgAuthError
            else if negb (status_eqb status New) then api MsgAlreadyTaken
            else
              m <- fetch_one (select_master (Some master_id)) ;;
              match m with
              | None => api MsgMasterNotFound
              | Some m =>
                  let sub_until := m_sub_until m in
                  let free_left := m_free_orders_left m in
                  if is_active now sub_until then
                    take_admitted req_id master_id
                  else if 0 <? or0 free_left then
                    execute (update (sql_debit master_id)) ;;;
                    take_admitted req_id master_id
                  else
                    api MsgUpsell ;;; api MsgAnswer
              end
        | OtherAction => ret tt
        end
    end.

(** ** bot.py: the other handlers that write to the four tables *)

(** [INSERT INTO requests(...)] of [req_submit]: status 'new', no master. *)
Definition sql_insert_request (contact : option Z) (category : text)
           (client_user_id now : Z) : Store -> option (Z * Store) :=
  fun s =>
    let rowid := request_seq s + 1 in
    Some (rowid,
          mkStore (requests s ++
                     [mkRequest rowid contact category New None
                                (Some client_user_id) false None now])
                  (masters s) (offers s) (reviews s)
                  rowid (master_seq s) (offer_seq s) (review_seq s)).

(** [req_submit]. *)
Definition req_submit (now uid : Z) (contact : option Z) (category : text)
  : M unit :=
  rid <- execute (sql_insert_request contact category uid now) ;;
  commit ;;;
  notify_admin ;;;
  send_to_masters now rid category ;;;
  main_menu_kb uid ;;;
  api MsgRequestSent ;;;
  api MsgAnswer.

Definition FREE_ORDERS_START : Z := 3.
Definition SUB_DURATION_DAYS : Z := 30.
Definition PRIORITY_DURATION_DAYS : Z := 30.
Definition PIN_DURATION_DAYS : Z := 7.

(** [INSERT INTO masters(...)] of the registration forms; the columns
    [avg_rating] and [reviews_count] take their defaults 5.0 and 0. *)
Definition sql_insert_master (contact : option Z) (level : Level)
           (categories_auto : option text) (skill_tier : Tier)
  : Store -> option (Z * Store) :=
  fun s =>
    let rowid := master_seq s + 1 in
    Some (rowid,
          mkStore (requests s)
                  (masters s ++
                     [mkMaster rowid contact level true Null Null Null
                               (Some FREE_ORDERS_START) categories_auto
                               (Some 0) skill_tier (5 # 1) 0])
                  (offers s) (reviews s)
                  (request_seq s) rowid (offer_seq s) (review_seq s)).

(** [admin_master_card(mid)] reads the master's row. *)
Definition admin_master_card (mid : option Z) : M unit :=
  fetch_one (select_master mid) ;;; ret tt.

(** [mf_verify_no]: the profile is saved with the level 'Кандидат'. *)
Definition mf_verify_no (uid : Z) (contact : option Z)
           (cats_auto : option text) : M unit :=
  mid <- execute (sql_insert_master contact Candidate cats_auto Novice) ;;
  commit ;;;
  admin_master_card mid ;;;
  notify_admin ;;;
  main_menu_kb uid ;;;
  api MsgProfileSaved ;;;
  api MsgCongrats ;;;
  api MsgAnswer.

(** [mf_face_photo]: the profile is saved with the level 'Проверенный'. *)
Definition mf_face_photo (contact : option Z) (cats_auto : option text)
  : M unit :=
  skill_tier <- calc_skill_tier (Some 0) ;;
  mid <- execute (sql_insert_master contact Checked cats_auto skill_tier) ;;
  commit ;;;
  admin_master_card mid ;;;
  notify_admin ;;;
  api MsgProfileSaved ;;;
  api MsgAnswer.

Definition sql_set_level (level : Level) (master_id : option Z)
  : Store -> Store :=
  fun s => set_masters
             (map (fun m => if sql_eq (Some (m_id m)) master_id
                            then mkMaster (m_id m) (m_contact m) level
                                   (m_is_active m) (m_sub_until m)
                                   (m_priority_until m) (m_pin_until m)
                                   (m_free_orders_left m)
                                   (m_categories_auto m)
                                   (m_orders_completed m) (m_skill_tier m)
                                   (m_avg_rating m) (m_reviews_count m)
                            else m)
                  (masters s)) s.

(** [mf_npd_doc]: the level becomes 'Верифицированный'. *)
Definition mf_npd_doc (uid : Z) (mid : option Z) : M unit :=
  execute (update (sql_set_level Verified mid)) ;;;
  admin_master_card mid ;;;
  notify_admin ;;;
  main_menu_kb uid ;;;
  api MsgProfileSaved ;;;
  api MsgCongrats.

(** The payload of a confirmed payment. *)
Inductive Payload := Sub30d | Priority30d | Pin7d | OtherPayload.

Definition sql_grant (set : Stamp -> Master -> Master) (until : Z) (uid : Z)
  : Store -> Store :=
  fun s => set_masters
             (map (fun m => if sql_eq (m_contact m) (Some uid)
                            then set (At until) m else m)
                  (masters s)) s.

(** [payment_done]. *)
Definition payment_done (now uid : Z) (payload : Payload) : M unit :=
  match payload with
  | Sub30d =>
      execute (update (sql_grant m_set_sub_until
                                 (now + SUB_DURATION_DAYS * 86400) uid)) ;;;
      api MsgSubscribed
  | Priority30d =>
      execute (update (sql_grant m_set_priority_until
                                 (now + PRIORITY_DURATION_DAYS * 86400) uid)) ;;;
      api MsgPriorityOn
  | Pin7d =>
      execute (update (sql_grant m_set_pin_until
                                 (now + PIN_DURATION_DAYS * 86400) uid)) ;;;
      api MsgPinned
  | OtherPayload => ret tt
  end.

Definition sql_delete_masters (uid : Z) : Store -> Store :=
  fun s => set_masters
             (filter (fun m => negb (sql_eq (m_contact m) (Some uid)))
                     (masters s)) s.

Definition sql_delete_requests (uid : Z) : Store -> Store :=
  fun s => set_requests
             (filter (fun r => negb (sql_eq (r_contact r) (Some uid)
                                     || sql_eq (r_client_user_id r) (Some uid)))
                     (requests s)) s.

(** [delete_profile]; its third statement deletes complaints. *)
Definition delete_profile (uid : Z) : M unit :=
  execute (update (sql_delete_masters uid)) ;;;
  execute (update (sql_delete_requests uid)) ;;;
  execute (update (fun s => s)) ;;;
  main_menu_kb uid ;;;
  api MsgDataDeleted.

Definition sql_set_comment (comment : text) (request_id : Z)
  : Store -> Store :=
  fun s => set_reviews
             (map (fun v => if v_request_id v =? request_id
                            then v_set_comment (Some comment) v else v)
                  (reviews s)) s.

(** [comp_text] when the state carries [review_request_id]: the comment of
    a review.  The reply names an unbound variable [c], so building it
    raises and the handler answers with the error message. *)
Definition comp_text_review (request_id : Z) (comment : text) : M unit :=
  try_except
    (request <- fetch_one (select_request request_id) ;;
     match request with
     | None => api MsgRequestNotFound
     | Some _ =>
         execute (update (sql_set_comment comment request_id)) ;;;
         raise ExnOther
     end)
    (fun _ => api MsgError).

(** ** The events of the bot *)

Inductive Event :=
| EvOffer (now uid : Z) (action : Action) (req_id master_id : Z)
| EvSubmit (now uid : Z) (contact : option Z) (category : text)
| EvComplete (uid request_id : Z)
| EvConfirm (now uid request_id : Z) (answer : Answer)
| EvSweep (now : Z)
| EvRating (uid request_id rating : Z)
| EvComment (request_id : Z) (comment : text)
| EvPayment (now uid : Z) (payload : Payload)
| EvDeleteProfile (uid : Z)
| EvRegisterCandidate (uid : Z) (contact : option Z) (cats : option text)
| EvRegisterChecked (contact : option Z) (cats : option text)
| EvVerify (uid : Z) (mid : option Z).

Definition handle (e : Event) : M unit :=
  match e with
  | EvOffer now uid action req_id master_id =>
      offer_actions now uid action req_id master_id
  | EvSubmit now uid contact category => req_submit now uid contact category
  | EvComplete uid request_id => complete_order uid request_id
  | EvConfirm now uid request_id answer =>
      client_confirmation now uid request_id answer
  | EvSweep now => auto_complete now
  | EvRating uid request_id rating => process_rating uid request_id rating
  | EvComment request_id comment => comp_text_review request_id comment
  | EvPayment now uid payload => payment_done now uid payload
  | EvDeleteProfile uid => delete_profile uid
  | EvRegisterCandidate uid contact cats => mf_verify_no uid contact cats
  | EvRegisterChecked contact cats => mf_face_photo contact cats
  | EvVerify uid mid => mf_npd_doc uid mid
  end.

(** The dispatcher runs one handler after another; an exception that leaves
    a handler is logged and the next event is served. *)
Definition step (w : World) (e : Event) : World := exec (handle e) w.

Definition run (w : World) (es : list Event) : World := fold_left step es w.

(** * Specification vocabulary *)

(** The world after a database statement has been attempted. *)
Definition tick (w : World) : World := set_faults (tl (faults w)) w.

(** Does the next database statement raise? *)
Definition fault_now (w : World) : bool :=
  match faults w with
  | true :: _ => true
  | _ => false
  end.

(** No database statement raises from here on. *)
Definition no_faults (w : World) : Prop := Forall (fun b => b = false) (faults w).

(** The world after an API call, whatever its outcome, and the outcome. *)
Definition sent (m : Msg) (w : World) : World :=
  set_out (m :: out w) (set_net (tl (net w)) w).

Definition api_result (w : World) : Result unit :=
  match net w with
  | Blocked :: _ => Raised ExnBlocked
  | Failed :: _ => Raised ExnOther
  | _ => Ok tt
  end.

(** The next [n] database statements do not raise. *)
Definition ok_for (n : nat) (w : World) : Prop :=
  Forall (fun b => b = false) (firstn n (faults w)).


(** A computation that preserves a property of the world. *)
Definition wkeeps {A} (J : World -> Prop) (m : M A) : Prop :=
  forall w, J w -> J (exec m w).

(** A property of the world that no primitive step destroys, whatever the
    step writes to the store. *)
Definition steady (J : World -> Prop) : Prop :=
  (forall w, J w -> J (tick w))
  /\ (forall s w, J w -> J (set_store s w))
  /\ (forall m w, J w -> J (sent m w))
  /\ (forall l w, J w -> J (set_user_requests l w)).

(** The world of the sample store in which the statements fail as [fs]
    says. *)
Definition faulty (fs : list bool) (s : Store) : World :=
  mkWorld s fs [] (fun _ _ => []) [] 1.

(** The rate limiter lets [uid] act on an offer at time [now]. *)
Definition admits (now uid : Z) (w : World) : Prop :=
  Z.of_nat (length (filter (fun req_time => now - req_time <? 3600)
                           (user_requests w uid "offer_actions"%string))) < 10.

(** A Hoare triple over the database: if the store satisfies [P] before
    the computation, the result and the store after it satisfy [Q]. *)
Definition triple {A} (P : Store -> Prop) (m : M A)
           (Q : Result A -> Store -> Prop) : Prop :=
  forall w, P (store w) -> Q (result m w) (store (exec m w)).

(** A computation that preserves a property of the store. *)
Definition keeps {A} (I : Store -> Prop) (m : M A) : Prop :=
  triple I m (fun _ => I).


(** A nullable counter is not negative. *)
Definition nonneg (x : option Z) : Prop :=
  match x with
  | Some v => 0 <= v
  | None => True
  end.

(** The masters table is well formed: rowids are distinct and were handed
    out by the sequence, and no free-order balance is negative. *)
Definition masters_ok (s : Store) : Prop :=
  NoDup (map m_id (masters s))
  /\ Forall (fun m => m_id m <= master_seq s) (masters s)
  /\ Forall (fun m => nonneg (m_free_orders_left m)) (masters s).

(** The matching policy in the words of the specification: a name is
    normalised by keeping its Cyrillic letters and lowering their case, and
    two names match when one occurs inside the other. *)
Definition norm (s : text) : text := map lower_char (filter is_cyrillic s).







(** The pair (request, master) that an offer is about, when it names a
    request. *)
Definition offer_keys (l : list Offer) : list (Z * Z) :=
  flat_map (fun o => match o_request_id o with
                     | Some k => [(k, o_master_id o)]
                     | None => []
                     end) l.

(** The requests and offers tables are well formed: the rowids of requests
    and the requests that offers name were handed out by the sequence; no
    two offers are about the same request and master; a taken offer
    belongs to a request that is no longer 'new' and is bound to the
    offer's master; the taken offers of a request agree on the master. *)
Definition offers_ok (s : Store) : Prop :=
  Forall (fun r => r_id r <= request_seq s) (requests s)
  /\ Forall (fun o => forall k, o_request_id o = Some k -> k <= request_seq s)
            (offers s)
  /\ NoDup (offer_keys (offers s))
  /\ (forall o r, In o (offers s) -> In r (requests s) ->
                  o_status o = Taken -> o_request_id o = Some (r_id r) ->
                  r_status r <> New /\ r_master_id r = Some (o_master_id o))
  /\ (forall o1 o2 k, In o1 (offers s) -> In o2 (offers s) ->
                      o_status o1 = Taken -> o_status o2 = Taken ->
                      o_request_id o1 = Some k -> o_request_id o2 = Some k ->
                      o_master_id o1 = o_master_id o2).

(** Request [rid] is bound to master [mid]: every row of the request is
    past 'new' and names the master, and no other master has a taken offer
    of it. *)
Definition bound_to (rid mid : Z) (s : Store) : Prop :=
  offers_ok s
  /\ (forall r, In r (requests s) -> r_id r = rid ->
                r_status r <> New /\ r_master_id r = Some mid)
  /\ (forall o, In o (offers s) -> o_status o = Taken ->
                o_request_id o = Some rid -> o_master_id o = mid).

(** While [send_to_masters] loops: the masters still to be served are
    distinct and none of them has an offer of the request yet. *)
Definition broadcasting (rid : option Z) (todo : list Master) (s : Store)
  : Prop :=
  offers_ok s
  /\ NoDup (map m_id todo)
  /\ (forall k, rid = Some k ->
                k <= request_seq s
                /\ forall x, In x todo ->
                             ~ In (k, m_id x) (offer_keys (offers s))).

(** The request that a broadcast is for has no offer yet. *)
Definition unoffered (rid : option Z) (s : Store) : Prop :=
  forall k, rid = Some k ->
            k <= request_seq s
            /\ forall o, In o (offers s) -> o_request_id o <> Some k.

(** A triple over the whole world. *)
Definition wtriple {A} (P : World -> Prop) (m : M A)
           (Q : Result A -> World -> Prop) : Prop :=
  forall w, P w -> Q (result m w) (exec m w).

(** A property of the store in a world without persistence faults. *)
Definition calmly (I : Store -> Prop) (w : World) : Prop :=
  no_faults w /\ I (store w).

(** One claim of a series: when, by whom, for which master record. *)
Record Claim := mkClaim { c_now : Z; c_uid : Z; c_master_id : Z }.

Definition claim_events (rid : Z) (claims : list Claim) : list Event :=
  map (fun c => EvOffer (c_now c) (c_uid c) Take rid (c_master_id c)) claims.

(** A user calls [check_limit] at each of [times] for one action; the times
    of the admitted calls come back. *)
Fixpoint served (uid : Z) (action : String.string) (limit period : Z)
         (times : list Z) : M (list Z) :=
  match times with
  | [] => ret []
  | t :: ts =>
      admitted <- check_limit t uid action limit period ;;
      rest <- served uid action limit period ts ;;
      ret (if admitted : bool then t :: rest else rest)
  end.

(** How many of the times [l] fall into the window of [period] seconds
    that ends at [t]. *)
Definition in_window (period t : Z) (l : list Z) : nat :=
  length (filter (fun x => (t - x <? period) && (x <=? t)) l).

(** Request [k] has left 'new' with the master cell [mid]: the rowid has
    been handed out, and every row that carries it is past 'new' and names
    [mid]. *)
Definition settled (k : Z) (mid : option Z) (s : Store) : Prop :=
  k <= request_seq s
  /\ forall r, In r (requests s) -> r_id r = k ->
               r_status r <> New /\ r_master_id r = mid.



(** The free-order balance of master [k] does not exceed [n]. *)
Definition balance_at_most (k n : Z) (s : Store) : Prop :=
  k <= master_seq s
  /\ forall m, In m (masters s) -> m_id m = k ->
               or0 (m_free_orders_left m) <= n.

(** What an offer and a review are about. *)
Definition offer_subject (o : Offer) : Z * option Z * Z :=
  (o_id o, o_request_id o, o_master_id o).

Definition review_subject (v : Review) : Z * Z * Z * Z * Z :=
  (v_id v, v_request_id v, v_master_id v, v_client_id v, v_rating v).


(** The store still holds an offer, a review, about what [o], [v] is
    about. *)
Definition offer_kept (o : Offer) (s : Store) : Prop :=
  exists o', In o' (offers s) /\ offer_subject o' = offer_subject o.

Definition review_kept (v : Review) (s : Store) : Prop :=
  exists v', In v' (reviews s) /\ review_subject v' = review_subject v.

(** Every rating of a review is one of 1..5 and every average of a master
    lies between 1 and 5. *)
Definition rated (s : Store) : Prop :=
  Forall (fun v => 1 <= v_rating v <= 5) (reviews s)
  /\ Forall (fun m => (1 <= m_avg_rating m)%Q /\ (m_avg_rating m <= 5)%Q)
            (masters s).

(** Every row of request [rid] is completed. *)
Definition all_completed (rid : Z) (s : Store) : Prop :=
  forall r, In r (requests s) -> r_id r = rid -> r_status r = Completed.


(** While the sweep runs: every request of [stale] still has a row, and
    the requests of [done] are completed. *)
Definition swept (stale done : list Request) (s : Store) : Prop :=
  (forall q, In q stale -> exists r, In r (requests s) /\ r_id r = r_id q)
  /\ (forall q, In q done -> all_completed (r_id q) s).

(** What the sweep does for one stale request. *)
Definition sweep_one (now : Z) (req : Request) : M unit :=
  mark_request_completed now (r_id req) ;;;
  match r_client_user_id req with
  | Some _ => try_except (api MsgAutoCompleted) (fun _ => ret tt)
  | None => ret tt
  end.

(** ** Sample rows *)

(** "Ремонт". *)
Definition remont : text := [1056; 1077; 1084; 1086; 1085; 1090]%N.
(** "Уборка". *)
Definition uborka : text := [1059; 1073; 1086; 1088; 1082; 1072]%N.

(** A master of the category "Ремонт" whose Telegram id is [uid]. *)
Definition sample_master (id uid : Z) (sub_until : Stamp)
           (free_orders_left orders_completed : Z) (tier : Tier) : Master :=
  mkMaster id (Some uid) Candidate true sub_until Null Null
           (Some free_orders_left) (Some remont) (Some orders_completed)
           tier (5 # 1) 0.

(** A request of the client 77 in the category "Ремонт". *)
Definition sample_request (id : Z) (status : Status) (master_id : option Z)
  : Request :=
  mkRequest id None remont status master_id (Some 77) false None 0.

(** Master 1 (user 10) without a subscription and with [free] free orders,
    master 2 (user 11) subscribed until 5000; request 1 with an offer to
    each of them. *)
Definition sample_store (status : Status) (master_id : option Z) (free : Z)
  : Store :=
  mkStore [sample_request 1 status master_id]
          [sample_master 1 10 Null free 19 Novice;
           sample_master 2 11 (At 5000) 3 0 Novice]
          [mkOffer 1 (Some 1) 2 Sent; mkOffer 2 (Some 1) 1 Sent]
          [] 1 2 2 0.

(** * Proofs *)

(** ** Running the primitives *)

Lemma store_tick (w : World) : store (tick w) = store w.
Proof. reflexivity. Qed.

Lemma execute_eq A (stmt : Store -> option (A * Store)) (w : World) :
  execute stmt w =
  if fault_now w then (Ok None, tick w)
  else match stmt (store w) with
       | Some (a, s') => (Ok (Some a), set_store s' (tick w))
       | None => (Ok None, tick w)
       end.
Proof.
  unfold execute, fault_now, tick.
  destruct (faults w) as [|[] fs]; reflexivity.
Qed.

Lemma fetch_one_eq A (q : Store -> list A) (w : World) :
  fetch_one q w =
  (Ok (if fault_now w then None else hd_error (q (store w))), tick w).
Proof.
  unfold fetch_one, bind. rewrite execute_eq.
  destruct (fault_now w); destruct w; reflexivity.
Qed.

Lemma fetch_all_eq A (q : Store -> list A) (w : World) :
  fetch_all q w = (Ok (if fault_now w then [] else q (store w)), tick w).
Proof.
  unfold fetch_all, bind. rewrite execute_eq.
  destruct (fault_now w); destruct w; reflexivity.
Qed.

Lemma no_faults_now (w : World) : no_faults w -> fault_now w = false.
Proof.
  unfold no_faults, fault_now. intros H.
  destruct (faults w) as [|b fs]; [reflexivity|].
  inversion H; subst. reflexivity.
Qed.

Lemma no_faults_tick (w : World) : no_faults w -> no_faults (tick w).
Proof.
  unfold no_faults, tick. simpl. intros H.
  destruct (faults w); [constructor | inversion H; assumption].
Qed.

Lemma api_store (m : Msg) (w : World) : store (exec (api m) w) = store w.
Proof. unfold exec, api. destruct (net w) as [|[] n]; reflexivity. Qed.

Lemma api_faults (m : Msg) (w : World) : faults (exec (api m) w) = faults w.
Proof. unfold exec, api. destruct (net w) as [|[] n]; reflexivity. Qed.

Lemma api_out (m : Msg) (w : World) : out (exec (api m) w) = m :: out w.
Proof. unfold exec, api. destruct (net w) as [|[] n]; reflexivity. Qed.

(** ** Rules of the triples *)

Lemma triple_ret A (a : A) (P : Store -> Prop) (Q : Result A -> Store -> Prop) :
  (forall s, P s -> Q (Ok a) s) -> triple P (ret a) Q.
Proof. intros H w Hw. apply H, Hw. Qed.

Lemma triple_raise A (e : Exn) (P : Store -> Prop)
      (Q : Result A -> Store -> Prop) :
  (forall s, P s -> Q (Raised e) s) -> triple P (raise e) Q.
Proof. intros H w Hw. apply H, Hw. Qed.

Lemma triple_bind A B (m : M A) (k : A -> M B) (P : Store -> Prop)
      (Q : Result A -> Store -> Prop) (R : Result B -> Store -> Prop) :
  triple P m Q ->
  (forall a, triple (Q (Ok a)) (k a) R) ->
  (forall e s, Q (Raised e) s -> R (Raised e) s) ->
  triple P (bind m k) R.
Proof.
  intros Hm Hk He w Hw. specialize (Hm w Hw).
  unfold result, exec, bind in *.
  destruct (m w) as [[a|e] w1]; simpl in *.
  - apply (Hk a w1 Hm).
  - apply He, Hm.
Qed.

Lemma triple_try A (body : M A) (handler : Exn -> M A) (P : Store -> Prop)
      (Q R : Result A -> Store -> Prop) :
  triple P body Q ->
  (forall a s, Q (Ok a) s -> R (Ok a) s) ->
  (forall e, triple (Q (Raised e)) (handler e) R) ->
  triple P (try_except body handler) R.
Proof.
  intros Hb Hok Hh w Hw. specialize (Hb w Hw).
  unfold result, exec, try_except in *.
  destruct (body w) as [[a|e] w1]; simpl in *.
  - apply Hok, Hb.
  - apply (Hh e w1 Hb).
Qed.

Lemma triple_weaken A (m : M A) (P P' : Store -> Prop)
      (Q Q' : Result A -> Store -> Prop) :
  triple P' m Q' ->
  (forall s, P s -> P' s) ->
  (forall r s, Q' r s -> Q r s) ->
  triple P m Q.
Proof. intros H HP HQ w Hw. apply HQ, H, HP, Hw. Qed.

Lemma triple_api (msg : Msg) (P : Store -> Prop) :
  triple P (api msg) (fun _ => P).
Proof. intros w Hw. rewrite api_store. exact Hw. Qed.

Lemma triple_fetch_one A (q : Store -> list A) (P : Store -> Prop) :
  triple P (fetch_one q)
         (fun r s => P s /\ exists o, r = Ok o
                                      /\ (o = None \/ o = hd_error (q s))).
Proof.
  intros w Hw. unfold result, exec. rewrite fetch_one_eq. simpl.
  split; [exact Hw|]. destruct (fault_now w); eauto.
Qed.

Lemma triple_fetch_all A (q : Store -> list A) (P : Store -> Prop) :
  triple P (fetch_all q)
         (fun r s => P s /\ exists l, r = Ok l /\ (l = [] \/ l = q s)).
Proof.
  intros w Hw. unfold result, exec. rewrite fetch_all_eq. simpl.
  split; [exact Hw|]. destruct (fault_now w); eauto.
Qed.

(** A statement that raises or breaks a constraint leaves the store as it
    was; one that commits leaves the store it computed. *)
Lemma triple_execute A (stmt : Store -> option (A * Store))
      (P : Store -> Prop) (Q : Store -> Prop) :
  (forall s, P s -> Q s) ->
  (forall s a s', P s -> stmt s = Some (a, s') -> Q s') ->
  triple P (execute stmt) (fun _ => Q).
Proof.
  intros Hstay Hgo w Hw. unfold result, exec. rewrite execute_eq.
  destruct (fault_now w); simpl; [apply Hstay, Hw|].
  destruct (stmt (store w)) as [[a s']|] eqn:E; simpl.
  - eapply Hgo; eauto.
  - apply Hstay, Hw.
Qed.

Lemma triple_check_limit (now uid : Z) (action : string) (limit period : Z)
      (P : Store -> Prop) :
  triple P (check_limit now uid action limit period) (fun _ => P).
Proof.
  intros w Hw. unfold result, exec, check_limit.
  destruct (limit <=? _); exact Hw.
Qed.

Lemma triple_notify_admin (P : Store -> Prop) :
  triple P notify_admin (fun _ => P).
Proof.
  intros w Hw. unfold result, exec, notify_admin.
  destruct (ADMIN_CHAT_ID w =? 0); [exact Hw|].
  unfold try_except, api, ret. destruct (net w) as [|[] n]; exact Hw.
Qed.

(** The two ways a lookup can go: the statement raised, or it returned the
    first row of the query on the store as it is. *)
Lemma triple_fetch_bind A B (q : Store -> list A) (k : option A -> M B)
      (P : Store -> Prop) (R : Result B -> Store -> Prop) :
  triple P (k None) R ->
  (forall s0, triple (fun s => P s /\ s = s0) (k (hd_error (q s0))) R) ->
  triple P (bind (fetch_one q) k) R.
Proof.
  intros Hnone Hsome w Hw. unfold result, exec, bind.
  rewrite fetch_one_eq.
  destruct (fault_now w).
  - apply (Hnone (tick w) Hw).
  - apply (Hsome (store w) (tick w)). split; [exact Hw | reflexivity].
Qed.

Lemma keeps_bind A B (m : M A) (k : A -> M B) (I : Store -> Prop) :
  keeps I m -> (forall a, keeps I (k a)) -> keeps I (bind m k).
Proof.
  intros Hm Hk. eapply triple_bind; [exact Hm | exact Hk | auto].
Qed.

Lemma keeps_try A (body : M A) (handler : Exn -> M A) (I : Store -> Prop) :
  keeps I body -> (forall e, keeps I (handler e)) ->
  keeps I (try_except body handler).
Proof.
  intros Hb Hh. eapply triple_try; [exact Hb | auto | exact Hh].
Qed.

Lemma keeps_ret A (a : A) (I : Store -> Prop) : keeps I (ret a).
Proof. apply triple_ret. auto. Qed.

Lemma keeps_raise A (e : Exn) (I : Store -> Prop) : keeps I (@raise A e).
Proof. apply triple_raise. auto. Qed.

Lemma keeps_api (msg : Msg) (I : Store -> Prop) : keeps I (api msg).
Proof. apply triple_api. Qed.

Lemma keeps_fetch_one A (q : Store -> list A) (I : Store -> Prop) :
  keeps I (fetch_one q).
Proof.
  intros w Hw. apply (@triple_fetch_one A q I w Hw).
Qed.

Lemma keeps_fetch_all A (q : Store -> list A) (I : Store -> Prop) :
  keeps I (fetch_all q).
Proof.
  intros w Hw. apply (@triple_fetch_all A q I w Hw).
Qed.

Lemma keeps_execute A (stmt : Store -> option (A * Store))
      (I : Store -> Prop) :
  (forall s a s', I s -> stmt s = Some (a, s') -> I s') ->
  keeps I (execute stmt).
Proof. intros H. apply triple_execute; auto. Qed.

Lemma keeps_update (f : Store -> Store) (I : Store -> Prop) :
  (forall s, I s -> I (f s)) -> keeps I (execute (update f)).
Proof.
  intros H. apply keeps_execute. unfold update.
  intros s a s' Hs E. inversion E; subst. apply H, Hs.
Qed.

Lemma keeps_check_limit (now uid : Z) (action : string) (limit period : Z)
      (I : Store -> Prop) :
  keeps I (check_limit now uid action limit period).
Proof. apply triple_check_limit. Qed.

Lemma keeps_notify_admin (I : Store -> Prop) : keeps I notify_admin.
Proof. apply triple_notify_admin. Qed.

Lemma keeps_for_each A (l : list A) (body : A -> M unit) (I : Store -> Prop) :
  (forall x, keeps I (body x)) -> keeps I (for_each l body).
Proof.
  intros H. induction l as [|x l IH]; simpl.
  - apply keeps_ret.
  - apply keeps_bind; auto.
Qed.

Lemma keeps_commit (I : Store -> Prop) : keeps I commit.
Proof. apply keeps_ret. Qed.

(** ** The review subsystem *)

(** C10.  When a master has no review, [update_master_stats] leaves the
    whole store, and so the master's row, as it was: [avg_rating] and
    [reviews_count] keep their values.  For a row that a registration form
    has just inserted these are the column defaults 5.0 and 0. *)
Theorem update_master_stats_without_reviews :
  (forall (w : World) (master_id : option Z),
      ratings_of master_id (store w) = [] ->
      store (exec (update_master_stats master_id) w) = store w)
  /\ (forall s contact level cats tier rowid s',
         sql_insert_master contact level cats tier s = Some (rowid, s') ->
         exists m, masters s' = masters s ++ [m]
                   /\ m_id m = rowid
                   /\ m_avg_rating m = 5 # 1
                   /\ m_reviews_count m = 0).
Proof.
  split.
  - intros w master_id H.
    unfold exec, update_master_stats, try_except, bind.
    rewrite fetch_one_eq.
    destruct (fault_now w); simpl; [reflexivity|].
    rewrite H. reflexivity.
  - intros s contact level cats tier rowid s' H.
    unfold sql_insert_master in H. inversion H; subst; clear H.
    eexists. simpl. repeat split.
Qed.

Lemma update_master_stats_without_reviews_witness :
  store (exec (update_master_stats (Some 1)) (calm (sample_store New None 3)))
  = store (calm (sample_store New None 3)).
Proof.
  apply (proj1 update_master_stats_without_reviews). reflexivity.
Defined.

(** C9, at the input where the code departs from it: request 1 is completed
    by master 1, and the client presses two stars of the rating keyboard,
    [review:1:5] and then [review:1:4].  [process_rating] inserts a row
    each time, so the request ends with two reviews. *)
Theorem second_rating_inserts_second_review :
  let w := calm (sample_store Completed (Some 1) 3) in
  let w' := run w [EvRating 77 1 5; EvRating 77 1 4] in
  map (fun v => (v_request_id v, v_rating v)) (reviews (store w'))
  = [(1, 5); (1, 4)].
Proof. vm_compute. reflexivity. Qed.

(** ** Completing an order *)

(** C7, at the input where the code departs from it: master 1 has 19
    completed orders and the client confirms request 1.  The counter
    becomes 20, whose tier is 'Мастер', and the stored tier is 'Новичок':
    [calc_skill_tier] has read the counter before the UPDATE incremented
    it. *)
Theorem skill_tier_lags_behind_count :
  let w := calm (sample_store PendingConfirmation (Some 1) 3) in
  let w' := exec (client_confirmation 100 77 1 Yes) w in
  map (fun m => (m_id m, m_orders_completed m, m_skill_tier m))
      (masters (store w'))
  = [(1, Some 20, Novice); (2, Some 0, Novice)]
  /\ tier_of 20 = MasterTier.
Proof. vm_compute. split; reflexivity. Qed.

(** C4, at the inputs where the code departs from it: the callback
    [confirm:1:yes] arrives while request 1 is 'assigned', or still 'new'.
    [client_confirmation] only turns away a request that is already
    'completed', so the request becomes 'completed' directly. *)
Theorem confirmation_completes_unfinished_request :
  (let w := calm (sample_store Assigned (Some 1) 3) in
   map r_status (requests (store w)) = [Assigned]
   /\ map r_status
          (requests (store (exec (client_confirmation 100 77 1 Yes) w)))
      = [Completed])
  /\ (let w := calm (sample_store New None 3) in
      map r_status (requests (store w)) = [New]
      /\ map r_status
             (requests (store (exec (client_confirmation 100 77 1 Yes) w)))
         = [Completed]).
Proof. vm_compute. repeat split; reflexivity. Qed.

(** ** Stepping through a handler *)

Lemma api_eq (m : Msg) (w : World) : api m w = (api_result w, sent m w).
Proof.
  unfold api, api_result, sent. destruct (net w) as [|[] n]; reflexivity.
Qed.

Lemma no_faults_set_store (s : Store) (w : World) :
  no_faults w -> no_faults (set_store s w).
Proof. exact (fun H => H). Qed.

Lemma no_faults_sent (m : Msg) (w : World) :
  no_faults w -> no_faults (sent m w).
Proof. exact (fun H => H). Qed.

Lemma no_faults_limiter (l : Limiter) (w : World) :
  no_faults w -> no_faults (set_user_requests l w).
Proof. exact (fun H => H). Qed.

Ltac nf :=
  repeat first [ assumption
               | apply no_faults_tick
               | apply no_faults_set_store
               | apply no_faults_sent
               | apply no_faults_limiter ].

Lemma fetch_one_ok A (q : Store -> list A) (w : World) :
  no_faults w -> fetch_one q w = (Ok (hd_error (q (store w))), tick w).
Proof. intros H. rewrite fetch_one_eq, no_faults_now by exact H. reflexivity. Qed.

Lemma fetch_all_ok A (q : Store -> list A) (w : World) :
  no_faults w -> fetch_all q w = (Ok (q (store w)), tick w).
Proof. intros H. rewrite fetch_all_eq, no_faults_now by exact H. reflexivity. Qed.

Lemma execute_ok A (stmt : Store -> option (A * Store)) (w : World)
      (a : A) (s' : Store) :
  no_faults w -> stmt (store w) = Some (a, s') ->
  execute stmt w = (Ok (Some a), set_store s' (tick w)).
Proof.
  intros H E. rewrite execute_eq, no_faults_now by exact H.
  rewrite E. reflexivity.
Qed.

Lemma execute_update_ok (f : Store -> Store) (w : World) :
  no_faults w ->
  execute (update f) w = (Ok (Some tt), set_store (f (store w)) (tick w)).
Proof. intros H. apply execute_ok; [exact H | reflexivity]. Qed.

Lemma exec_bind A B (m : M A) (k : A -> M B) (w w1 : World) (a : A) :
  m w = (Ok a, w1) -> exec (bind m k) w = exec (k a) w1.
Proof. intros E. unfold exec, bind. rewrite E. reflexivity. Qed.

Lemma run_bind A B (m : M A) (k : A -> M B) (w w1 : World) (a : A) :
  m w = (Ok a, w1) -> bind m k w = k a w1.
Proof. intros E. unfold bind. rewrite E. reflexivity. Qed.

Lemma run_bind_raised A B (m : M A) (k : A -> M B) (w w1 : World) (e : Exn) :
  m w = (Raised e, w1) -> bind m k w = (Raised e, w1).
Proof. intros E. unfold bind. rewrite E. reflexivity. Qed.

(** A handler of exceptions that only reports does not touch the store. *)
Lemma store_try A (body : M A) (handler : Exn -> M A) (w : World) :
  (forall e w1, store (exec (handler e) w1) = store w1) ->
  store (exec (try_except body handler) w) = store (exec body w).
Proof.
  intros H. unfold exec, try_except in *.
  destruct (body w) as [[a|e] w1]; simpl; [reflexivity | apply H].
Qed.

Lemma keeps_store A (m : M A) (w : World) :
  (forall s0, keeps (fun s => s = s0) m) -> store (exec m w) = store w.
Proof. intros H. apply (H (store w) w). reflexivity. Qed.









(** ** Taking an order *)

Ltac wsimpl :=
  cbn [store faults net out user_requests ADMIN_CHAT_ID tick set_faults
       set_store set_user_requests sent set_out set_net negb].

Lemma status_eqb_eq (a b : Status) : status_eqb a b = true <-> a = b.
Proof. destruct a, b; simpl; split; congruence. Qed.

Lemma status_eqb_neq (a b : Status) : a <> b -> status_eqb a b = false.
Proof.
  intros H. destruct (status_eqb a b) eqn:E; [|reflexivity].
  apply status_eqb_eq in E. contradiction.
Qed.

Lemma check_limit_admits (now uid : Z) (w : World) :
  admits now uid w ->
  check_limit now uid "offer_actions" 10 3600 w =
  (Ok true,
   set_user_requests
     (limiter_set (user_requests w) uid "offer_actions"
        (filter (fun req_time => now - req_time <? 3600)
                (user_requests w uid "offer_actions"%string) ++ [now])) w).
Proof.
  unfold admits, check_limit. intros H.
  destruct (10 <=? _) eqn:E; [apply Z.leb_le in E; lia | reflexivity].
Qed.

(** C1.  A take on a request that is not 'new' changes nothing in the
    database, whoever sends it and whatever fails.  When it comes from the
    owner of the master record named in the offer, passes the rate limiter
    and the lookups do not fail, the answer is "already taken" and nothing
    else is sent. *)
Theorem take_on_claimed_request :
  (forall (now uid req_id master_id : Z) (w : World),
      (forall r, hd_error (select_request req_id (store w)) = Some r ->
                 r_status r <> New) ->
      store (exec (offer_actions now uid Take req_id master_id) w) = store w)
  /\ (forall (now uid req_id master_id : Z) (w : World) (r : Request)
             (cm : Master),
         no_faults w ->
         admits now uid w ->
         hd_error (select_request req_id (store w)) = Some r ->
         r_status r <> New ->
         hd_error (select_master_by_contact uid (store w)) = Some cm ->
         m_id cm = master_id ->
         out (exec (offer_actions now uid Take req_id master_id) w)
         = MsgAlreadyTaken :: out w).
Proof.
  split.
  - intros now uid req_id master_id w Hst.
    assert (T : triple (fun s => s = store w)
                       (offer_actions now uid Take req_id master_id)
                       (fun _ s => s = store w)).
    { unfold offer_actions.
      eapply triple_bind; [apply triple_check_limit | | auto].
      intros [|]; cbn [negb]; [|apply keeps_api].
      apply triple_fetch_bind; [apply keeps_api|].
      intros s0 w1 [Hs Hs0]. subst s0. rewrite Hs.
      destruct (hd_error (select_request req_id (store w))) as [r|] eqn:Er;
        [|apply (@keeps_api MsgOrderNotFound (fun s => s = store w) w1 Hs)].
      rewrite (status_eqb_neq (Hst r eq_refl)). cbn [negb].
      refine (@keeps_bind _ _ _ _ (fun s => s = store w) _ _ w1 Hs);
        [apply keeps_fetch_one|].
      intros cur. destruct (match cur with Some _ => _ | None => _ end);
        apply keeps_api. }
    apply (T w). reflexivity.
  - intros now uid req_id master_id w r cm Hnf Hadm Hr Hst Hcm Hid.
    unfold offer_actions.
    erewrite exec_bind by (apply check_limit_admits; exact Hadm).
    cbn [negb].
    erewrite exec_bind by (apply fetch_one_ok; nf).
    wsimpl. rewrite Hr.
    erewrite exec_bind by (apply fetch_one_ok; nf).
    wsimpl. rewrite Hcm, Hid, Z.eqb_refl, (status_eqb_neq Hst).
    cbn [negb]. rewrite api_out. reflexivity.
Qed.

Lemma take_on_claimed_request_witness :
  store (exec (offer_actions 100 10 Take 1 1)
              (calm (sample_store Assigned (Some 2) 3)))
  = store (calm (sample_store Assigned (Some 2) 3))
  /\ out (exec (offer_actions 100 10 Take 1 1)
               (calm (sample_store Assigned (Some 2) 3)))
     = MsgAlreadyTaken :: out (calm (sample_store Assigned (Some 2) 3)).
Proof.
  split.
  - apply (proj1 take_on_claimed_request).
    intros r H. vm_compute in H. injection H as <-. discriminate.
  - apply (proj2 take_on_claimed_request 100 10 1 1
                 (calm (sample_store Assigned (Some 2) 3))
                 (sample_request 1 Assigned (Some 2))
                 (sample_master 1 10 Null 3 19 Novice)).
    + constructor.
    + vm_compute. reflexivity.
    + reflexivity.
    + discriminate.
    + reflexivity.
    + reflexivity.
Defined.

(** ** Invariants of the store *)

Ltac keeps_step :=
  match goal with
  | |- keeps _ (bind _ _) => apply keeps_bind; [|intros]
  | |- keeps _ (try_except _ _) => apply keeps_try; [|intros]
  | |- keeps _ (ret _) => apply keeps_ret
  | |- keeps _ (raise _) => apply keeps_raise
  | |- keeps _ (api _) => apply keeps_api
  | |- keeps _ (fetch_one _) => apply keeps_fetch_one
  | |- keeps _ (fetch_all _) => apply keeps_fetch_all
  | |- keeps _ commit => apply keeps_commit
  | |- keeps _ notify_admin => apply keeps_notify_admin
  | |- keeps _ (check_limit _ _ _ _ _) => apply keeps_check_limit
  | |- keeps _ (for_each _ _) => apply keeps_for_each; intros
  | |- keeps _ (execute (update _)) => apply keeps_update
  | |- keeps _ (execute _) => apply keeps_execute
  | |- keeps _ (match ?x with _ => _ end) => destruct x
  | |- keeps _ (if ?x then _ else _) => destruct x
  end.

(** Every handler but [offer_actions] keeps a property of the store that
    each of its statements keeps. *)
Section Frame.

Variable I : Store -> Prop.

Hypothesis I_update_stats :
  forall avg cnt mid s, I s -> I (sql_update_stats avg cnt mid s).
Hypothesis I_set_review_requested :
  forall rid s, I s -> I (sql_set_review_requested rid s).
Hypothesis I_set_completed :
  forall now rid s, I s -> I (sql_set_completed now rid s).
Hypothesis I_count_order :
  forall tier mid s, I s -> I (sql_count_order tier mid s).
Hypothesis I_insert_review :
  forall rid mid cid rating s a s',
    I s -> sql_insert_review rid mid cid rating s = Some (a, s') -> I s'.
Hypothesis I_set_status :
  forall st rid s, st <> New -> I s -> I (sql_set_status st rid s).
Hypothesis I_insert_offer :
  forall rid mid s a s',
    I s -> sql_insert_offer rid mid s = Some (a, s') -> I s'.
Hypothesis I_deactivate : forall mid s, I s -> I (sql_deactivate mid s).
Hypothesis I_insert_request :
  forall contact cat uid now s a s',
    I s -> sql_insert_request contact cat uid now s = Some (a, s') -> I s'.
Hypothesis I_insert_master :
  forall contact level cats tier s a s',
    I s -> sql_insert_master contact level cats tier s = Some (a, s') -> I s'.
Hypothesis I_set_level : forall level mid s, I s -> I (sql_set_level level mid s).
Hypothesis I_grant_sub :
  forall t uid s, I s -> I (sql_grant m_set_sub_until t uid s).
Hypothesis I_grant_priority :
  forall t uid s, I s -> I (sql_grant m_set_priority_until t uid s).
Hypothesis I_grant_pin :
  forall t uid s, I s -> I (sql_grant m_set_pin_until t uid s).
Hypothesis I_delete_masters : forall uid s, I s -> I (sql_delete_masters uid s).
Hypothesis I_delete_requests : forall uid s, I s -> I (sql_delete_requests uid s).
Hypothesis I_set_comment : forall c rid s, I s -> I (sql_set_comment c rid s).

Lemma keeps_update_master_stats (mid : option Z) :
  keeps I (update_master_stats mid).
Proof. unfold update_master_stats. repeat keeps_step; auto. Qed.

Lemma keeps_request_review (rid : Z) (mid : option Z) :
  keeps I (request_review rid mid).
Proof. unfold request_review. repeat keeps_step; auto. Qed.

Lemma keeps_calc_skill_tier (mid : option Z) : keeps I (calc_skill_tier mid).
Proof. unfold calc_skill_tier. repeat keeps_step. Qed.

Lemma keeps_mark_request_completed (now rid : Z) :
  keeps I (mark_request_completed now rid).
Proof.
  unfold mark_request_completed.
  repeat first [ apply keeps_request_review | apply keeps_calc_skill_tier
               | keeps_step ]; auto.
Qed.

Lemma keeps_process_rating (uid rid rating : Z) :
  keeps I (process_rating uid rid rating).
Proof.
  unfold process_rating.
  repeat first [ apply keeps_update_master_stats | keeps_step ]; eauto.
Qed.

Lemma keeps_main_menu_kb (uid : Z) : keeps I (main_menu_kb uid).
Proof. unfold main_menu_kb. repeat keeps_step. Qed.

Lemma keeps_complete_order (uid rid : Z) : keeps I (complete_order uid rid).
Proof.
  unfold complete_order. repeat keeps_step;
    try (intros; apply I_set_status; [discriminate | assumption]).
Qed.

Lemma keeps_client_confirmation (now uid rid : Z) (answer : Answer) :
  keeps I (client_confirmation now uid rid answer).
Proof.
  unfold client_confirmation.
  repeat first [ apply keeps_mark_request_completed | apply keeps_main_menu_kb
               | keeps_step ];
    try (intros; apply I_set_status; [discriminate | assumption]).
Qed.

Lemma keeps_auto_complete (now : Z) : keeps I (auto_complete now).
Proof.
  unfold auto_complete.
  repeat first [ apply keeps_mark_request_completed | keeps_step ].
Qed.

Lemma keeps_send_to_masters (now : Z) (rid : option Z) (category : text) :
  keeps I (send_to_masters now rid category).
Proof. unfold send_to_masters, offer_to. repeat keeps_step; eauto. Qed.

Lemma keeps_req_submit (now uid : Z) (contact : option Z) (category : text) :
  keeps I (req_submit now uid contact category).
Proof.
  unfold req_submit.
  repeat first [ apply keeps_send_to_masters | apply keeps_main_menu_kb
               | keeps_step ]; eauto.
Qed.

Lemma keeps_admin_master_card (mid : option Z) :
  keeps I (admin_master_card mid).
Proof. unfold admin_master_card. repeat keeps_step. Qed.

Lemma keeps_mf_verify_no (uid : Z) (contact : option Z) (cats : option text) :
  keeps I (mf_verify_no uid contact cats).
Proof.
  unfold mf_verify_no.
  repeat first [ apply keeps_admin_master_card | apply keeps_main_menu_kb
               | keeps_step ]; eauto.
Qed.

Lemma keeps_mf_face_photo (contact : option Z) (cats : option text) :
  keeps I (mf_face_photo contact cats).
Proof.
  unfold mf_face_photo.
  repeat first [ apply keeps_admin_master_card | apply keeps_calc_skill_tier
               | keeps_step ]; eauto.
Qed.

Lemma keeps_mf_npd_doc (uid : Z) (mid : option Z) :
  keeps I (mf_npd_doc uid mid).
Proof.
  unfold mf_npd_doc.
  repeat first [ apply keeps_admin_master_card | apply keeps_main_menu_kb
               | keeps_step ]; eauto.
Qed.

Lemma keeps_payment_done (now uid : Z) (payload : Payload) :
  keeps I (payment_done now uid payload).
Proof. unfold payment_done. repeat keeps_step; eauto. Qed.

Lemma keeps_delete_profile (uid : Z) : keeps I (delete_profile uid).
Proof.
  unfold delete_profile.
  repeat first [ apply keeps_main_menu_kb | keeps_step ]; eauto.
Qed.

Lemma keeps_comp_text_review (rid : Z) (comment : text) :
  keeps I (comp_text_review rid comment).
Proof. unfold comp_text_review. repeat keeps_step; eauto. Qed.

(** All events but an action on an offer and a new request. *)
Lemma keeps_other_events (e : Event) :
  match e with
  | EvOffer _ _ _ _ _ | EvSubmit _ _ _ _ => True
  | _ => keeps I (handle e)
  end.
Proof.
  destruct e; cbn [handle]; trivial.
  - apply keeps_complete_order.
  - apply keeps_client_confirmation.
  - apply keeps_auto_complete.
  - apply keeps_process_rating.
  - apply keeps_comp_text_review.
  - apply keeps_payment_done.
  - apply keeps_delete_profile.
  - apply keeps_mf_verify_no.
  - apply keeps_mf_face_photo.
  - apply keeps_mf_npd_doc.
Qed.

End Frame.

(** ** The free-order balance *)

Lemma masters_ok_frame (s s' : Store) :
  masters s' = masters s -> master_seq s' = master_seq s ->
  masters_ok s -> masters_ok s'.
Proof. unfold masters_ok. intros -> ->. trivial. Qed.

Lemma masters_ok_map (g : Master -> Master) (c : Master -> bool) (s : Store) :
  (forall m, m_id (g m) = m_id m) ->
  (forall m, In m (masters s) -> c m = true ->
             nonneg (m_free_orders_left (g m))) ->
  masters_ok s ->
  masters_ok (set_masters (map (fun m => if c m then g m else m) (masters s)) s).
Proof.
  intros Hid Hfree (Hnd & Hseq & Hnn). unfold masters_ok.
  cbn [masters master_seq set_masters].
  rewrite Forall_forall in Hseq, Hnn.
  repeat split.
  - rewrite map_map.
    rewrite (map_ext (fun m => m_id (if c m then g m else m)) m_id); [exact Hnd|].
    intros m. destruct (c m); [apply Hid | reflexivity].
  - apply Forall_forall. intros m Hin. apply in_map_iff in Hin.
    destruct Hin as [m0 [<- Hin]].
    destruct (c m0); [rewrite Hid|]; apply Hseq, Hin.
  - apply Forall_forall. intros m Hin. apply in_map_iff in Hin.
    destruct Hin as [m0 [<- Hin]].
    destruct (c m0) eqn:Ec; [apply Hfree; assumption | apply Hnn, Hin].
Qed.

(** Deleting rows keeps the keys of a table distinct. *)
Lemma distinct_keys_filter (Row Key : Type) (rows : list Row)
      (keep : Row -> bool) (key : Row -> Key)
      (Hdistinct : NoDup (map key rows)) :
  NoDup (map key (filter keep rows)).
Proof.
  revert Hdistinct. induction rows as [|row rows IH]; cbn [map filter].
  - intros _. constructor.
  - intros Hd. apply NoDup_cons_iff in Hd. destruct Hd as [Hfresh Hrest].
    destruct (keep row); cbn [map]; [|exact (IH Hrest)].
    apply NoDup_cons; [|exact (IH Hrest)].
    contradict Hfresh. apply in_map_iff in Hfresh.
    destruct Hfresh as (other & Hkey & Hother).
    rewrite <- Hkey. apply in_map. apply filter_In in Hother. tauto.
Qed.

Lemma masters_ok_filter (p : Master -> bool) (s : Store) :
  masters_ok s -> masters_ok (set_masters (filter p (masters s)) s).
Proof.
  intros (Hnd & Hseq & Hnn). unfold masters_ok.
  cbn [masters master_seq set_masters].
  rewrite Forall_forall in Hseq, Hnn.
  repeat split.
  - apply distinct_keys_filter, Hnd.
  - apply Forall_forall. intros m Hin. apply filter_In in Hin.
    apply Hseq. tauto.
  - apply Forall_forall. intros m Hin. apply filter_In in Hin.
    apply Hnn. tauto.
Qed.

Lemma masters_ok_insert (contact : option Z) (level : Level)
      (cats : option text) (tier : Tier) (s s' : Store) (a : Z) :
  masters_ok s ->
  sql_insert_master contact level cats tier s = Some (a, s') ->
  masters_ok s'.
Proof.
  intros (Hnd & Hseq & Hnn) E. unfold sql_insert_master in E.
  inversion E; subst; clear E. unfold masters_ok.
  cbn [masters master_seq].
  rewrite Forall_forall in Hseq, Hnn.
  repeat split.
  - rewrite map_app. cbn [map m_id].
    apply NoDup_app; [exact Hnd | repeat constructor; simpl; tauto |].
    intros x Hx [<-|[]]. apply in_map_iff in Hx.
    destruct Hx as [m [E Hin]]. specialize (Hseq m Hin). lia.
  - apply Forall_forall. intros m Hin. apply in_app_iff in Hin.
    destruct Hin as [Hin|[<-|[]]]; [specialize (Hseq m Hin)|cbn [m_id]]; lia.
  - apply Forall_forall. intros m Hin. apply in_app_iff in Hin.
    destruct Hin as [Hin|[<-|[]]]; [apply Hnn, Hin|].
    cbn [m_free_orders_left nonneg]. unfold FREE_ORDERS_START. lia.
Qed.

Lemma hd_error_filter_In A (p : A -> bool) (l : list A) (x : A) :
  hd_error (filter p l) = Some x -> In x l /\ p x = true.
Proof.
  intros H. apply filter_In.
  destruct (filter p l) as [|y l']; [discriminate|].
  injection H as ->. left. reflexivity.
Qed.

Lemma NoDup_map_eq A B (f : A -> B) (l : list A) (x y : A) :
  NoDup (map f l) -> In x l -> In y l -> f x = f y -> x = y.
Proof.
  induction l as [|z l IH]; simpl; intros H Hx Hy E; [contradiction|].
  inversion H as [|? ? Hz Hl]; subst.
  destruct Hx as [->|Hx], Hy as [->|Hy]; auto.
  - exfalso. apply Hz. rewrite E. apply in_map, Hy.
  - exfalso. apply Hz. rewrite <- E. apply in_map, Hx.
Qed.

(** The debit keeps the balances non-negative when the row that was read
    has a free order left: the rowid selects that row only. *)
Lemma masters_ok_debit (master_id : Z) (m : Master) (s : Store) :
  masters_ok s ->
  hd_error (select_master (Some master_id) s) = Some m ->
  0 < or0 (m_free_orders_left m) ->
  masters_ok (sql_debit master_id s).
Proof.
  intros Hok Hm Hfree. unfold sql_debit.
  apply masters_ok_map; [reflexivity | | exact Hok].
  intros x Hx Ex. apply Z.eqb_eq in Ex.
  apply hd_error_filter_In in Hm. destruct Hm as [Hin Hid].
  cbn [sql_eq] in Hid. apply Z.eqb_eq in Hid.
  destruct Hok as (Hnd & _ & _).
  assert (x = m) by (eapply NoDup_map_eq; eauto; congruence).
  subst x. cbn [m_free_orders_left m_set_free_orders_left].
  destruct (m_free_orders_left m); cbn [option_map nonneg or0] in *; lia.
Qed.

Lemma keeps_pre A (m : M A) (P I : Store -> Prop) :
  keeps I m -> (forall s, P s -> I s) -> triple P m (fun _ => I).
Proof. intros H HP w Hw. apply (H w), HP, Hw. Qed.

Lemma keeps_take_notify (I : Store -> Prop) (req_id master_id : Z) :
  (forall s, I s -> I (sql_set_offer_status Taken req_id master_id s)) ->
  keeps I (take_notify req_id master_id).
Proof. intros H. unfold take_notify. repeat keeps_step; auto. Qed.

Lemma keeps_take_admitted (I : Store -> Prop) (req_id master_id : Z) :
  (forall s, I s -> I (sql_assign master_id req_id s)) ->
  (forall s, I s -> I (sql_set_offer_status Taken req_id master_id s)) ->
  keeps I (take_admitted req_id master_id).
Proof.
  intros H1 H2. unfold take_admitted.
  apply keeps_bind; [apply keeps_update, H1 | intros _].
  apply keeps_take_notify, H2.
Qed.

Lemma masters_ok_offer_actions (now uid : Z) (action : Action)
      (req_id master_id : Z) :
  keeps masters_ok (offer_actions now uid action req_id master_id).
Proof.
  assert (Hadm : keeps masters_ok (take_admitted req_id master_id)).
  { apply keeps_take_admitted; intros s; apply masters_ok_frame; reflexivity. }
  unfold offer_actions.
  apply keeps_bind; [apply keeps_check_limit | intros admitted].
  destruct admitted; cbn [negb]; [|apply keeps_api].
  apply keeps_bind; [apply keeps_fetch_one | intros [row|]];
    [|apply keeps_api].
  destruct action.
  - apply keeps_bind; [apply keeps_fetch_one | intros cur].
    destruct (match cur with Some _ => _ | None => _ end); [apply keeps_api|].
    destruct (negb _); [apply keeps_api|].
    apply triple_fetch_bind; [apply keeps_api | intros s0].
    destruct (hd_error (select_master (Some master_id) s0)) as [m|] eqn:Em;
      [|apply keeps_pre; [apply keeps_api | tauto]].
    destruct (is_active now (m_sub_until m));
      [apply keeps_pre; [exact Hadm | tauto]|].
    destruct (0 <? or0 (m_free_orders_left m)) eqn:Efree.
    + eapply triple_bind with (Q := fun _ => masters_ok);
        [| intros _; exact Hadm | auto].
      apply triple_execute; [tauto|].
      intros s a s' [Hok ->] E. unfold update in E.
      injection E as _ <-.
      apply Z.ltb_lt in Efree. eapply masters_ok_debit; eauto.
    + apply keeps_pre; [|tauto].
      apply keeps_bind; [apply keeps_api | intros _; apply keeps_api].
  - apply keeps_bind; [|intros _; apply keeps_api].
    apply keeps_update. intros s. apply masters_ok_frame; reflexivity.
  - apply keeps_ret.
Qed.

Ltac masters_ok_statement :=
  first
    [ intros; eapply masters_ok_frame; [| |eassumption]; reflexivity
    | intros; unfold sql_update_stats, sql_count_order, sql_deactivate,
              sql_set_level, sql_grant;
      apply masters_ok_map; [reflexivity | | assumption];
      intros m Hin _;
      match goal with
      | H : masters_ok _ |- _ =>
          destruct H as (_ & _ & Hnn); rewrite Forall_forall in Hnn;
          apply (Hnn m Hin)
      end ].

Lemma masters_ok_req_submit (now uid : Z) (contact : option Z)
      (category : text) :
  keeps masters_ok (req_submit now uid contact category).
Proof.
  apply keeps_req_submit; try masters_ok_statement.
  - intros rid mid s a s' Hok E. unfold sql_insert_offer in E.
    injection E as _ <-. revert Hok. apply masters_ok_frame; reflexivity.
  - intros contact' cat uid' now' s a s' Hok E. unfold sql_insert_request in E.
    injection E as _ <-. revert Hok. apply masters_ok_frame; reflexivity.
Qed.

Lemma masters_ok_other_events (e : Event) :
  match e with
  | EvOffer _ _ _ _ _ | EvSubmit _ _ _ _ => True
  | _ => keeps masters_ok (handle e)
  end.
Proof.
  apply keeps_other_events;
    try (intros; eapply masters_ok_frame; [| |eassumption]; reflexivity);
    try (intros; unfold sql_update_stats, sql_count_order, sql_deactivate,
                 sql_set_level, sql_grant;
         apply masters_ok_map; [reflexivity | | assumption];
         intros m Hin _;
         match goal with
         | H : masters_ok _ |- _ =>
             destruct H as (_ & _ & Hnn); rewrite Forall_forall in Hnn;
             apply (Hnn m Hin)
         end).
  - intros rid mid cid rating s a s' Hok E. unfold sql_insert_review in E.
    destruct mid; [|discriminate].
    destruct ((1 <=? rating) && (rating <=? 5)); [|discriminate].
    injection E as _ <-. revert Hok. apply masters_ok_frame; reflexivity.
  - intros contact level cats tier s a s' Hok E.
    eapply masters_ok_insert; eassumption.
  - intros uid s Hok. apply masters_ok_filter, Hok.
Qed.

(** Every event keeps the masters table well formed, whatever fails. *)
Lemma masters_ok_step (e : Event) : keeps masters_ok (handle e).
Proof.
  pose proof (masters_ok_other_events e) as H.
  destruct e; try exact H.
  - apply masters_ok_offer_actions.
  - apply masters_ok_req_submit.
Qed.

Lemma ok_for_now (n : nat) (w : World) : ok_for (S n) w -> fault_now w = false.
Proof.
  unfold ok_for, fault_now. destruct (faults w) as [|b fs]; [reflexivity|].
  cbn [firstn]. intros H. inversion H; subst. reflexivity.
Qed.

Lemma ok_for_tick (n : nat) (w : World) : ok_for (S n) w -> ok_for n (tick w).
Proof.
  unfold ok_for. cbn [faults tick set_faults].
  destruct (faults w) as [|b fs]; cbn [firstn tl].
  - intros _. destruct n; constructor.
  - intros H. inversion H; assumption.
Qed.

Lemma no_faults_ok_for (n : nat) (w : World) : no_faults w -> ok_for n w.
Proof.
  unfold no_faults, ok_for. revert n.
  induction (faults w) as [|b fs IH]; intros n H.
  - destruct n; constructor.
  - destruct n; [constructor|]. inversion H; subst.
    cbn [firstn]. constructor; auto.
Qed.

Lemma fetch_one_ok_for A (q : Store -> list A) (n : nat) (w : World) :
  ok_for (S n) w -> fetch_one q w = (Ok (hd_error (q (store w))), tick w).
Proof.
  intros H. rewrite fetch_one_eq, (ok_for_now H). reflexivity.
Qed.

Lemma ok_for_limiter (n : nat) (l : Limiter) (w : World) :
  ok_for n w -> ok_for n (set_user_requests l w).
Proof. exact (fun H => H). Qed.

(** A take by the owner of the offer on a 'new' request, admitted by the
    limiter and with its three lookups answered, reaches the entitlement
    check of the master row [m]. *)
Lemma take_reaches_entitlement (now uid req_id master_id : Z) (w : World)
      (r : Request) (cm m : Master) :
  ok_for 3 w ->
  admits now uid w ->
  hd_error (select_request req_id (store w)) = Some r ->
  r_status r = New ->
  hd_error (select_master_by_contact uid (store w)) = Some cm ->
  m_id cm = master_id ->
  hd_error (select_master (Some master_id) (store w)) = Some m ->
  offer_actions now uid Take req_id master_id w =
  (if is_active now (m_sub_until m) then take_admitted req_id master_id
   else if 0 <? or0 (m_free_orders_left m) then
          execute (update (sql_debit master_id)) ;;;
          take_admitted req_id master_id
        else api MsgUpsell ;;; api MsgAnswer)
    (tick (tick (tick
       (set_user_requests
          (limiter_set (user_requests w) uid "offer_actions"
             (filter (fun req_time => now - req_time <? 3600)
                     (user_requests w uid "offer_actions"%string) ++ [now]))
          w)))).
Proof.
  intros Hok Hadm Hr Hst Hcm Hid Hm.
  unfold offer_actions.
  erewrite run_bind by (apply check_limit_admits; exact Hadm).
  cbn [negb].
  erewrite run_bind
    by (eapply fetch_one_ok_for, ok_for_limiter; exact Hok).
  wsimpl. rewrite Hr.
  erewrite run_bind
    by (eapply fetch_one_ok_for, ok_for_tick, ok_for_limiter; exact Hok).
  wsimpl. rewrite Hcm, Hid, Z.eqb_refl, Hst. cbn [negb status_eqb].
  erewrite run_bind
    by (eapply fetch_one_ok_for, ok_for_tick, ok_for_tick, ok_for_limiter;
        exact Hok).
  wsimpl. rewrite Hm. reflexivity.
Qed.

Lemma masters_ok_run (es : list Event) (w : World) :
  masters_ok (store w) -> masters_ok (store (run w es)).
Proof.
  revert w. induction es as [|e es IH]; intros w H; [exact H|].
  cbn [run fold_left]. apply IH. apply (masters_ok_step e w H).
Qed.

Lemma hd_error_filter_map A (p : A -> bool) (g : A -> A) (l : list A) :
  (forall x, p (g x) = p x) ->
  hd_error (filter p (map g l)) = option_map g (hd_error (filter p l)).
Proof.
  intros H. induction l as [|x l IH]; [reflexivity|].
  cbn [map filter]. rewrite H. destruct (p x); [reflexivity | exact IH].
Qed.

Lemma take_notify_tables (req_id master_id : Z) (w : World) :
  masters (store (exec (take_notify req_id master_id) w)) = masters (store w)
  /\ requests (store (exec (take_notify req_id master_id) w))
     = requests (store w).
Proof.
  apply (@keeps_take_notify
           (fun s => masters s = masters (store w)
                     /\ requests s = requests (store w))
           req_id master_id); [|split; reflexivity].
  intros s H. exact H.
Qed.

(** C2.  (1) From a well-formed masters table no sequence of events, with
    whatever faults, makes a free-order balance negative.  (2) A take by
    the owner of the offer on a 'new' request, admitted by the limiter and
    without persistence faults, by a master without active subscription
    and with [f > 0] free orders assigns the request to the master and
    leaves the master with [f - 1].  (3) With no active subscription and a
    balance of 0 the same take changes nothing in the database and sends
    the upsell prompt (followed by the empty answer when the prompt got
    through). *)
Theorem free_orders_ledger :
  (forall (w : World) (es : list Event),
      masters_ok (store w) ->
      forall m, In m (masters (store (run w es))) ->
                nonneg (m_free_orders_left m))
  /\ (forall (now uid req_id master_id : Z) (w : World) (r : Request)
             (cm m : Master) (f : Z),
         no_faults w ->
         admits now uid w ->
         hd_error (select_request req_id (store w)) = Some r ->
         r_status r = New ->
         hd_error (select_master_by_contact uid (store w)) = Some cm ->
         m_id cm = master_id ->
         hd_error (select_master (Some master_id) (store w)) = Some m ->
         is_active now (m_sub_until m) = false ->
         m_free_orders_left m = Some f ->
         0 < f ->
         let w' := exec (offer_actions now uid Take req_id master_id) w in
         hd_error (select_request req_id (store w'))
         = Some (r_set_master_id (Some master_id) (r_set_status Assigned r))
         /\ hd_error (select_master (Some master_id) (store w'))
            = Some (m_set_free_orders_left (Some (f - 1)) m))
  /\ (forall (now uid req_id master_id : Z) (w : World) (r : Request)
             (cm m : Master),
         no_faults w ->
         admits now uid w ->
         hd_error (select_request req_id (store w)) = Some r ->
         r_status r = New ->
         hd_error (select_master_by_contact uid (store w)) = Some cm ->
         m_id cm = master_id ->
         hd_error (select_master (Some master_id) (store w)) = Some m ->
         is_active now (m_sub_until m) = false ->
         m_free_orders_left m = Some 0 ->
         let w' := exec (offer_actions now uid Take req_id master_id) w in
         store w' = store w
         /\ (out w' = MsgUpsell :: out w
             \/ out w' = MsgAnswer :: MsgUpsell :: out w)).
Proof.
  split; [|split].
  - intros w es Hok m Hin.
    destruct (masters_ok_run es w Hok) as (_ & _ & Hnn).
    rewrite Forall_forall in Hnn. apply Hnn, Hin.
  - intros now uid req_id master_id w r cm m f
           Hnf Hadm Hr Hst Hcm Hid Hm Hact Hf Hpos w'.
    unfold w', exec.
    erewrite take_reaches_entitlement
      by (try apply no_faults_ok_for; eassumption).
    rewrite Hact, Hf. cbn [or0].
    replace (0 <? f) with true by (symmetry; apply Z.ltb_lt; exact Hpos).
    erewrite run_bind by (apply execute_update_ok; nf).
    unfold take_admitted.
    erewrite run_bind by (apply execute_update_ok; nf).
    match goal with
    | |- context [snd (take_notify ?a ?b ?w0)] =>
        destruct (take_notify_tables a b w0) as [HM HR];
        unfold exec in HM, HR
    end.
    unfold select_request, select_master in *.
    rewrite HM, HR. wsimpl.
    cbn [requests masters sql_assign sql_debit set_requests set_masters].
    split.
    + rewrite hd_error_filter_map.
      * rewrite Hr. cbn [option_map].
        apply hd_error_filter_In in Hr. destruct Hr as [_ ->]. reflexivity.
      * intros x. destruct (r_id x =? req_id) eqn:E;
          cbn [r_id r_set_master_id r_set_status]; rewrite ?E; reflexivity.
    + rewrite hd_error_filter_map.
      * rewrite Hm. cbn [option_map].
        apply hd_error_filter_In in Hm. destruct Hm as [_ Hm].
        cbn [sql_eq] in Hm. rewrite Hm, Hf. reflexivity.
      * intros x. destruct (m_id x =? master_id) eqn:E;
          cbn [m_id m_set_free_orders_left sql_eq]; rewrite ?E; reflexivity.
  - intros now uid req_id master_id w r cm m
           Hnf Hadm Hr Hst Hcm Hid Hm Hact Hf w'.
    unfold w', exec.
    erewrite take_reaches_entitlement
      by (try apply no_faults_ok_for; eassumption).
    rewrite Hact, Hf. cbn [or0 Z.ltb Z.compare].
    unfold bind. rewrite api_eq.
    destruct (api_result _); [rewrite api_eq|]; cbn [snd]; wsimpl;
      split; auto.
Qed.

Lemma free_orders_ledger_witness :
  (forall m,
      In m (masters (store (run (calm (sample_store New None 1))
                                [EvOffer 100 10 Take 1 1;
                                 EvOffer 101 10 Take 1 1]))) ->
      nonneg (m_free_orders_left m))
  /\ (let w' := exec (offer_actions 100 10 Take 1 1)
                     (calm (sample_store New None 3)) in
      hd_error (select_request 1 (store w'))
      = Some (r_set_master_id (Some 1)
                (r_set_status Assigned (sample_request 1 New None)))
      /\ hd_error (select_master (Some 1) (store w'))
         = Some (m_set_free_orders_left (Some (3 - 1))
                   (sample_master 1 10 Null 3 19 Novice)))
  /\ (let w' := exec (offer_actions 100 10 Take 1 1)
                     (calm (sample_store New None 0)) in
      store w' = store (calm (sample_store New None 0))
      /\ (out w' = MsgUpsell :: out (calm (sample_store New None 0))
          \/ out w' = MsgAnswer :: MsgUpsell
                        :: out (calm (sample_store New None 0)))).
Proof.
  split; [|split].
  - apply (proj1 free_orders_ledger).
    unfold masters_ok. cbn.
    repeat split; repeat constructor; cbn; try lia; intuition discriminate.
  - apply (proj1 (proj2 free_orders_ledger) 100 10 1 1
                 (calm (sample_store New None 3))
                 (sample_request 1 New None)
                 (sample_master 1 10 Null 3 19 Novice)
                 (sample_master 1 10 Null 3 19 Novice) 3);
      try reflexivity; try lia; try constructor.
  - apply (proj2 (proj2 free_orders_ledger) 100 10 1 1
                 (calm (sample_store New None 0))
                 (sample_request 1 New None)
                 (sample_master 1 10 Null 0 19 Novice)
                 (sample_master 1 10 Null 0 19 Novice));
      try reflexivity; try constructor.
Defined.

(** ** Properties of the world that every handler keeps *)

Section Steady.

Variable J : World -> Prop.
Hypothesis HJ : steady J.

Lemma wkeeps_ret A (a : A) : wkeeps J (ret a).
Proof. intros w H. exact H. Qed.

Lemma wkeeps_raise A (e : Exn) : wkeeps J (@raise A e).
Proof. intros w H. exact H. Qed.

Lemma wkeeps_bind A B (m : M A) (k : A -> M B) :
  wkeeps J m -> (forall a, wkeeps J (k a)) -> wkeeps J (bind m k).
Proof.
  intros Hm Hk w H. specialize (Hm w H). unfold exec, bind in *.
  destruct (m w) as [[a|e] w1]; cbn [snd] in *; [apply (Hk a w1 Hm) | exact Hm].
Qed.

Lemma wkeeps_try A (body : M A) (handler : Exn -> M A) :
  wkeeps J body -> (forall e, wkeeps J (handler e)) ->
  wkeeps J (try_except body handler).
Proof.
  intros Hb Hh w H. specialize (Hb w H). unfold exec, try_except in *.
  destruct (body w) as [[a|e] w1]; cbn [snd] in *; [exact Hb | apply (Hh e w1 Hb)].
Qed.

Lemma wkeeps_execute A (stmt : Store -> option (A * Store)) :
  wkeeps J (execute stmt).
Proof.
  destruct HJ as (Ht & Hs & _ & _).
  intros w H. unfold exec. rewrite execute_eq.
  destruct (fault_now w); [apply Ht, H|].
  destruct (stmt (store w)) as [[a s']|]; cbn [snd]; auto.
Qed.

Lemma wkeeps_fetch_one A (q : Store -> list A) : wkeeps J (fetch_one q).
Proof.
  destruct HJ as (Ht & _). intros w H. unfold exec.
  rewrite fetch_one_eq. apply Ht, H.
Qed.

Lemma wkeeps_fetch_all A (q : Store -> list A) : wkeeps J (fetch_all q).
Proof.
  destruct HJ as (Ht & _). intros w H. unfold exec.
  rewrite fetch_all_eq. apply Ht, H.
Qed.

Lemma wkeeps_api (msg : Msg) : wkeeps J (api msg).
Proof.
  destruct HJ as (_ & _ & Hm & _). intros w H. unfold exec.
  rewrite api_eq. apply Hm, H.
Qed.

Lemma wkeeps_notify_admin : wkeeps J notify_admin.
Proof.
  intros w H. unfold exec, notify_admin.
  destruct (ADMIN_CHAT_ID w =? 0); [exact H|].
  change (J (exec (try_except (api MsgAdmin) (fun _ => ret tt)) w)).
  apply wkeeps_try; [apply wkeeps_api | intros; apply wkeeps_ret | exact H].
Qed.

Lemma wkeeps_check_limit (now uid : Z) (action : string) (limit period : Z) :
  wkeeps J (check_limit now uid action limit period).
Proof.
  destruct HJ as (_ & _ & _ & Hl). intros w H. unfold exec, check_limit.
  destruct (limit <=? _); apply Hl, H.
Qed.

Lemma wkeeps_for_each A (l : list A) (body : A -> M unit) :
  (forall x, wkeeps J (body x)) -> wkeeps J (for_each l body).
Proof.
  intros H. induction l as [|x l IH]; cbn [for_each].
  - apply wkeeps_ret.
  - apply wkeeps_bind; auto.
Qed.

Ltac wkeeps_step :=
  match goal with
  | |- wkeeps _ (bind _ _) => apply wkeeps_bind; [|intros]
  | |- wkeeps _ (try_except _ _) => apply wkeeps_try; [|intros]
  | |- wkeeps _ (ret _) => apply wkeeps_ret
  | |- wkeeps _ commit => apply wkeeps_ret
  | |- wkeeps _ (raise _) => apply wkeeps_raise
  | |- wkeeps _ (api _) => apply wkeeps_api
  | |- wkeeps _ (fetch_one _) => apply wkeeps_fetch_one
  | |- wkeeps _ (fetch_all _) => apply wkeeps_fetch_all
  | |- wkeeps _ notify_admin => apply wkeeps_notify_admin
  | |- wkeeps _ (check_limit _ _ _ _ _) => apply wkeeps_check_limit
  | |- wkeeps _ (for_each _ _) => apply wkeeps_for_each; intros
  | |- wkeeps _ (execute _) => apply wkeeps_execute
  | |- wkeeps _ (match ?x with _ => _ end) => destruct x
  | |- wkeeps _ (if ?x then _ else _) => destruct x
  end.

Lemma wkeeps_take_notify (req_id master_id : Z) :
  wkeeps J (take_notify req_id master_id).
Proof. unfold take_notify. repeat wkeeps_step. Qed.


Lemma wkeeps_mark_request_completed (now rid : Z) :
  wkeeps J (mark_request_completed now rid).
Proof.
  unfold mark_request_completed, request_review, calc_skill_tier.
  repeat wkeeps_step.
Qed.

Lemma wkeeps_send_to_masters (now : Z) (rid : option Z) (category : text) :
  wkeeps J (send_to_masters now rid category).
Proof. unfold send_to_masters, offer_to. repeat wkeeps_step. Qed.

(** Every handler keeps a steady property. *)
Lemma wkeeps_handle (e : Event) : wkeeps J (handle e).
Proof.
  destruct e; cbn [handle];
    unfold offer_actions, take_admitted, req_submit, complete_order,
      client_confirmation, auto_complete, process_rating,
      update_master_stats, comp_text_review, payment_done, delete_profile,
      mf_verify_no, mf_face_photo, mf_npd_doc, main_menu_kb,
      admin_master_card, calc_skill_tier;
    repeat first [ apply wkeeps_take_notify
                 | apply wkeeps_mark_request_completed
                 | apply wkeeps_send_to_masters
                 | wkeeps_step ].
Qed.

End Steady.

Lemma steady_no_faults : steady no_faults.
Proof.
  repeat split; intros; try assumption. apply no_faults_tick; assumption.
Qed.


Lemma no_faults_step (w : World) (e : Event) :
  no_faults w -> no_faults (step w e).
Proof. apply (wkeeps_handle steady_no_faults). Qed.

(** ** Persistence faults while a claim is accepted *)







(** ** Matching a request with masters *)



Lemma cyrillic_range (c : N) :
  is_cyrillic c = true <-> (1040 <= c <= 1103)%N.
Proof.
  unfold is_cyrillic. rewrite andb_true_iff, !N.leb_le. reflexivity.
Qed.










(** A normalised name consists of lower-case Cyrillic letters. *)
Lemma norm_lower_case (s : text) :
  Forall (fun c => (1072 <= c <= 1103)%N) (norm s).
Proof.
  unfold norm. apply Forall_forall. intros c H.
  apply in_map_iff in H. destruct H as (d & <- & Hd).
  apply filter_In in Hd. destruct Hd as [_ Hd].
  apply cyrillic_range in Hd. unfold lower_char.
  destruct ((1040 <=? d) && (d <=? 1071))%N eqn:E.
  - apply andb_true_iff in E. rewrite !N.leb_le in E. lia.
  - apply andb_false_iff in E. rewrite !N.leb_gt in E. lia.
Qed.



(** ** Ranking the matching masters *)







Section SortedFacts.

Variables (A : Type) (key : A -> Z * Z * Z).


Lemma insert_perm (x : A) (l : list A) : Permutation (insert key x l) (x :: l).
Proof.
  induction l as [|y l IH]; cbn [insert]; [apply Permutation_refl|].
  destruct (key_leb (key x) (key y)); [apply Permutation_refl|].
  apply Permutation_trans with (y :: x :: l);
    [apply perm_skip, IH | apply perm_swap].
Qed.

Lemma sorted_perm (l : list A) : Permutation (sorted key l) l.
Proof.
  induction l as [|x l IH]; cbn [sorted]; [apply Permutation_refl|].
  apply Permutation_trans with (x :: sorted key l);
    [apply insert_perm | apply perm_skip, IH].
Qed.






End SortedFacts.

(** ** The offers of a broadcast *)








(** ** One winner per request *)

Lemma offers_ok_frame (s s' : Store) :
  requests s' = requests s -> offers s' = offers s ->
  request_seq s' = request_seq s ->
  offers_ok s -> offers_ok s'.
Proof. unfold offers_ok. intros -> -> ->. trivial. Qed.

(** An UPDATE of requests that keeps rowid and master and never sets the
    status back to 'new'. *)
Lemma offers_ok_requests_map (g : Request -> Request) (c : Request -> bool)
      (s : Store) :
  (forall r, r_id (g r) = r_id r) ->
  (forall r, r_master_id (g r) = r_master_id r) ->
  (forall r, r_status (g r) = r_status r \/ r_status (g r) <> New) ->
  offers_ok s ->
  offers_ok (set_requests (map (fun r => if c r then g r else r) (requests s)) s).
Proof.
  intros Hid Hmaster Hstatus (Ha & Hb & Hd & He & Hf). unfold offers_ok.
  cbn [requests offers request_seq set_requests].
  split; [|split; [exact Hb|split; [exact Hd|split; [|exact Hf]]]].
  - rewrite Forall_forall in *. intros r' Hin. apply in_map_iff in Hin.
    destruct Hin as (r & <- & Hin).
    destruct (c r); [rewrite Hid|]; apply Ha, Hin.
  - intros o r' Ho Hin Htaken Hreq. apply in_map_iff in Hin.
    destruct Hin as (r & <- & Hin).
    destruct (c r); [|apply (He o r); assumption].
    rewrite Hid in Hreq. destruct (He o r Ho Hin Htaken Hreq) as [Hs Hm].
    rewrite Hmaster. split; [|exact Hm].
    destruct (Hstatus r) as [->|H]; assumption.
Qed.

Lemma offers_ok_requests_filter (keep : Request -> bool) (s : Store) :
  offers_ok s -> offers_ok (set_requests (filter keep (requests s)) s).
Proof.
  intros (Ha & Hb & Hd & He & Hf). unfold offers_ok.
  cbn [requests offers request_seq set_requests].
  split; [|split; [exact Hb|split; [exact Hd|split; [|exact Hf]]]].
  - rewrite Forall_forall in *. intros r Hin. apply filter_In in Hin.
    apply Ha. tauto.
  - intros o r Ho Hin. apply filter_In in Hin. apply He; tauto.
Qed.

Lemma offers_ok_insert_request (contact : option Z) (cat : text)
      (uid now : Z) (s s' : Store) (a : Z) :
  offers_ok s ->
  sql_insert_request contact cat uid now s = Some (a, s') ->
  offers_ok s'.
Proof.
  intros (Ha & Hb & Hd & He & Hf) E. unfold sql_insert_request in E.
  injection E as _ <-. unfold offers_ok.
  cbn [requests offers request_seq].
  rewrite Forall_forall in *.
  split; [|split; [|split; [exact Hd|split; [|exact Hf]]]].
  - intros r Hin. apply in_app_iff in Hin.
    destruct Hin as [Hin|[<-|[]]]; [specialize (Ha r Hin)|cbn [r_id]]; lia.
  - apply Forall_forall. intros o Hin k Hk. specialize (Hb o Hin k Hk). lia.
  - intros o r Ho Hin Htaken Hreq. apply in_app_iff in Hin.
    destruct Hin as [Hin|[<-|[]]]; [apply He; assumption|].
    cbn [r_id] in Hreq. specialize (Hb o Ho _ Hreq). lia.
Qed.

Lemma offer_keys_map (h : Offer -> Offer) (l : list Offer) :
  (forall o, o_request_id (h o) = o_request_id o) ->
  (forall o, o_master_id (h o) = o_master_id o) ->
  offer_keys (map h l) = offer_keys l.
Proof.
  intros H1 H2. unfold offer_keys. induction l as [|o l IH]; [reflexivity|].
  cbn [map flat_map]. rewrite H1, H2, IH. reflexivity.
Qed.

Lemma set_status_keys (st : OfferStatus) (rid mid : Z) (l : list Offer) :
  offer_keys
    (map (fun o => if sql_eq (o_request_id o) (Some rid)
                      && (o_master_id o =? mid)
                   then o_set_status st o else o) l)
  = offer_keys l.
Proof.
  apply offer_keys_map; intros o; destruct (_ && _); reflexivity.
Qed.

Lemma offers_ok_skip (rid mid : Z) (s : Store) :
  offers_ok s -> offers_ok (sql_set_offer_status Skipped rid mid s).
Proof.
  intros (Ha & Hb & Hd & He & Hf). unfold offers_ok, sql_set_offer_status.
  cbn [requests offers request_seq set_offers].
  rewrite set_status_keys.
  assert (Hold : forall o',
             In o' (map (fun o => if sql_eq (o_request_id o) (Some rid)
                                     && (o_master_id o =? mid)
                                  then o_set_status Skipped o else o)
                        (offers s)) ->
             o_status o' = Taken -> In o' (offers s)).
  { intros o' Hin Htaken. apply in_map_iff in Hin.
    destruct Hin as (o & <- & Hin).
    destruct (_ && _); [discriminate Htaken | exact Hin]. }
  split; [exact Ha|]. split; [|split; [exact Hd|split]].
  - rewrite Forall_forall in *. intros o' Hin. apply in_map_iff in Hin.
    destruct Hin as (o & <- & Hin).
    destruct (_ && _); [cbn [o_request_id o_set_status]|]; apply Hb, Hin.
  - intros o r Ho Hr Htaken. apply He; auto.
  - intros o1 o2 k H1 H2 T1 T2. apply Hf; auto.
Qed.

Lemma bound_after_assign (rid mid : Z) (row : Request) (s : Store) :
  offers_ok s -> In row (requests s) -> r_id row = rid -> r_status row = New ->
  bound_to rid mid (sql_assign mid rid s).
Proof.
  intros (Ha & Hb & Hd & He & Hf) Hrow Hid Hnew.
  assert (Hnone : forall o, In o (offers s) -> o_status o = Taken ->
                            o_request_id o <> Some rid).
  { intros o Ho Htaken Hreq. rewrite <- Hid in Hreq.
    destruct (He o row Ho Hrow Htaken Hreq) as [H _]. contradiction. }
  unfold bound_to, offers_ok, sql_assign.
  cbn [requests offers request_seq set_requests].
  split; [split; [|split; [exact Hb|split; [exact Hd|split; [|exact Hf]]]]|split].
  - rewrite Forall_forall in *. intros r' Hin. apply in_map_iff in Hin.
    destruct Hin as (r & <- & Hin).
    destruct (r_id r =? rid); [cbn [r_id r_set_master_id r_set_status]|];
      apply Ha, Hin.
  - intros o r' Ho Hin Htaken Hreq. apply in_map_iff in Hin.
    destruct Hin as (r & <- & Hin).
    destruct (r_id r =? rid) eqn:E; [|apply (He o r); assumption].
    apply Z.eqb_eq in E. cbn [r_id r_set_master_id r_set_status] in Hreq.
    rewrite E in Hreq. contradiction (Hnone o Ho Htaken Hreq).
  - intros r' Hin Hr'. apply in_map_iff in Hin.
    destruct Hin as (r & <- & Hin).
    destruct (r_id r =? rid) eqn:E.
    + cbn [r_status r_master_id r_set_master_id r_set_status].
      split; [discriminate | reflexivity].
    + apply Z.eqb_neq in E. contradiction.
  - intros o Ho Htaken Hreq. contradiction (Hnone o Ho Htaken Hreq).
Qed.

(** What the UPDATE of [sql_set_offer_status] makes of a row. *)
Lemma set_status_row (st : OfferStatus) (rid mid : Z) (l : list Offer)
      (o' : Offer) :
  In o' (map (fun o => if sql_eq (o_request_id o) (Some rid)
                          && (o_master_id o =? mid)
                       then o_set_status st o else o) l) ->
  exists o,
    In o l
    /\ o_request_id o' = o_request_id o
    /\ o_master_id o' = o_master_id o
    /\ (o' = o
        \/ (o_request_id o = Some rid /\ o_master_id o = mid
            /\ o_status o' = st)).
Proof.
  intros Hin. apply in_map_iff in Hin. destruct Hin as (o & <- & Hin).
  exists o. split; [exact Hin|].
  destruct (sql_eq _ _ && _) eqn:E; [|repeat split; auto].
  cbn [o_request_id o_master_id o_status o_set_status].
  split; [reflexivity|]. split; [reflexivity|]. right.
  apply andb_true_iff in E. destruct E as [E1 E2].
  apply Z.eqb_eq in E2.
  destruct (o_request_id o) as [k|]; [|discriminate].
  cbn [sql_eq] in E1. apply Z.eqb_eq in E1. subst k. auto.
Qed.

Lemma bound_taken (rid mid : Z) (s : Store) :
  bound_to rid mid s ->
  bound_to rid mid (sql_set_offer_status Taken rid mid s).
Proof.
  intros ((Ha & Hb & Hd & He & Hf) & Hreq & Hoff).
  unfold bound_to, offers_ok, sql_set_offer_status.
  cbn [requests offers request_seq set_offers].
  rewrite set_status_keys.
  assert (Hmid : forall o', In o' (map (fun o =>
                     if sql_eq (o_request_id o) (Some rid)
                        && (o_master_id o =? mid)
                     then o_set_status Taken o else o) (offers s)) ->
                   o_status o' = Taken -> o_request_id o' = Some rid ->
                   o_master_id o' = mid).
  { intros o' Hin Htaken Hrid. apply set_status_row in Hin.
    destruct Hin as (o & Hin & E1 & E2 & [->|(_ & H & _)]).
    - apply Hoff; assumption.
    - rewrite E2. exact H. }
  split; [split; [exact Ha|split; [|split; [exact Hd|split]]]|split].
  - rewrite Forall_forall in *. intros o' Hin k Hk.
    apply set_status_row in Hin.
    destruct Hin as (o & Hin & E1 & _). rewrite E1 in Hk.
    apply (Hb o Hin k Hk).
  - intros o' r Hin Hr Htaken Hk.
    pose proof (Hmid o' Hin Htaken) as Hm.
    apply set_status_row in Hin.
    destruct Hin as (o & Hin & E1 & E2 & [->|(H1 & H2 & _)]).
    + apply He; assumption.
    + rewrite E1, H1 in Hk. injection Hk as Hk.
      rewrite E2, H2. apply Hreq; auto.
  - intros o1 o2 k H1 H2 T1 T2 K1 K2.
    pose proof (Hmid o1 H1 T1) as M1. pose proof (Hmid o2 H2 T2) as M2.
    apply set_status_row in H1, H2.
    destruct H1 as (p1 & Hp1 & E1 & F1 & [->|(R1 & _ & _)]);
      destruct H2 as (p2 & Hp2 & E2 & F2 & [->|(R2 & _ & _)]).
    + apply (Hf p1 p2 k); assumption.
    + assert (k = rid) by congruence. subst k.
      rewrite (M1 K1), (M2 K2). reflexivity.
    + assert (k = rid) by congruence. subst k.
      rewrite (M1 K1), (M2 K2). reflexivity.
    + assert (k = rid) by congruence. subst k.
      rewrite (M1 K1), (M2 K2). reflexivity.
  - exact Hreq.
  - exact Hmid.
Qed.

Ltac offers_ok_statement :=
  first
    [ intros; eapply offers_ok_frame; [| | |eassumption]; reflexivity
    | intros; unfold sql_set_review_requested, sql_set_completed,
              sql_set_status;
      apply offers_ok_requests_map;
      [ reflexivity | reflexivity
      | intros r; cbn [r_status r_set_status r_set_review_requested
                         r_set_completed_at];
        first [ left; reflexivity | right; discriminate | right; assumption ]
      | assumption ] ].

Lemma offers_ok_other_events (e : Event) :
  match e with
  | EvOffer _ _ _ _ _ | EvSubmit _ _ _ _ => True
  | _ => keeps offers_ok (handle e)
  end.
Proof.
  apply keeps_other_events; try offers_ok_statement.
  - intros rid mid cid rating s a s' Hok E. unfold sql_insert_review in E.
    destruct mid; [|discriminate].
    destruct ((1 <=? rating) && (rating <=? 5)); [|discriminate].
    injection E as _ <-. revert Hok. apply offers_ok_frame; reflexivity.
  - intros contact level cats tier s a s' Hok E.
    unfold sql_insert_master in E. injection E as _ <-. revert Hok.
    apply offers_ok_frame; reflexivity.
  - intros uid s Hok. apply offers_ok_requests_filter, Hok.
Qed.

(** *** The offers of a new request *)

Lemma offer_keys_in (k m : Z) (l : list Offer) :
  In (k, m) (offer_keys l) <->
  exists o, In o l /\ o_request_id o = Some k /\ o_master_id o = m.
Proof.
  unfold offer_keys. rewrite in_flat_map. split.
  - intros (o & Hin & H). exists o. split; [exact Hin|].
    destruct (o_request_id o) as [k'|]; [|contradiction].
    destruct H as [E|[]]. injection E as -> ->. auto.
  - intros (o & Hin & Hk & Hm). exists o. split; [exact Hin|].
    rewrite Hk, Hm. left. reflexivity.
Qed.

Lemma offer_keys_app (l l' : list Offer) :
  offer_keys (l ++ l') = offer_keys l ++ offer_keys l'.
Proof. unfold offer_keys. apply flat_map_app. Qed.

Lemma top_distinct (Row Key : Type) (key : Row -> Key) (n : nat)
      (ranked : list Row) :
  NoDup (map key ranked) -> NoDup (map key (firstn n ranked)).
Proof.
  intros H. rewrite <- (firstn_skipn n ranked), map_app in H.
  apply NoDup_app_remove_r in H. exact H.
Qed.

Lemma picked_distinct (now : Z) (category : text) (rows : list Master) :
  NoDup (map m_id rows) ->
  NoDup (map m_id (pick_masters now category rows)).
Proof.
  intros H. unfold pick_masters. apply top_distinct.
  eapply Permutation_NoDup.
  - apply Permutation_map, Permutation_sym, sorted_perm.
  - apply distinct_keys_filter, H.
Qed.

Lemma broadcasting_frame (rid : option Z) (todo : list Master) (s s' : Store) :
  requests s' = requests s -> offers s' = offers s ->
  request_seq s' = request_seq s ->
  broadcasting rid todo s -> broadcasting rid todo s'.
Proof.
  intros Hr Ho Hs (Hok & Hnd & Hfresh). unfold broadcasting.
  rewrite Ho, Hs. split; [|auto].
  revert Hok. apply offers_ok_frame; assumption.
Qed.

Lemma broadcasting_skip (rid : option Z) (x : Master) (rest : list Master)
      (s : Store) :
  broadcasting rid (x :: rest) s -> broadcasting rid rest s.
Proof.
  intros (Hok & Hnd & Hfresh). unfold broadcasting.
  split; [exact Hok|]. split.
  - cbn [map] in Hnd. inversion Hnd; assumption.
  - intros k Hk. destruct (Hfresh k Hk) as [Hle Hnot].
    split; [exact Hle|]. intros y Hy. apply Hnot. right. exact Hy.
Qed.

Lemma broadcasting_insert (rid : option Z) (x : Master) (rest : list Master)
      (s s' : Store) (a : Z) :
  broadcasting rid (x :: rest) s ->
  sql_insert_offer rid (m_id x) s = Some (a, s') ->
  broadcasting rid rest s'.
Proof.
  intros ((Ha & Hb & Hd & He & Hf) & Hnd & Hfresh) E.
  unfold sql_insert_offer in E. injection E as _ <-.
  cbn [map] in Hnd. apply NoDup_cons_iff in Hnd. destruct Hnd as [Hx Hrest].
  unfold broadcasting, offers_ok. cbn [requests offers request_seq].
  rewrite offer_keys_app.
  assert (Hold : forall o, In o (offers s ++
                                   [mkOffer (offer_seq s + 1) rid (m_id x) Sent]) ->
                           o_status o = Taken -> In o (offers s)).
  { intros o Hin Htaken. apply in_app_iff in Hin.
    destruct Hin as [Hin|[<-|[]]]; [exact Hin | discriminate Htaken]. }
  split; [split; [exact Ha|split; [|split; [|split]]]|split].
  - apply Forall_app. split; [exact Hb|].
    constructor; [|constructor]. cbn [o_request_id]. intros k Hk.
    apply (Hfresh k Hk).
  - apply NoDup_app; [exact Hd | |].
    + unfold offer_keys. cbn [flat_map o_request_id o_master_id].
      destruct rid; repeat constructor; cbn; tauto.
    + intros [k m] Hin Hnew.
      unfold offer_keys in Hnew. cbn [flat_map o_request_id o_master_id] in Hnew.
      destruct rid as [k'|]; [|contradiction].
      destruct Hnew as [Hnew|[]]. injection Hnew as E1 E2.
      rewrite <- E1, <- E2 in Hin.
      destruct (Hfresh k' eq_refl) as [_ Hnot].
      apply (Hnot x); [left; reflexivity | exact Hin].
  - intros o r Ho Hr Htaken. apply He; auto.
  - intros o1 o2 k H1 H2 T1 T2. apply Hf; auto.
  - exact Hrest.
  - intros k Hk. destruct (Hfresh k Hk) as [Hle Hnot].
    split; [exact Hle|]. intros y Hy Hin. apply in_app_iff in Hin.
    destruct Hin as [Hin|Hin].
    + apply (Hnot y); [right; exact Hy | exact Hin].
    + unfold offer_keys in Hin.
      cbn [flat_map o_request_id o_master_id] in Hin.
      rewrite Hk in Hin. destruct Hin as [Hin|[]].
      injection Hin as Hin. apply Hx. rewrite Hin. apply in_map, Hy.
Qed.

Lemma triple_for_each A (Inv : list A -> Store -> Prop) (body : A -> M unit)
      (l : list A) :
  (forall x rest, triple (Inv (x :: rest)) (body x) (fun _ => Inv rest)) ->
  triple (Inv l) (for_each l body) (fun _ s => exists rest, Inv rest s).
Proof.
  intros H. induction l as [|x l IH]; cbn [for_each].
  - apply triple_ret. intros s Hs. exists []. exact Hs.
  - eapply triple_bind; [apply H | intros u; exact IH |].
    intros e s Hs. exists l. exact Hs.
Qed.

Lemma triple_fetch_all_bind A B (q : Store -> list A) (k : list A -> M B)
      (P : Store -> Prop) (R : Result B -> Store -> Prop) :
  triple P (k []) R ->
  (forall s0, triple (fun s => P s /\ s = s0) (k (q s0)) R) ->
  triple P (bind (fetch_all q) k) R.
Proof.
  intros Hnone Hsome w Hw. unfold result, exec, bind.
  rewrite fetch_all_eq.
  destruct (fault_now w).
  - apply (Hnone (tick w) Hw).
  - apply (Hsome (store w) (tick w)). split; [exact Hw | reflexivity].
Qed.

Lemma offer_to_broadcasting (rid : option Z) (x : Master)
      (rest : list Master) :
  triple (broadcasting rid (x :: rest)) (offer_to rid x)
         (fun _ => broadcasting rid rest).
Proof.
  unfold offer_to.
  eapply triple_bind with (Q := fun _ => broadcasting rid rest);
    [| |auto].
  - apply triple_execute.
    + intros s. apply broadcasting_skip.
    + intros s a s'. apply broadcasting_insert.
  - intros u.
    match goal with |- triple ?P ?m _ => change (keeps P m) end.
    repeat keeps_step.
    intros s. apply broadcasting_frame; reflexivity.
Qed.

Lemma broadcast_loop_offers_ok (now : Z) (rid : option Z) (category : text)
      (rows : list Master) :
  NoDup (map m_id rows) ->
  triple (fun s => offers_ok s /\ unoffered rid s)
         (fetch_one (select_request_opt rid) ;;;
          for_each (pick_masters now category rows) (offer_to rid))
         (fun _ => offers_ok).
Proof.
  intros Hnd.
  eapply triple_bind with (Q := fun _ s => offers_ok s /\ unoffered rid s);
    [apply keeps_fetch_one | | intros e s H; apply H].
  intros u.
  eapply triple_weaken;
    [apply (triple_for_each (broadcasting rid)), offer_to_broadcasting | |].
  - intros s [Hok Hun]. split; [exact Hok|]. split.
    + apply picked_distinct, Hnd.
    + intros k Hk. destruct (Hun k Hk) as [Hle Hnone].
      split; [exact Hle|]. intros x Hx Hin.
      apply offer_keys_in in Hin. destruct Hin as (o & Ho & Hreq & _).
      apply (Hnone o Ho Hreq).
  - intros r s [rest H]. apply H.
Qed.

Lemma send_to_masters_offers_ok (now : Z) (rid : option Z) (category : text) :
  triple (fun s => masters_ok s /\ offers_ok s /\ unoffered rid s)
         (send_to_masters now rid category)
         (fun _ => offers_ok).
Proof.
  unfold send_to_masters. apply triple_fetch_all_bind.
  - eapply triple_weaken;
      [apply (@broadcast_loop_offers_ok now rid category []);
       constructor
      | intros s H; apply H | auto].
  - intros s0 w [(Hm & Hok & Hun) Hs]. subst s0.
    apply (@broadcast_loop_offers_ok now rid category
             (select_active_masters (store w))).
    + unfold select_active_masters. apply distinct_keys_filter.
      apply Hm.
    + split; assumption.
Qed.

Lemma triple_execute_result A (stmt : Store -> option (A * Store))
      (P : Store -> Prop) (Q : option A -> Store -> Prop) :
  (forall s, P s -> Q None s) ->
  (forall s a s', P s -> stmt s = Some (a, s') -> Q (Some a) s') ->
  triple P (execute stmt) (fun r s => exists o, r = Ok o /\ Q o s).
Proof.
  intros Hstay Hgo w Hw. unfold result, exec. rewrite execute_eq.
  destruct (fault_now w); cbn [fst snd]; [eauto|].
  destruct (stmt (store w)) as [[a s']|] eqn:E; cbn [fst snd store set_store tick];
    eauto.
Qed.

Lemma masters_and_offers_req_submit (now uid : Z) (contact : option Z)
      (category : text) :
  triple (fun s => masters_ok s /\ offers_ok s)
         (req_submit now uid contact category)
         (fun _ => offers_ok).
Proof.
  unfold req_submit.
  eapply triple_bind;
    [apply triple_execute_result
       with (Q := fun rid s => masters_ok s /\ offers_ok s /\ unoffered rid s)
    | | ].
  - intros s [Hm Hok]. split; [exact Hm|]. split; [exact Hok|].
    intros k Hk. discriminate.
  - intros s a s' [Hm Hok] E. split; [|split].
    + unfold sql_insert_request in E. injection E as _ <-. revert Hm.
      apply masters_ok_frame; reflexivity.
    + eapply offers_ok_insert_request; eassumption.
    + unfold sql_insert_request in E. injection E as <- <-.
      intros k Hk. injection Hk as <-. cbn [request_seq offers].
      split; [lia|]. intros o Ho Hreq.
      destruct Hok as (_ & Hb & _). rewrite Forall_forall in Hb.
      specialize (Hb o Ho _ Hreq). lia.
  - intros rid w (o & E & H). injection E as <-. revert w H.
    change (triple (fun s => masters_ok s /\ offers_ok s /\ unoffered rid s)
                   (commit ;;; notify_admin ;;;
                    send_to_masters now rid category ;;;
                    main_menu_kb uid ;;; api MsgRequestSent ;;; api MsgAnswer)
                   (fun _ => offers_ok)).
    eapply triple_bind; [apply keeps_commit | intros u | auto; intros e s H; apply H].
    eapply triple_bind; [apply keeps_notify_admin | intros u' | intros e s H; apply H].
    eapply triple_bind;
      [apply send_to_masters_offers_ok | intros u'' | auto].
    match goal with |- triple ?P ?m _ => change (keeps P m) end.
    unfold main_menu_kb. repeat keeps_step.
  - intros e s (o & E & _). discriminate.
Qed.

(** *** Actions on an offer, without persistence faults *)

Lemma wtriple_bind A B (m : M A) (k : A -> M B) (P : World -> Prop)
      (Q : Result A -> World -> Prop) (R : Result B -> World -> Prop) :
  wtriple P m Q ->
  (forall a, wtriple (Q (Ok a)) (k a) R) ->
  (forall e w, Q (Raised e) w -> R (Raised e) w) ->
  wtriple P (bind m k) R.
Proof.
  intros Hm Hk He w Hw. specialize (Hm w Hw).
  unfold result, exec, bind in *.
  destruct (m w) as [[a|e] w1]; cbn [fst snd] in *.
  - apply (Hk a w1 Hm).
  - apply He, Hm.
Qed.

Lemma wtriple_pre A (m : M A) (P P' : World -> Prop)
      (Q : Result A -> World -> Prop) :
  (forall w, P w -> P' w) -> wtriple P' m Q -> wtriple P m Q.
Proof. intros HP H w Hw. apply H, HP, Hw. Qed.

(** A computation that keeps a property of the store, used where no
    statement fails. *)
Lemma calm_leaf A (m : M A) (I J G : Store -> Prop) :
  keeps J m -> (forall s, I s -> J s) -> (forall s, J s -> G s) ->
  wtriple (calmly I) m (fun _ w => G (store w)).
Proof. intros Hk HI HG w [_ Hw]. apply HG, (Hk w), HI, Hw. Qed.

Lemma calm_check_limit_bind B (now uid : Z) (action : string)
      (limit period : Z) (k : bool -> M B) (I : Store -> Prop)
      (R : Result B -> World -> Prop) :
  (forall b, wtriple (calmly I) (k b) R) ->
  wtriple (calmly I) (bind (check_limit now uid action limit period) k) R.
Proof.
  intros Hk w Hw. unfold result, exec, bind, check_limit.
  destruct (limit <=? _); apply Hk; exact Hw.
Qed.

Lemma calm_fetch_bind A B (q : Store -> list A) (k : option A -> M B)
      (I : Store -> Prop) (R : Result B -> World -> Prop) :
  (forall s0, wtriple (calmly (fun s => I s /\ s = s0))
                      (k (hd_error (q s0))) R) ->
  wtriple (calmly I) (bind (fetch_one q) k) R.
Proof.
  intros Hk w [Hnf Hw]. unfold result, exec, bind.
  rewrite fetch_one_ok by exact Hnf.
  apply (Hk (store w) (tick w)). split; [nf|]. split; [exact Hw|reflexivity].
Qed.

Lemma calm_update_bind B (f : Store -> Store) (k : option unit -> M B)
      (I I' : Store -> Prop) (R : Result B -> World -> Prop) :
  (forall s, I s -> I' (f s)) ->
  wtriple (calmly I') (k (Some tt)) R ->
  wtriple (calmly I) (bind (execute (update f)) k) R.
Proof.
  intros Hf Hk w [Hnf Hw]. unfold result, exec, bind.
  rewrite execute_update_ok by exact Hnf.
  apply (Hk (set_store (f (store w)) (tick w))). split; [nf|].
  apply Hf, Hw.
Qed.

Lemma bound_take_notify (req_id master_id : Z) :
  keeps (bound_to req_id master_id) (take_notify req_id master_id).
Proof. apply keeps_take_notify. intros s. apply bound_taken. Qed.

Lemma offers_ok_offer_actions (now uid : Z) (action : Action)
      (req_id master_id : Z) :
  wtriple (calmly offers_ok)
          (offer_actions now uid action req_id master_id)
          (fun _ w => offers_ok (store w)).
Proof.
  assert (Hadm : forall I : Store -> Prop,
             (forall s, I s -> exists row,
                   offers_ok s /\ In row (requests s)
                   /\ r_id row = req_id /\ r_status row = New) ->
             wtriple (calmly I) (take_admitted req_id master_id)
                     (fun _ w => offers_ok (store w))).
  { intros I HI. unfold take_admitted.
    apply calm_update_bind with (I' := bound_to req_id master_id).
    - intros s Hs. destruct (HI s Hs) as (row & Hok & Hin & Hid & Hnew).
      eapply bound_after_assign; eassumption.
    - eapply calm_leaf; [apply bound_take_notify | auto | intros s H; apply H]. }
  assert (Hleaf : forall (I : Store -> Prop) (m : M unit),
             keeps offers_ok m -> (forall s, I s -> offers_ok s) ->
             wtriple (calmly I) m (fun _ w => offers_ok (store w))).
  { intros I m Hk HI. eapply calm_leaf; [exact Hk | exact HI | auto]. }
  unfold offer_actions.
  apply calm_check_limit_bind. intros [|]; cbn [negb];
    [|apply Hleaf; [apply keeps_api | auto]].
  apply calm_fetch_bind. intros s0.
  destruct (hd_error (select_request req_id s0)) as [row|] eqn:Er;
    [|apply Hleaf; [apply keeps_api | tauto]].
  apply hd_error_filter_In in Er. destruct Er as [Hrow Hid].
  apply Z.eqb_eq in Hid.
  destruct action.
  - apply calm_fetch_bind. intros s1.
    destruct (match hd_error (select_master_by_contact uid s1) with
              | Some cm => negb (m_id cm =? master_id)
              | None => true
              end);
      [apply Hleaf; [apply keeps_api | tauto]|].
    destruct (status_eqb (r_status row) New) eqn:Est; cbn [negb];
      [|apply Hleaf; [apply keeps_api | tauto]].
    apply status_eqb_eq in Est.
    apply calm_fetch_bind. intros s2.
    destruct (hd_error (select_master (Some master_id) s2)) as [m|];
      [|apply Hleaf; [apply keeps_api | tauto]].
    destruct (is_active now (m_sub_until m)).
    + apply Hadm. intros s (((Hok & ->) & _) & _). eauto.
    + destruct (0 <? or0 (m_free_orders_left m)).
      * apply calm_update_bind
          with (I' := fun s => offers_ok s /\ In row (requests s)).
        -- intros s (((Hok & ->) & _) & _). split; [|exact Hrow].
           revert Hok. apply offers_ok_frame; reflexivity.
        -- apply Hadm. intros s [Hok Hin]. eauto.
      * apply Hleaf; [|tauto].
        apply keeps_bind; [apply keeps_api | intros; apply keeps_api].
  - apply calm_update_bind with (I' := offers_ok).
    + intros s [Hok _]. apply offers_ok_skip, Hok.
    + apply Hleaf; [apply keeps_api | auto].
  - apply Hleaf; [apply keeps_ret | tauto].
Qed.

Lemma same_key_same_offer (l : list Offer) (o1 o2 : Offer) (k : Z) :
  NoDup (offer_keys l) -> In o1 l -> In o2 l ->
  o_request_id o1 = Some k -> o_request_id o2 = Some k ->
  o_master_id o1 = o_master_id o2 ->
  o1 = o2.
Proof.
  intros Hnd H1 H2 K1 K2 Hm.
  induction l as [|o l IH]; [contradiction|].
  change (o :: l) with ([o] ++ l) in Hnd. rewrite offer_keys_app in Hnd.
  assert (Hhead : forall p, In p l -> o_request_id p = Some k ->
                            o_request_id o = Some k ->
                            o_master_id p = o_master_id o -> False).
  { intros p Hp Kp Ko Hpo.
    apply NoDup_app_remove_l in Hnd as Htail.
    assert (Hin : In (k, o_master_id o) (offer_keys l))
      by (apply offer_keys_in; eauto).
    unfold offer_keys in Hnd at 1. cbn [flat_map] in Hnd.
    rewrite Ko in Hnd. cbn [app] in Hnd.
    apply NoDup_cons_iff in Hnd. tauto. }
  destruct H1 as [<-|H1], H2 as [<-|H2].
  - reflexivity.
  - exfalso. apply (Hhead o2 H2 K2 K1). symmetry. exact Hm.
  - exfalso. apply (Hhead o1 H1 K1 K2 Hm).
  - apply IH; [apply NoDup_app_remove_l in Hnd; exact Hnd | assumption..].
Qed.

Lemma offers_ok_step (w : World) (e : Event) :
  no_faults w -> masters_ok (store w) -> offers_ok (store w) ->
  offers_ok (store (step w e)).
Proof.
  intros Hnf Hm Hok. pose proof (offers_ok_other_events e) as H.
  unfold step. destruct e; try (apply (H w Hok)).
  - apply offers_ok_offer_actions. split; assumption.
  - apply (@masters_and_offers_req_submit now uid contact category w).
    split; assumption.
Qed.

Lemma offers_ok_run (es : list Event) (w : World) :
  no_faults w -> masters_ok (store w) -> offers_ok (store w) ->
  offers_ok (store (run w es)).
Proof.
  revert w. induction es as [|e es IH]; intros w Hnf Hm Hok; [exact Hok|].
  cbn [run fold_left]. apply IH.
  - apply no_faults_step, Hnf.
  - apply (masters_ok_step e w Hm).
  - apply offers_ok_step; assumption.
Qed.

(** X1.  When no database statement fails and the handlers run one after
    another, no sequence of events gives a request two offers with status
    'taken': from well-formed tables, two taken offer rows of one request
    are the same row, and the request of a taken offer is past 'new' and
    bound to the master of the offer. *)
Theorem one_taken_offer_per_request (w : World) (es : list Event) :
  no_faults w ->
  masters_ok (store w) ->
  offers_ok (store w) ->
  let s' := store (run w es) in
  (forall o1 o2 k,
      In o1 (offers s') -> In o2 (offers s') ->
      o_status o1 = Taken -> o_status o2 = Taken ->
      o_request_id o1 = Some k -> o_request_id o2 = Some k ->
      o1 = o2)
  /\ (forall o r,
         In o (offers s') -> In r (requests s') ->
         o_status o = Taken -> o_request_id o = Some (r_id r) ->
         r_status r <> New /\ r_master_id r = Some (o_master_id o)).
Proof.
  intros Hnf Hm Hok s'.
  destruct (@offers_ok_run es w Hnf Hm Hok) as (_ & _ & Hd & He & Hf).
  split; [|exact He].
  intros o1 o2 k H1 H2 T1 T2 K1 K2.
  apply (same_key_same_offer (offers s') o1 o2 Hd H1 H2 K1 K2).
  apply (Hf o1 o2 k); assumption.
Qed.

Lemma sample_store_offers_ok (status : Status) (master_id : option Z)
      (free : Z) :
  offers_ok (sample_store status master_id free).
Proof.
  unfold offers_ok, sample_store. cbn.
  split; [repeat constructor; cbn; lia|].
  split; [repeat constructor; cbn; intros k [= <-]; lia|].
  split; [repeat constructor; cbn; intuition discriminate|].
  split.
  - intros o r [<-|[<-|[]]] _ T; discriminate T.
  - intros o1 o2 k [<-|[<-|[]]] _ T; discriminate T.
Qed.

Lemma sample_store_masters_ok (status : Status) (master_id : option Z)
      (free : Z) :
  0 <= free -> masters_ok (sample_store status master_id free).
Proof.
  intros Hfree. unfold masters_ok, sample_store. cbn.
  repeat split; repeat constructor; cbn; try lia; intuition discriminate.
Qed.

Lemma one_taken_offer_per_request_witness :
  let s' := store (run (calm (sample_store New None 3))
                       [EvOffer 100 10 Take 1 1; EvOffer 101 11 Take 1 2;
                        EvSubmit 102 77 None remont]) in
  (forall o1 o2 k,
      In o1 (offers s') -> In o2 (offers s') ->
      o_status o1 = Taken -> o_status o2 = Taken ->
      o_request_id o1 = Some k -> o_request_id o2 = Some k ->
      o1 = o2)
  /\ (forall o r,
         In o (offers s') -> In r (requests s') ->
         o_status o = Taken -> o_request_id o = Some (r_id r) ->
         r_status r <> New /\ r_master_id r = Some (o_master_id o)).
Proof.
  apply (@one_taken_offer_per_request
           (calm (sample_store New None 3))
           [EvOffer 100 10 Take 1 1; EvOffer 101 11 Take 1 2;
            EvSubmit 102 77 None remont]).
  - constructor.
  - apply sample_store_masters_ok. lia.
  - apply sample_store_offers_ok.
Defined.

(** ** The rate limiter *)

Lemma check_limit_eq (now uid : Z) (action : string) (limit period : Z)
      (w : World) :
  let kept := filter (fun req_time => now - req_time <? period)
                     (user_requests w uid action) in
  check_limit now uid action limit period w =
  (Ok (Z.of_nat (length kept) <? limit),
   set_user_requests
     (limiter_set (user_requests w) uid action
                  (if Z.of_nat (length kept) <? limit
                   then kept ++ [now] else kept)) w).
Proof.
  intros kept. unfold check_limit. fold kept.
  rewrite Z.ltb_antisym. destruct (limit <=? Z.of_nat (length kept)); reflexivity.
Qed.

Lemma limiter_set_same (f : Limiter) (uid : Z) (action : string) (v : list Z) :
  limiter_set f uid action v uid action = v.
Proof. unfold limiter_set. rewrite Z.eqb_refl, String.eqb_refl. reflexivity. Qed.

Lemma limiter_set_other (f : Limiter) (uid u : Z) (action a : string)
      (v : list Z) :
  (u, a) <> (uid, action) -> limiter_set f uid action v u a = f u a.
Proof.
  intros H. unfold limiter_set.
  destruct (Z.eqb_spec u uid) as [->|]; [|reflexivity].
  destruct (String.eqb_spec a action) as [->|]; [|reflexivity].
  contradiction H. reflexivity.
Qed.

Lemma in_window_app (period t : Z) (l l' : list Z) :
  in_window period t (l ++ l') = (in_window period t l + in_window period t l')%nat.
Proof. unfold in_window. rewrite filter_app, length_app. reflexivity. Qed.

Lemma in_window_le (period t : Z) (l : list Z) :
  (in_window period t l <= length l)%nat.
Proof. apply filter_length_le. Qed.

Lemma in_window_later (period t : Z) (l : list Z) :
  Forall (fun x => t < x) l -> in_window period t l = 0%nat.
Proof.
  unfold in_window. induction 1 as [|x l Hx _ IH]; [reflexivity|].
  cbn [filter]. replace (x <=? t) with false by (symmetry; apply Z.leb_gt; exact Hx).
  rewrite andb_false_r. exact IH.
Qed.

Lemma in_window_pruned (period now t : Z) (l : list Z) :
  now <= t ->
  in_window period t (filter (fun x => now - x <? period) l)
  = in_window period t l.
Proof.
  intros Hle. unfold in_window. induction l as [|x l IH]; [reflexivity|].
  cbn [filter]. destruct (Z.ltb_spec (now - x) period) as [Hin|Hout].
  - cbn [filter]. destruct ((t - x <? period) && (x <=? t));
      cbn [length]; rewrite IH; reflexivity.
  - replace (t - x <? period) with false by (symmetry; apply Z.ltb_ge; lia).
    cbn [andb]. exact IH.
Qed.

Lemma served_window (uid : Z) (action : string) (limit period : Z)
      (times : list Z) :
  forall w,
    StronglySorted Z.le times ->
    (length (user_requests w uid action) <= Z.to_nat limit)%nat ->
    Forall (fun x => Forall (fun t => x <= t) times)
           (user_requests w uid action) ->
    exists admitted,
      result (served uid action limit period times) w = Ok admitted
      /\ incl admitted times
      /\ forall t,
          Forall (fun x => x <= t) (user_requests w uid action) ->
          (in_window period t (user_requests w uid action ++ admitted)
           <= Z.to_nat limit)%nat.
Proof.
  induction times as [|t1 ts IH]; intros w Hsort Hlen Hold.
  - exists []. split; [reflexivity|]. split; [apply incl_refl|].
    intros t _. rewrite app_nil_r.
    eapply Nat.le_trans; [apply in_window_le | exact Hlen].
  - set (l := user_requests w uid action) in *.
    set (kept := filter (fun req_time => t1 - req_time <? period) l).
    inversion Hsort as [|? ? Hts Hfirst]; subst.
    assert (Hkept_len : (length kept <= length l)%nat)
      by apply filter_length_le.
    assert (Hstep :
              forall l', user_requests
                           (set_user_requests
                              (limiter_set (user_requests w) uid action l') w)
                           uid action = l').
    { intros l'. cbn. apply limiter_set_same. }
    unfold result. cbn [served]. unfold bind at 1.
    rewrite check_limit_eq. fold l. fold kept.
    destruct (Z.ltb_spec (Z.of_nat (length kept)) limit) as [Hroom|Hfull].
    + (* admitted *)
      set (w1 := set_user_requests _ w).
      destruct (IH w1 Hts) as (adm & Hres & Hincl & Hwin).
      { unfold w1. rewrite Hstep, length_app. cbn [length]. lia. }
      { unfold w1. rewrite Hstep. apply Forall_app. split.
        - apply Forall_forall. intros x Hx.
          apply filter_In in Hx as [Hx _].
          rewrite Forall_forall in Hold. specialize (Hold x Hx).
          inversion Hold; assumption.
        - constructor; [exact Hfirst | constructor]. }
      unfold result in Hres. unfold bind.
      destruct (served uid action limit period ts w1) as [[a|e] w2];
        cbn in Hres; [|discriminate]. injection Hres as ->.
      exists (t1 :: adm). split; [reflexivity|].
      split; [intros x [<-|Hx]; [left; reflexivity | right; apply Hincl, Hx]|].
      intros t Ht.
      destruct (Z.le_gt_cases t1 t) as [Hge|Hlt].
      * specialize (Hwin t). unfold w1 in Hwin. rewrite Hstep in Hwin.
        rewrite <- app_assoc in Hwin. cbn [app] in Hwin.
        rewrite in_window_app in Hwin |- *.
        unfold kept in Hwin. rewrite in_window_pruned in Hwin by exact Hge.
        apply Hwin. apply Forall_app. split.
        -- apply Forall_forall. intros x Hx. apply filter_In in Hx as [Hx _].
           rewrite Forall_forall in Ht. apply Ht, Hx.
        -- constructor; [exact Hge | constructor].
      * rewrite in_window_app.
        rewrite (@in_window_later period t (t1 :: adm)).
        -- rewrite Nat.add_0_r.
           eapply Nat.le_trans; [apply in_window_le | exact Hlen].
        -- constructor; [lia|]. apply Forall_forall. intros x Hx.
           apply Hincl in Hx. rewrite Forall_forall in Hfirst.
           specialize (Hfirst x Hx). lia.
    + (* rejected *)
      set (w1 := set_user_requests _ w).
      destruct (IH w1 Hts) as (adm & Hres & Hincl & Hwin).
      { unfold w1. rewrite Hstep. lia. }
      { unfold w1. rewrite Hstep.
        apply Forall_forall. intros x Hx.
        apply filter_In in Hx as [Hx _].
        rewrite Forall_forall in Hold. specialize (Hold x Hx).
        inversion Hold; assumption. }
      unfold result in Hres. unfold bind.
      destruct (served uid action limit period ts w1) as [[a|e] w2];
        cbn in Hres; [|discriminate]. injection Hres as ->.
      exists adm. split; [reflexivity|].
      split; [intros x Hx; right; apply Hincl, Hx|].
      intros t Ht.
      destruct (Z.le_gt_cases t1 t) as [Hge|Hlt].
      * specialize (Hwin t). unfold w1 in Hwin. rewrite Hstep in Hwin.
        rewrite in_window_app in Hwin |- *.
        unfold kept in Hwin. rewrite in_window_pruned in Hwin by exact Hge.
        apply Hwin.
        apply Forall_forall. intros x Hx. apply filter_In in Hx as [Hx _].
        rewrite Forall_forall in Ht. apply Ht, Hx.
      * rewrite in_window_app.
        rewrite (@in_window_later period t adm).
        -- rewrite Nat.add_0_r.
           eapply Nat.le_trans; [apply in_window_le | exact Hlen].
        -- apply Forall_forall. intros x Hx.
           apply Hincl in Hx. rewrite Forall_forall in Hfirst.
           specialize (Hfirst x Hx). lia.
Qed.

(** X2.  [check_limit] is a sliding window: when one user calls it for one
    action with a clock that does not go back, on an entry that holds at
    most [limit] times, none of them later than the calls, then no window
    of [period] seconds that ends after the stored times holds more than
    [limit] stored or admitted calls. *)
Theorem rate_limit_window (uid : Z) (action : string) (limit period : Z)
        (times : list Z) (w : World) :
  StronglySorted Z.le times ->
  (length (user_requests w uid action) <= Z.to_nat limit)%nat ->
  Forall (fun x => Forall (fun t => x <= t) times)
         (user_requests w uid action) ->
  exists admitted,
    result (served uid action limit period times) w = Ok admitted
    /\ incl admitted times
    /\ forall t,
        Forall (fun x => x <= t) (user_requests w uid action) ->
        (in_window period t (user_requests w uid action ++ admitted)
         <= Z.to_nat limit)%nat.
Proof. intros Hs Hl Ho. apply served_window; assumption. Qed.

Lemma rate_limit_window_witness :
  exists admitted,
    result (served 10 "offer_actions" 2 3600 [0; 5; 7; 3600; 3604])
           (calm empty_store) = Ok admitted
    /\ incl admitted [0; 5; 7; 3600; 3604]
    /\ forall t,
        Forall (fun x => x <= t)
               (user_requests (calm empty_store) 10 "offer_actions"%string) ->
        (in_window 3600%Z t
                   (user_requests (calm empty_store) 10%Z "offer_actions"%string
                      ++ admitted)
         <= Z.to_nat 2%Z)%nat.
Proof.
  apply (@rate_limit_window 10 "offer_actions" 2 3600 [0; 5; 7; 3600; 3604]
                            (calm empty_store)).
  - repeat constructor; lia.
  - cbn. lia.
  - constructor.
Defined.

Lemma pruned_twice (period period' c now : Z) (l : list Z) :
  c <= now -> period <= period' ->
  filter (fun x => now - x <? period) (filter (fun x => c - x <? period') l)
  = filter (fun x => now - x <? period) l.
Proof.
  intros Hc Hp. induction l as [|x l IH]; [reflexivity|].
  cbn [filter]. destruct (Z.ltb_spec (c - x) period') as [Hin|Hout].
  - cbn [filter]. rewrite IH. reflexivity.
  - replace (now - x <? period) with false by (symmetry; apply Z.ltb_ge; lia).
    exact IH.
Qed.

(** X3.  [get_remaining] predicts [check_limit] and does not disturb it:
    it reports a positive number exactly when a call at the same instant
    would be admitted, and a later [check_limit] with the same period gives
    the verdict and leaves the entry that it would have without the
    call. *)
Theorem get_remaining_agrees_with_check_limit
        (now now' uid : Z) (action : string) (limit period : Z) (w : World) :
  now <= now' ->
  let w1 := exec (get_remaining now uid action limit period) w in
  (exists n,
      result (get_remaining now uid action limit period) w = Ok n
      /\ 0 <= n
      /\ (0 < n <-> result (check_limit now uid action limit period) w = Ok true))
  /\ result (check_limit now' uid action limit period) w1
     = result (check_limit now' uid action limit period) w
  /\ (forall u a,
         user_requests (exec (check_limit now' uid action limit period) w1) u a
         = user_requests (exec (check_limit now' uid action limit period) w) u a)
  /\ store w1 = store w /\ out w1 = out w /\ faults w1 = faults w.
Proof.
  intros Hle w1.
  assert (Hentry : filter (fun x => now' - x <? period)
                          (user_requests w1 uid action)
                   = filter (fun x => now' - x <? period)
                            (user_requests w uid action)).
  { unfold w1, exec, get_remaining. cbn. rewrite limiter_set_same.
    apply pruned_twice; [exact Hle | lia]. }
  split; [|split; [|split; [|repeat split]]].
  - eexists. split; [reflexivity|]. split; [lia|].
    unfold result. rewrite check_limit_eq. cbn [fst].
    set (k := Z.of_nat (length _)).
    destruct (Z.ltb_spec k limit) as [Hk|Hk]; split; intros Hn;
      try reflexivity; try lia; discriminate.
  - unfold result. rewrite !check_limit_eq. cbn [fst]. rewrite Hentry.
    reflexivity.
  - intros u a. unfold exec. rewrite !check_limit_eq. cbn [snd].
    rewrite Hentry. cbn.
    unfold limiter_set at 1 3.
    destruct ((u =? uid) && String.eqb a action) eqn:E; [reflexivity|].
    unfold limiter_set. rewrite E. reflexivity.
Qed.

Lemma get_remaining_agrees_with_check_limit_witness :
  let w := exec (check_limit 0 10 "new_request" 3 3600) (calm empty_store) in
  let w1 := exec (get_remaining 100 10 "new_request" 3 3600) w in
  (exists n,
      result (get_remaining 100 10 "new_request" 3 3600) w = Ok n
      /\ 0 <= n
      /\ (0 < n <-> result (check_limit 100 10 "new_request" 3 3600) w = Ok true))
  /\ result (check_limit 200 10 "new_request" 3 3600) w1
     = result (check_limit 200 10 "new_request" 3 3600) w
  /\ (forall u a,
         user_requests (exec (check_limit 200 10 "new_request" 3 3600) w1) u a
         = user_requests (exec (check_limit 200 10 "new_request" 3 3600) w) u a)
  /\ store w1 = store w /\ out w1 = out w /\ faults w1 = faults w.
Proof.
  apply (@get_remaining_agrees_with_check_limit 100 200 10 "new_request" 3 3600
           (exec (check_limit 0 10 "new_request" 3 3600) (calm empty_store))).
  lia.
Defined.






(** X5.  The hourly [cleanup_old_entries] is invisible to the limiter: for
    a period of at most 24 hours, a [check_limit] that comes after the
    clean-up gives the verdict and leaves the entry that it would have
    without it; the store and the messages are not touched. *)
Theorem cleanup_keeps_verdicts
        (c now uid : Z) (action : string) (limit period : Z) (w : World) :
  c <= now ->
  period <= 24 * 3600 ->
  let w1 := exec (cleanup_old_entries c) w in
  result (check_limit now uid action limit period) w1
  = result (check_limit now uid action limit period) w
  /\ user_requests (exec (check_limit now uid action limit period) w1) uid action
     = user_requests (exec (check_limit now uid action limit period) w) uid action
  /\ store w1 = store w /\ out w1 = out w /\ faults w1 = faults w.
Proof.
  intros Hc Hp w1.
  assert (Hentry : filter (fun x => now - x <? period)
                          (user_requests w1 uid action)
                   = filter (fun x => now - x <? period)
                            (user_requests w uid action)).
  { unfold w1, exec, cleanup_old_entries. cbn [snd user_requests set_user_requests].
    apply pruned_twice; assumption. }
  split; [|split; [|repeat split]].
  - unfold result. rewrite !check_limit_eq. cbn [fst]. rewrite Hentry.
    reflexivity.
  - unfold exec. rewrite !check_limit_eq. cbn [snd].
    rewrite Hentry. cbn. rewrite !limiter_set_same. reflexivity.
Qed.

Lemma cleanup_keeps_verdicts_witness :
  let w := exec (check_limit 0 10 "complaint" 5 86400) (calm empty_store) in
  let w1 := exec (cleanup_old_entries 3600) w in
  result (check_limit 4000 10 "complaint" 5 86400) w1
  = result (check_limit 4000 10 "complaint" 5 86400) w
  /\ user_requests (exec (check_limit 4000 10 "complaint" 5 86400) w1)
                   10 "complaint"%string
     = user_requests (exec (check_limit 4000 10 "complaint" 5 86400) w)
                     10 "complaint"%string
  /\ store w1 = store w /\ out w1 = out w /\ faults w1 = faults w.
Proof.
  apply (@cleanup_keeps_verdicts 3600 4000 10 "complaint" 5 86400
           (exec (check_limit 0 10 "complaint" 5 86400) (calm empty_store)));
    lia.
Defined.

(** ** What no event undoes *)

Lemma keeps_run (I : Store -> Prop) :
  (forall e, keeps I (handle e)) ->
  forall es w, I (store w) -> I (store (run w es)).
Proof.
  intros Hstep es. induction es as [|e es IH]; intros w Hw; [exact Hw|].
  cbn [run fold_left]. apply IH. apply (Hstep e w Hw).
Qed.

Lemma settled_frame (k : Z) (mid : option Z) (s s' : Store) :
  requests s' = requests s -> request_seq s' = request_seq s ->
  settled k mid s -> settled k mid s'.
Proof. unfold settled. intros -> ->. trivial. Qed.

Lemma settled_map (k : Z) (mid : option Z) (g : Request -> Request)
      (c : Request -> bool) (s : Store) :
  (forall r, r_id (g r) = r_id r /\ r_master_id (g r) = r_master_id r
             /\ (r_status r <> New -> r_status (g r) <> New)) ->
  settled k mid s ->
  settled k mid (set_requests (map (fun r => if c r then g r else r)
                                   (requests s)) s).
Proof.
  intros Hg [Hseq Hrows]. split; [exact Hseq|].
  cbn [requests set_requests]. intros r Hin Hid.
  apply in_map_iff in Hin as (r0 & <- & Hin0).
  destruct (c r0); [|apply Hrows; assumption].
  destruct (Hg r0) as (Eid & Em & Hst). rewrite Eid in Hid.
  destruct (Hrows r0 Hin0 Hid) as [Hnew Hmid].
  split; [apply Hst, Hnew | rewrite Em; exact Hmid].
Qed.

Lemma settled_assign_other (k : Z) (mid : option Z) (master_id req_id : Z)
      (s : Store) :
  req_id <> k -> settled k mid s -> settled k mid (sql_assign master_id req_id s).
Proof.
  intros Hne [Hseq Hrows]. split; [exact Hseq|].
  cbn [requests sql_assign set_requests]. intros r Hin Hid.
  apply in_map_iff in Hin as (r0 & <- & Hin0).
  destruct (Z.eqb_spec (r_id r0) req_id) as [E|_];
    [|apply Hrows; assumption].
  cbn in Hid. congruence.
Qed.

Lemma settled_other_events (k : Z) (mid : option Z) (e : Event) :
  match e with
  | EvOffer _ _ _ _ _ | EvSubmit _ _ _ _ => True
  | _ => keeps (settled k mid) (handle e)
  end.
Proof.
  apply keeps_other_events;
    try (intros; eapply settled_frame; [| |eassumption]; reflexivity);
    try (intros; unfold sql_set_review_requested, sql_set_completed,
                 sql_set_status;
         apply settled_map; [|assumption];
         intros r; cbn; repeat split; auto; intros _; discriminate).
  - intros rid m cid rating s a s' Hok E. unfold sql_insert_review in E.
    destruct m; [|discriminate].
    destruct ((1 <=? rating) && (rating <=? 5)); [|discriminate].
    injection E as _ <-. revert Hok. apply settled_frame; reflexivity.
  - intros contact level cats tier s a s' Hok E. unfold sql_insert_master in E.
    injection E as _ <-. revert Hok. apply settled_frame; reflexivity.
  - intros uid s [Hseq Hrows]. split; [exact Hseq|].
    cbn [requests sql_delete_requests set_requests]. intros r Hin.
    apply filter_In in Hin as [Hin _]. apply Hrows, Hin.
Qed.

Lemma settled_insert_request (k : Z) (mid : option Z) (contact : option Z)
      (cat : text) (uid now : Z) (s : Store) (a : Z) (s' : Store) :
  settled k mid s ->
  sql_insert_request contact cat uid now s = Some (a, s') ->
  settled k mid s'.
Proof.
  intros [Hseq Hrows] E. unfold sql_insert_request in E.
  injection E as _ <-. split; [cbn; lia|].
  cbn [requests]. intros r Hin Hid.
  apply in_app_or in Hin as [Hin|[<-|[]]]; [apply Hrows; assumption|].
  cbn in Hid. lia.
Qed.

Lemma settled_req_submit (k : Z) (mid : option Z) (now uid : Z)
      (contact : option Z) (category : text) :
  keeps (settled k mid) (req_submit now uid contact category).
Proof.
  apply keeps_req_submit.
  - intros rid m s a s' Hok E. unfold sql_insert_offer in E.
    injection E as _ <-. revert Hok. apply settled_frame; reflexivity.
  - intros m s. apply settled_frame; reflexivity.
  - intros contact' cat uid' now' s a s' Hok E.
    eapply settled_insert_request; eassumption.
Qed.

(** A lookup on a store that satisfies [P] returns nothing or the first
    row of the query on a store that satisfies [P]. *)
Lemma triple_fetch_known A B (q : Store -> list A) (k : option A -> M B)
      (P : Store -> Prop) (R : Result B -> Store -> Prop) :
  triple P (k None) R ->
  (forall s0, P s0 -> triple P (k (hd_error (q s0))) R) ->
  triple P (bind (fetch_one q) k) R.
Proof.
  intros Hnone Hsome. apply triple_fetch_bind; [exact Hnone|].
  intros s0 w [Hw E]. subst s0. apply (Hsome (store w) Hw w Hw).
Qed.

Lemma settled_offer_actions (k : Z) (mid : option Z) (now uid : Z)
      (action : Action) (req_id master_id : Z) :
  keeps (settled k mid) (offer_actions now uid action req_id master_id).
Proof.
  assert (Hmark : forall st s,
             settled k mid s ->
             settled k mid (sql_set_offer_status st req_id master_id s))
    by (intros st s; apply settled_frame; reflexivity).
  unfold offer_actions.
  apply keeps_bind; [apply keeps_check_limit | intros admitted].
  destruct admitted; cbn [negb]; [|apply keeps_api].
  apply triple_fetch_known; [apply keeps_api | intros s0 Hok].
  destruct (hd_error (select_request req_id s0)) as [row|] eqn:Erow;
    [|apply keeps_api].
  apply hd_error_filter_In in Erow as [Hrow Hid].
  apply Z.eqb_eq in Hid.
  destruct action.
  - (* take *)
    apply keeps_bind; [apply keeps_fetch_one | intros cur].
    destruct (match cur with Some _ => _ | None => _ end); [apply keeps_api|].
    destruct (Z.eq_dec req_id k) as [->|Hne].
    + destruct Hok as [_ Hrows].
      destruct (Hrows row Hrow Hid) as [Hnew _].
      rewrite (status_eqb_neq Hnew). apply keeps_api.
    + assert (Hadm : keeps (settled k mid) (take_admitted req_id master_id)).
      { apply keeps_take_admitted; [|apply Hmark].
        intros s. apply settled_assign_other, Hne. }
      destruct (negb _); [apply keeps_api|].
      apply keeps_bind; [apply keeps_fetch_one | intros [m|]];
        [|apply keeps_api].
      destruct (is_active now (m_sub_until m)); [exact Hadm|].
      destruct (0 <? or0 (m_free_orders_left m)).
      * apply keeps_bind; [|intros _; exact Hadm].
        apply keeps_update. intros s. apply settled_frame; reflexivity.
      * apply keeps_bind; [apply keeps_api | intros _; apply keeps_api].
  - (* skip *)
    apply keeps_bind; [|intros _; apply keeps_api].
    apply keeps_update, Hmark.
  - apply keeps_ret.
Qed.

Lemma settled_step (k : Z) (mid : option Z) (e : Event) :
  keeps (settled k mid) (handle e).
Proof.
  pose proof (settled_other_events k mid e) as H.
  destruct e; try exact H.
  - apply settled_offer_actions.
  - apply settled_req_submit.
Qed.

(** X6.  Leaving 'new' is final and so is the choice of the master: once
    every row of a request is past 'new' and names a master cell, no
    sequence of events, with whatever database and delivery failures,
    makes a row of that request 'new' again or changes its master. *)
Theorem assignment_is_final (w : World) (es : list Event) (k : Z)
        (mid : option Z) :
  k <= request_seq (store w) ->
  (forall r, In r (requests (store w)) -> r_id r = k ->
             r_status r <> New /\ r_master_id r = mid) ->
  forall r, In r (requests (store (run w es))) -> r_id r = k ->
            r_status r <> New /\ r_master_id r = mid.
Proof.
  intros Hseq Hrows.
  assert (Hend : settled k mid (store (run w es))).
  { apply keeps_run; [intros e; apply settled_step | split; assumption]. }
  exact (proj2 Hend).
Qed.

Lemma assignment_is_final_witness :
  let w := faulty [false; true] (sample_store Assigned (Some 2) 3) in
  let es := [EvOffer 100 10 Take 1 1; EvConfirm 101 77 1 No;
             EvComplete 11 1; EvOffer 102 10 Take 1 1] in
  1 <= request_seq (store w)
  /\ forall r, In r (requests (store (run w es))) -> r_id r = 1 ->
               r_status r <> New /\ r_master_id r = Some 2.
Proof.
  split; [cbn; lia|].
  apply (@assignment_is_final
           (faulty [false; true] (sample_store Assigned (Some 2) 3))
           [EvOffer 100 10 Take 1 1; EvConfirm 101 77 1 No;
            EvComplete 11 1; EvOffer 102 10 Take 1 1]
           1 (Some 2)).
  - cbn. lia.
  - intros r [<-|[]] _. split; [discriminate | reflexivity].
Defined.

(** ** Properties that every statement keeps *)

Section Whole.

Variable I : Store -> Prop.

Hypothesis I_update_stats :
  forall avg cnt mid s, I s -> I (sql_update_stats avg cnt mid s).
Hypothesis I_set_review_requested :
  forall rid s, I s -> I (sql_set_review_requested rid s).
Hypothesis I_set_completed :
  forall now rid s, I s -> I (sql_set_completed now rid s).
Hypothesis I_count_order :
  forall tier mid s, I s -> I (sql_count_order tier mid s).
Hypothesis I_insert_review :
  forall rid mid cid rating s a s',
    I s -> sql_insert_review rid mid cid rating s = Some (a, s') -> I s'.
Hypothesis I_set_status :
  forall st rid s, st <> New -> I s -> I (sql_set_status st rid s).
Hypothesis I_insert_offer :
  forall rid mid s a s',
    I s -> sql_insert_offer rid mid s = Some (a, s') -> I s'.
Hypothesis I_deactivate : forall mid s, I s -> I (sql_deactivate mid s).
Hypothesis I_insert_request :
  forall contact cat uid now s a s',
    I s -> sql_insert_request contact cat uid now s = Some (a, s') -> I s'.
Hypothesis I_insert_master :
  forall contact level cats tier s a s',
    I s -> sql_insert_master contact level cats tier s = Some (a, s') -> I s'.
Hypothesis I_set_level : forall level mid s, I s -> I (sql_set_level level mid s).
Hypothesis I_grant_sub :
  forall t uid s, I s -> I (sql_grant m_set_sub_until t uid s).
Hypothesis I_grant_priority :
  forall t uid s, I s -> I (sql_grant m_set_priority_until t uid s).
Hypothesis I_grant_pin :
  forall t uid s, I s -> I (sql_grant m_set_pin_until t uid s).
Hypothesis I_delete_masters : forall uid s, I s -> I (sql_delete_masters uid s).
Hypothesis I_delete_requests : forall uid s, I s -> I (sql_delete_requests uid s).
Hypothesis I_set_comment : forall c rid s, I s -> I (sql_set_comment c rid s).
Hypothesis I_set_offer_status :
  forall st rid mid s, I s -> I (sql_set_offer_status st rid mid s).
Hypothesis I_debit : forall mid s, I s -> I (sql_debit mid s).
Hypothesis I_assign : forall mid rid s, I s -> I (sql_assign mid rid s).

Lemma whole_offer_actions (now uid : Z) (action : Action)
      (req_id master_id : Z) :
  keeps I (offer_actions now uid action req_id master_id).
Proof.
  unfold offer_actions.
  repeat first [ apply keeps_take_admitted | keeps_step ]; auto.
Qed.

Lemma whole_handle (e : Event) : keeps I (handle e).
Proof.
  assert (Hother : match e with
                   | EvOffer _ _ _ _ _ | EvSubmit _ _ _ _ => True
                   | _ => keeps I (handle e)
                   end)
    by (apply keeps_other_events; eauto).
  destruct e; try exact Hother.
  - apply whole_offer_actions.
  - apply keeps_req_submit; eauto.
Qed.

Lemma whole_run (es : list Event) (w : World) :
  I (store w) -> I (store (run w es)).
Proof. apply keeps_run, whole_handle. Qed.

End Whole.

(** ** A master who is switched off *)

Lemma keeps_for_each_in A (l : list A) (body : A -> M unit)
      (I : Store -> Prop) :
  (forall x, In x l -> keeps I (body x)) -> keeps I (for_each l body).
Proof.
  induction l as [|x l IH]; intros H; cbn [for_each].
  - apply keeps_ret.
  - apply keeps_bind; [apply H; left; reflexivity | intros _].
    apply IH. intros y Hy. apply H. right. exact Hy.
Qed.
















(** ** Rows that are never deleted *)

Lemma offer_kept_frame (o : Offer) (s s' : Store) :
  offers s' = offers s -> offer_kept o s -> offer_kept o s'.
Proof. unfold offer_kept. intros ->. trivial. Qed.

Lemma review_kept_frame (v : Review) (s s' : Store) :
  reviews s' = reviews s -> review_kept v s -> review_kept v s'.
Proof. unfold review_kept. intros ->. trivial. Qed.

Lemma offer_kept_step (o : Offer) (e : Event) : keeps (offer_kept o) (handle e).
Proof.
  apply whole_handle;
    try (intros; eapply offer_kept_frame; [|eassumption]; reflexivity).
  - intros rid m cid rating s a s' Hok E. unfold sql_insert_review in E.
    destruct m; [|discriminate].
    destruct ((1 <=? rating) && (rating <=? 5)); [|discriminate].
    injection E as _ <-. revert Hok. apply offer_kept_frame; reflexivity.
  - intros rid mid s a s' (o' & Hin & Hsub) E. unfold sql_insert_offer in E.
    injection E as _ <-. exists o'. split; [|exact Hsub].
    cbn [offers]. apply in_or_app. left. exact Hin.
  - intros contact cat uid now s a s' Hok E. unfold sql_insert_request in E.
    injection E as _ <-. revert Hok. apply offer_kept_frame; reflexivity.
  - intros contact level cats tier s a s' Hok E. unfold sql_insert_master in E.
    injection E as _ <-. revert Hok. apply offer_kept_frame; reflexivity.
  - intros st rid mid s (o' & Hin & Hsub).
    exists (if sql_eq (o_request_id o') (Some rid) && (o_master_id o' =? mid)
            then o_set_status st o' else o').
    split.
    + unfold sql_set_offer_status. cbn [offers set_offers].
      apply in_map_iff. exists o'. split; [reflexivity | exact Hin].
    + rewrite <- Hsub. destruct (_ && _); reflexivity.
Qed.

Lemma review_kept_step (v : Review) (e : Event) :
  keeps (review_kept v) (handle e).
Proof.
  apply whole_handle;
    try (intros; eapply review_kept_frame; [|eassumption]; reflexivity).
  - intros rid m cid rating s a s' (v' & Hin & Hsub) E.
    unfold sql_insert_review in E.
    destruct m; [|discriminate].
    destruct ((1 <=? rating) && (rating <=? 5)); [|discriminate].
    injection E as _ <-. exists v'. split; [|exact Hsub].
    cbn [reviews]. apply in_or_app. left. exact Hin.
  - intros rid mid s a s' Hok E. unfold sql_insert_offer in E.
    injection E as _ <-. revert Hok. apply review_kept_frame; reflexivity.
  - intros contact cat uid now s a s' Hok E. unfold sql_insert_request in E.
    injection E as _ <-. revert Hok. apply review_kept_frame; reflexivity.
  - intros contact level cats tier s a s' Hok E. unfold sql_insert_master in E.
    injection E as _ <-. revert Hok. apply review_kept_frame; reflexivity.
  - intros c rid s (v' & Hin & Hsub).
    exists (if v_request_id v' =? rid then v_set_comment (Some c) v' else v').
    split.
    + unfold sql_set_comment. cbn [reviews set_reviews].
      apply in_map_iff. exists v'. split; [reflexivity | exact Hin].
    + rewrite <- Hsub. destruct (_ =? _); reflexivity.
Qed.

(** X8.  Offers and reviews are never deleted nor pointed elsewhere: after
    any sequence of events, with whatever failures, every offer is still
    there with its rowid, request and master, and every review with its
    rowid, request, master, client and rating; this includes the deletion
    of the profile of the master or of the client they refer to. *)
Theorem offers_and_reviews_outlive_events (w : World) (es : list Event) :
  (forall o, In o (offers (store w)) ->
             exists o', In o' (offers (store (run w es)))
                        /\ offer_subject o' = offer_subject o)
  /\ (forall v, In v (reviews (store w)) ->
                exists v', In v' (reviews (store (run w es)))
                           /\ review_subject v' = review_subject v).
Proof.
  split.
  - intros o Hin.
    apply keeps_run; [intros e; apply offer_kept_step|].
    exists o. split; [exact Hin | reflexivity].
  - intros v Hin.
    apply keeps_run; [intros e; apply review_kept_step|].
    exists v. split; [exact Hin | reflexivity].
Qed.

Lemma offers_and_reviews_outlive_events_witness :
  let w := calm (sample_store Assigned (Some 1) 3) in
  let es := [EvRating 77 1 5; EvDeleteProfile 10; EvDeleteProfile 77] in
  (forall o, In o (offers (store w)) ->
             exists o', In o' (offers (store (run w es)))
                        /\ offer_subject o' = offer_subject o)
  /\ (forall v, In v (reviews (store w)) ->
                exists v', In v' (reviews (store (run w es)))
                           /\ review_subject v' = review_subject v).
Proof.
  exact (@offers_and_reviews_outlive_events
           (calm (sample_store Assigned (Some 1) 3))
           [EvRating 77 1 5; EvDeleteProfile 10; EvDeleteProfile 77]).
Defined.

(** ** The free orders are never topped up *)

Lemma balance_masters_map (k n : Z) (g : Master -> Master)
      (c : Master -> bool) (s : Store) :
  (forall m, m_id (g m) = m_id m
             /\ or0 (m_free_orders_left (g m)) <= or0 (m_free_orders_left m)
                \/ m_id (g m) = m_id m
                   /\ m_free_orders_left (g m)
                      = option_map (fun v => v - 1) (m_free_orders_left m)) ->
  balance_at_most k n s ->
  balance_at_most k n
    (set_masters (map (fun m => if c m then g m else m) (masters s)) s).
Proof.
  intros Hg [Hseq Hrows]. split; [exact Hseq|].
  cbn [masters set_masters]. intros m Hin Hid.
  apply in_map_iff in Hin as (m0 & <- & Hin0).
  destruct (c m0); [|apply Hrows; assumption].
  destruct (Hg m0) as [[Eid Hle]|[Eid Hdec]]; rewrite Eid in Hid;
    specialize (Hrows m0 Hin0 Hid).
  - lia.
  - rewrite Hdec. destruct (m_free_orders_left m0); cbn in *; lia.
Qed.

Lemma balance_frame (k n : Z) (s s' : Store) :
  masters s' = masters s -> master_seq s' = master_seq s ->
  balance_at_most k n s -> balance_at_most k n s'.
Proof. unfold balance_at_most. intros -> ->. trivial. Qed.

Lemma balance_step (k n : Z) (e : Event) :
  keeps (balance_at_most k n) (handle e).
Proof.
  apply whole_handle;
    try (intros; eapply balance_frame; [| |eassumption]; reflexivity);
    try (intros; unfold sql_update_stats, sql_count_order, sql_deactivate,
                 sql_set_level, sql_grant;
         apply balance_masters_map; [|assumption];
         intros m; left; cbn; split; [reflexivity | lia]).
  - intros rid m cid rating s a s' Hok E. unfold sql_insert_review in E.
    destruct m; [|discriminate].
    destruct ((1 <=? rating) && (rating <=? 5)); [|discriminate].
    injection E as _ <-. revert Hok. apply balance_frame; reflexivity.
  - intros rid mid s a s' Hok E. unfold sql_insert_offer in E.
    injection E as _ <-. revert Hok. apply balance_frame; reflexivity.
  - intros contact cat uid now s a s' Hok E. unfold sql_insert_request in E.
    injection E as _ <-. revert Hok. apply balance_frame; reflexivity.
  - intros contact level cats tier s a s' [Hseq Hrows] E.
    unfold sql_insert_master in E. injection E as _ <-.
    split; [cbn; lia|]. cbn [masters]. intros m Hin Hid.
    apply in_app_or in Hin as [Hin|[<-|[]]]; [apply Hrows; assumption|].
    cbn in Hid. lia.
  - intros uid s [Hseq Hrows]. split; [exact Hseq|].
    cbn [masters sql_delete_masters set_masters]. intros m Hin.
    apply filter_In in Hin as [Hin _]. apply Hrows, Hin.
  - intros mid s Hok. unfold sql_debit.
    apply balance_masters_map; [|exact Hok].
    intros m. right. cbn. split; reflexivity.
Qed.

(** X9.  The free orders of a master are never topped up: whatever the
    events and the failures, the balance of an existing master never
    exceeds a bound that it respects now; paying for a subscription,
    completing orders or being verified give no free order back. *)
Theorem free_orders_never_grow (w : World) (es : list Event) (k n : Z) :
  k <= master_seq (store w) ->
  (forall m, In m (masters (store w)) -> m_id m = k ->
             or0 (m_free_orders_left m) <= n) ->
  forall m, In m (masters (store (run w es))) -> m_id m = k ->
            or0 (m_free_orders_left m) <= n.
Proof.
  intros Hseq Hrows.
  assert (Hend : balance_at_most k n (store (run w es))).
  { apply keeps_run; [intros e; apply balance_step | split; assumption]. }
  exact (proj2 Hend).
Qed.

Lemma free_orders_never_grow_witness :
  let w := calm (sample_store New None 1) in
  let es := [EvOffer 100 10 Take 1 1; EvPayment 101 10 Sub30d;
             EvConfirm 102 77 1 Yes; EvVerify 10 (Some 1)] in
  1 <= master_seq (store w)
  /\ forall m, In m (masters (store (run w es))) -> m_id m = 1 ->
               or0 (m_free_orders_left m) <= 1.
Proof.
  split; [cbn; lia|].
  apply (@free_orders_never_grow
           (calm (sample_store New None 1))
           [EvOffer 100 10 Take 1 1; EvPayment 101 10 Sub30d;
            EvConfirm 102 77 1 Yes; EvVerify 10 (Some 1)] 1 1).
  - cbn. lia.
  - intros m [<-|[<-|[]]] Hid; [cbn; lia | discriminate Hid].
Defined.

(** ** Ratings stay in range *)

Lemma sum_Z_bounds (l : list Z) :
  Forall (fun x => 1 <= x <= 5) l ->
  Z.of_nat (length l) <= sum_Z l <= 5 * Z.of_nat (length l).
Proof.
  induction 1 as [|x l Hx _ IH]; cbn [sum_Z fold_right length]; [lia|].
  fold (sum_Z l). lia.
Qed.

Lemma sql_avg_range (l : list Z) (a : Q) :
  Forall (fun x => 1 <= x <= 5) l ->
  sql_avg l = Some a ->
  (1 <= a)%Q /\ (a <= 5)%Q.
Proof.
  intros Hl E. pose proof (sum_Z_bounds Hl) as Hsum.
  unfold sql_avg in E.
  destruct (Z.of_nat (length l)) as [|n|n] eqn:En; try discriminate.
  injection E as <-. unfold Qle. cbn [Qnum Qden]. lia.
Qed.

Lemma round1_range (x : Q) :
  (1 <= x)%Q /\ (x <= 5)%Q -> (1 <= round1 x)%Q /\ (round1 x <= 5)%Q.
Proof.
  destruct x as [n d]. unfold Qle, round1. cbn [Qnum Qden]. intros [Hlo Hhi].
  pose proof (Z.div_mod (n * 10) (Z.pos d) ltac:(lia)) as Hdm.
  pose proof (Z.mod_pos_bound (n * 10) (Z.pos d) ltac:(lia)) as Hmod.
  set (fl := n * 10 / Z.pos d) in *.
  set (rem := (n * 10) mod Z.pos d) in *.
  assert (Hfl : 10 <= fl <= 50) by nia.
  destruct (2 * rem ?= Z.pos d) eqn:Ecmp.
  - apply Z.compare_eq in Ecmp.
    destruct (Z.odd fl) eqn:Eodd; cbn [Qnum Qden]; nia.
  - cbn [Qnum Qden]. lia.
  - apply Z.compare_gt_iff in Ecmp. cbn [Qnum Qden]. nia.
Qed.

Lemma rated_frame (s s' : Store) :
  reviews s' = reviews s -> masters s' = masters s -> rated s -> rated s'.
Proof. unfold rated. intros -> ->. trivial. Qed.

Lemma rated_masters_map (g : Master -> Master) (c : Master -> bool)
      (s : Store) :
  (forall m, c m = true ->
             (1 <= m_avg_rating (g m))%Q /\ (m_avg_rating (g m) <= 5)%Q
             \/ m_avg_rating (g m) = m_avg_rating m) ->
  rated s ->
  rated (set_masters (map (fun m => if c m then g m else m) (masters s)) s).
Proof.
  intros Hg [Hrev Hm]. split; [exact Hrev|].
  cbn [masters set_masters]. apply Forall_forall. intros m Hin.
  apply in_map_iff in Hin as (m0 & <- & Hin0).
  rewrite Forall_forall in Hm. specialize (Hm m0 Hin0).
  destruct (c m0) eqn:Ec; [|exact Hm].
  destruct (Hg m0 Ec) as [Hnew|Hsame]; [exact Hnew | rewrite Hsame; exact Hm].
Qed.

Lemma rated_insert_review (rid : Z) (mid : option Z) (cid rating : Z)
      (s : Store) (a : Z) (s' : Store) :
  rated s -> sql_insert_review rid mid cid rating s = Some (a, s') -> rated s'.
Proof.
  intros [Hrev Hm] E. unfold sql_insert_review in E.
  destruct mid as [m|]; [|discriminate].
  destruct ((1 <=? rating) && (rating <=? 5)) eqn:Echeck; [|discriminate].
  injection E as _ <-. split; [|exact Hm]. cbn [reviews].
  apply Forall_app. split; [exact Hrev|]. constructor; [|constructor].
  cbn [v_rating]. apply andb_true_iff in Echeck as [H1 H2]. lia.
Qed.

Ltac rated_statement :=
  first
    [ intros; eapply rated_frame; [| |eassumption]; reflexivity
    | intros; unfold sql_count_order, sql_deactivate, sql_set_level,
              sql_grant, sql_debit;
      apply rated_masters_map; [|assumption];
      intros m _; right; reflexivity
    | intros; eapply rated_insert_review; eassumption
    | intros;
      match goal with
      | E : _ = Some (_, _) |- _ =>
          unfold sql_insert_offer, sql_insert_request in E;
          injection E as _ <-
      end;
      eapply rated_frame; [| |eassumption]; reflexivity ].

Lemma rated_insert_master (contact : option Z) (level : Level)
      (cats : option text) (tier : Tier) (s : Store) (a : Z) (s' : Store) :
  rated s -> sql_insert_master contact level cats tier s = Some (a, s') ->
  rated s'.
Proof.
  intros [Hrev Hm] E. unfold sql_insert_master in E. injection E as _ <-.
  split; [exact Hrev|]. cbn [masters]. apply Forall_app. split; [exact Hm|].
  constructor; [|constructor]. cbn [m_avg_rating]. unfold Qle. cbn. lia.
Qed.

Lemma rated_delete_masters (uid : Z) (s : Store) :
  rated s -> rated (sql_delete_masters uid s).
Proof.
  intros [Hrev Hm]. split; [exact Hrev|].
  cbn [masters sql_delete_masters set_masters].
  apply Forall_forall. intros m Hin. apply filter_In in Hin as [Hin _].
  rewrite Forall_forall in Hm. apply Hm, Hin.
Qed.

Lemma rated_set_comment (c : text) (rid : Z) (s : Store) :
  rated s -> rated (sql_set_comment c rid s).
Proof.
  intros [Hrev Hm]. split; [|exact Hm].
  cbn [reviews sql_set_comment set_reviews].
  apply Forall_forall. intros v Hin.
  apply in_map_iff in Hin as (v0 & <- & Hin0).
  rewrite Forall_forall in Hrev. specialize (Hrev v0 Hin0).
  destruct (v_request_id v0 =? rid); exact Hrev.
Qed.

Lemma ratings_of_range (mid : option Z) (s : Store) :
  rated s -> Forall (fun x => 1 <= x <= 5) (ratings_of mid s).
Proof.
  intros [Hrev _]. unfold ratings_of. apply Forall_forall. intros x Hin.
  apply in_map_iff in Hin as (v & <- & Hin).
  apply filter_In in Hin as [Hin _].
  rewrite Forall_forall in Hrev. apply Hrev, Hin.
Qed.

Lemma rated_update_master_stats (mid : option Z) :
  keeps rated (update_master_stats mid).
Proof.
  unfold update_master_stats.
  apply keeps_try; [|intros e; apply keeps_ret].
  apply triple_fetch_known; [apply keeps_ret | intros s0 Hok].
  cbn [hd_error].
  destruct (0 <? sql_count (ratings_of mid s0)); [|apply keeps_ret].
  destruct (sql_avg (ratings_of mid s0)) as [a|] eqn:Eavg;
    [|apply keeps_raise].
  apply keeps_bind; [|intros _; apply keeps_ret].
  apply keeps_update. intros s Hs. unfold sql_update_stats.
  apply rated_masters_map; [|exact Hs].
  intros m _. left. cbn [m_avg_rating m_set_stats].
  apply round1_range. eapply sql_avg_range; [|exact Eavg].
  apply ratings_of_range, Hok.
Qed.

Lemma rated_process_rating (uid rid rating : Z) :
  keeps rated (process_rating uid rid rating).
Proof.
  unfold process_rating.
  repeat first [ apply rated_update_master_stats | keeps_step ];
    rated_statement.
Qed.

Lemma rated_step (e : Event) : keeps rated (handle e).
Proof.
  destruct e; cbn [handle].
  - apply whole_offer_actions; rated_statement.
  - apply keeps_req_submit; rated_statement.
  - apply keeps_complete_order; rated_statement.
  - apply keeps_client_confirmation; rated_statement.
  - apply keeps_auto_complete; rated_statement.
  - apply rated_process_rating.
  - apply keeps_comp_text_review. apply rated_set_comment.
  - apply keeps_payment_done; rated_statement.
  - apply keeps_delete_profile;
      first [apply rated_delete_masters | rated_statement].
  - apply keeps_mf_verify_no. apply rated_insert_master.
  - apply keeps_mf_face_photo. apply rated_insert_master.
  - apply keeps_mf_npd_doc; rated_statement.
Qed.

(** X10.  Ratings stay in range: if every review carries a rating from 1
    to 5 and every master an average between 1 and 5, the same holds after
    any sequence of events, with whatever failures: a rating outside 1..5
    is never stored, and the average that a rating writes is a rounded
    mean of stored ratings. *)
Theorem ratings_stay_in_range (w : World) (es : list Event) :
  rated (store w) -> rated (store (run w es)).
Proof. apply keeps_run. exact rated_step. Qed.

Lemma ratings_stay_in_range_witness :
  rated (store (run (calm (sample_store Assigned (Some 1) 3))
                    [EvRating 77 1 4; EvRating 77 1 9; EvRating 77 1 5])).
Proof.
  apply (@ratings_stay_in_range (calm (sample_store Assigned (Some 1) 3))).
  split; [constructor|]. cbn. repeat constructor; unfold Qle; cbn; lia.
Defined.

Lemma repeat_length_Z (c : N) (n : Z) :
  Z.of_nat (length (repeat c (Z.to_nat n))) = Z.max 0 n.
Proof. rewrite repeat_length. lia. Qed.

(** X11.  [get_rating_stars] draws five symbols for a rating between 0 and
    5: as many full stars as the rating has whole units, a half star
    exactly when the rest is one half or more, and empty stars for what is
    left. *)
Theorem rating_stars_are_five (rating : Q) :
  (0 <= rating)%Q -> (rating <= 5)%Q ->
  let whole := Qnum rating / Z.pos (Qden rating) in
  let half := Qle_bool (1 # 2) (rating - inject_Z whole) in
  length (get_rating_stars rating) = 5%nat
  /\ get_rating_stars rating
     = repeat 11088%N (Z.to_nat whole)
       ++ (if half then [10024%N] else [])
       ++ repeat 9734%N (5 - Z.to_nat whole - (if half then 1 else 0)).
Proof.
  destruct rating as [n d]. unfold Qle. cbn [Qnum Qden]. intros Hlo Hhi.
  assert (Hn : 0 <= n) by lia.
  assert (Hq : Z.quot n (Z.pos d) = n / Z.pos d)
    by (apply Z.quot_div_nonneg; lia).
  pose proof (Z.div_mod n (Z.pos d) ltac:(lia)) as Hdm.
  pose proof (Z.mod_pos_bound n (Z.pos d) ltac:(lia)) as Hmod.
  assert (Hwhole : 0 <= n / Z.pos d <= 5) by nia.
  cbv zeta. unfold get_rating_stars. cbn [Qnum Qden]. rewrite Hq.
  set (whole := n / Z.pos d) in *.
  set (half := Qle_bool (1 # 2) ((n # d) - inject_Z whole)).
  assert (Hhalf : half = true -> whole <= 4).
  { unfold half. intros H. apply Qle_bool_iff in H.
    unfold Qle, Qminus, Qplus, Qopp, inject_Z in H. cbn [Qnum Qden] in H.
    nia. }
  assert (Hempty : Z.to_nat (5 - whole - (if half then 1 else 0))
                   = (5 - Z.to_nat whole - (if half then 1 else 0))%nat).
  { destruct half; [specialize (Hhalf eq_refl)|]; lia. }
  rewrite Hempty. split; [|reflexivity].
  rewrite !length_app, !repeat_length.
  destruct half; [specialize (Hhalf eq_refl)|]; cbn [length]; lia.
Qed.

Lemma rating_stars_are_five_witness :
  length (get_rating_stars (9 # 2)) = 5%nat
  /\ get_rating_stars (9 # 2)
     = repeat 11088%N (Z.to_nat (Qnum (9 # 2) / Z.pos (Qden (9 # 2))))
       ++ (if Qle_bool (1 # 2)
                       ((9 # 2)
                        - inject_Z (Qnum (9 # 2) / Z.pos (Qden (9 # 2))))
           then [10024%N] else [])
       ++ repeat 9734%N
            (5 - Z.to_nat (Qnum (9 # 2) / Z.pos (Qden (9 # 2)))
             - (if Qle_bool (1 # 2)
                            ((9 # 2)
                             - inject_Z (Qnum (9 # 2) / Z.pos (Qden (9 # 2))))
                then 1 else 0)).
Proof.
  apply (@rating_stars_are_five (9 # 2)); unfold Qle; cbn; lia.
Defined.

(** ** Marking an order as done *)

Lemma select_own_request_marked (st : Status) (rid uid : Z) (s : Store) :
  select_own_request rid uid (sql_set_status st rid s)
  = map (r_set_status st) (select_own_request rid uid s).
Proof.
  unfold select_own_request, sql_set_status, select_master_by_contact.
  cbn [requests masters set_requests].
  induction (requests s) as [|r l IH]; [reflexivity|].
  cbn [map filter].
  destruct (Z.eqb_spec (r_id r) rid) as [E|E].
  - cbn [r_id r_master_id r_set_status]. rewrite E, Z.eqb_refl.
    cbn [andb]. destruct (sql_eq (r_master_id r) _); cbn [map];
      rewrite IH; reflexivity.
  - replace (r_id r =? rid) with false by (symmetry; apply Z.eqb_neq; exact E).
    cbn [andb]. exact IH.
Qed.

Lemma complete_order_refused (uid rid : Z) (w : World) :
  (forall r, hd_error (select_own_request rid uid (store w)) = Some r ->
             r_status r = Completed \/ r_status r = PendingConfirmation) ->
  store (exec (complete_order uid rid) w) = store w.
Proof.
  intros Hst.
  assert (T : keeps (fun s => s = store w) (complete_order uid rid)).
  { unfold complete_order.
    apply keeps_try; [|intros e; apply keeps_api].
    apply triple_fetch_bind; [apply keeps_api|].
    intros s0 w1 [Hs Hs0]. subst s0. rewrite Hs.
    destruct (hd_error (select_own_request rid uid (store w))) as [r|] eqn:Er;
      [|apply (@keeps_api MsgNoRights (fun s => s = store w) w1 Hs)].
    destruct (Hst r eq_refl) as [-> | ->].
    - apply (@keeps_api MsgAlreadyCompleted (fun s => s = store w) w1 Hs).
    - apply (@keeps_api MsgAwaitingConfirmation (fun s => s = store w) w1 Hs). }
  apply (T w). reflexivity.
Qed.

Lemma complete_order_accepted (uid rid : Z) (w : World) (r : Request) :
  no_faults w ->
  hd_error (select_own_request rid uid (store w)) = Some r ->
  r_status r = New \/ r_status r = Assigned ->
  store (exec (complete_order uid rid) w)
  = sql_set_status PendingConfirmation rid (store w).
Proof.
  intros Hnf Hr Hst. unfold complete_order.
  rewrite store_try by (intros; apply api_store).
  erewrite exec_bind by (apply fetch_one_ok; nf).
  wsimpl. rewrite Hr.
  assert (Hrest : forall m : M unit,
             (forall s0, keeps (fun s => s = s0) m) ->
             store (exec (execute
                            (update (sql_set_status PendingConfirmation rid))
                          ;;; m) (tick w))
             = sql_set_status PendingConfirmation rid (store w)).
  { intros m Hm.
    erewrite exec_bind by (apply execute_update_ok; nf).
    rewrite keeps_store by exact Hm. reflexivity. }
  destruct Hst as [-> | ->]; apply Hrest; intros s0; repeat keeps_step.
Qed.

(** X12.  Only the master of a request marks it as done, and only once:
    [complete_order] leaves the database as it is when the caller is not
    the master the request is assigned to, or when the request is already
    awaiting confirmation or completed, whatever fails; when no statement
    fails it moves a new or assigned request of the caller to
    'pending_confirmation' and changes nothing else, and pressing the
    button again changes nothing more. *)
Theorem complete_order_by_its_master_once (uid rid : Z) (w : World) :
  ((forall r, hd_error (select_own_request rid uid (store w)) = Some r ->
              r_status r = Completed \/ r_status r = PendingConfirmation) ->
   store (exec (complete_order uid rid) w) = store w)
  /\ (no_faults w ->
      (forall r, hd_error (select_own_request rid uid (store w)) = Some r ->
                 (r_status r = New \/ r_status r = Assigned) ->
                 store (exec (complete_order uid rid) w)
                 = sql_set_status PendingConfirmation rid (store w))
      /\ store (exec (complete_order uid rid)
                     (exec (complete_order uid rid) w))
         = store (exec (complete_order uid rid) w)).
Proof.
  split; [apply complete_order_refused|].
  intros Hnf. split; [intros r; apply complete_order_accepted; exact Hnf|].
  apply complete_order_refused. intros r1.
  destruct (hd_error (select_own_request rid uid (store w))) as [r|] eqn:Er.
  - destruct (r_status r) eqn:Est.
    + rewrite (complete_order_accepted _ _ Hnf Er) by (left; exact Est).
      rewrite select_own_request_marked.
      destruct (select_own_request rid uid (store w)); [discriminate|].
      cbn. intros [= <-]. right. reflexivity.
    + rewrite (complete_order_accepted _ _ Hnf Er) by (right; exact Est).
      rewrite select_own_request_marked.
      destruct (select_own_request rid uid (store w)); [discriminate|].
      cbn. intros [= <-]. right. reflexivity.
    + rewrite complete_order_refused
        by (intros r0 E0; rewrite Er in E0; injection E0 as <-; auto).
      rewrite Er. intros [= <-]. auto.
    + rewrite complete_order_refused
        by (intros r0 E0; rewrite Er in E0; injection E0 as <-; auto).
      rewrite Er. intros [= <-]. auto.
  - rewrite complete_order_refused
      by (intros r0 E0; rewrite Er in E0; discriminate).
    rewrite Er. discriminate.
Qed.

Lemma complete_order_by_its_master_once_witness :
  let w := calm (sample_store Assigned (Some 1) 3) in
  no_faults w
  /\ (store (exec (complete_order 11 1) w) = store w)
  /\ store (exec (complete_order 10 1) w)
     = sql_set_status PendingConfirmation 1 (store w)
  /\ store (exec (complete_order 10 1) (exec (complete_order 10 1) w))
     = store (exec (complete_order 10 1) w).
Proof.
  assert (Hnf : no_faults (calm (sample_store Assigned (Some 1) 3)))
    by constructor.
  split; [exact Hnf|]. split; [|split].
  - apply (proj1 (@complete_order_by_its_master_once
                    11 1 (calm (sample_store Assigned (Some 1) 3)))).
    intros r E. vm_compute in E. discriminate E.
  - apply (proj1 (proj2 (@complete_order_by_its_master_once
                           10 1 (calm (sample_store Assigned (Some 1) 3)))
                        Hnf)
                 (sample_request 1 Assigned (Some 1))).
    + reflexivity.
    + right. reflexivity.
  - apply (proj2 (proj2 (@complete_order_by_its_master_once
                           10 1 (calm (sample_store Assigned (Some 1) 3)))
                        Hnf)).
Defined.

(** ** Confirming twice *)

Lemma wtriple_try A (body : M A) (handler : Exn -> M A) (P : World -> Prop)
      (Q R : Result A -> World -> Prop) :
  wtriple P body Q ->
  (forall a w, Q (Ok a) w -> R (Ok a) w) ->
  (forall e, wtriple (Q (Raised e)) (handler e) R) ->
  wtriple P (try_except body handler) R.
Proof.
  intros Hb Hok Hh w Hw. specialize (Hb w Hw).
  unfold result, exec, try_except in *.
  destruct (body w) as [[a|e] w1]; cbn [fst snd] in *.
  - apply Hok, Hb.
  - apply (Hh e w1 Hb).
Qed.

Lemma wtriple_keeps A (m : M A) (I : Store -> Prop) :
  keeps I m -> wtriple (fun w => I (store w)) m (fun _ w => I (store w)).
Proof. intros H w Hw. apply (H w Hw). Qed.

Lemma all_completed_frame (rid : Z) (s s' : Store) :
  requests s' = requests s -> all_completed rid s -> all_completed rid s'.
Proof. unfold all_completed. intros ->. trivial. Qed.

Lemma all_completed_set (now rid : Z) (s : Store) :
  all_completed rid (sql_set_completed now rid s).
Proof.
  intros r Hin Hid. cbn [requests sql_set_completed set_requests] in Hin.
  apply in_map_iff in Hin as (r0 & <- & _).
  destruct (Z.eqb_spec (r_id r0) rid) as [_|Hne]; [reflexivity|].
  contradiction.
Qed.

Lemma all_completed_flag (rid rid' : Z) (s : Store) :
  all_completed rid s -> all_completed rid (sql_set_review_requested rid' s).
Proof.
  intros H r Hin Hid. cbn [requests sql_set_review_requested set_requests] in Hin.
  apply in_map_iff in Hin as (r0 & <- & Hin0).
  destruct (r_id r0 =? rid'); apply (H r0 Hin0); exact Hid.
Qed.

Lemma all_completed_first (rid : Z) (s : Store) (r : Request) :
  all_completed rid s ->
  hd_error (select_request rid s) = Some r -> r_status r = Completed.
Proof.
  intros H E. apply hd_error_filter_In in E as [Hin Hid].
  apply Z.eqb_eq in Hid. apply (H r Hin Hid).
Qed.

Lemma keeps_completed_tail (rid : Z) (mid : option Z) :
  keeps (all_completed rid)
        (request_review rid mid ;;;
         tier <- calc_skill_tier mid ;;
         execute (update (sql_count_order tier mid)) ;;;
         ret true).
Proof.
  unfold request_review, calc_skill_tier.
  repeat keeps_step;
    first [ intros s; apply all_completed_flag
          | intros s; apply all_completed_frame; reflexivity ].
Qed.

(** A confirmation of a request whose first row is completed, or that has
    no row, writes nothing. *)
Lemma confirmation_refused (now uid rid : Z) (answer : Answer) (w : World) :
  (forall r, hd_error (select_request rid (store w)) = Some r ->
             r_status r = Completed) ->
  store (exec (client_confirmation now uid rid answer) w) = store w.
Proof.
  intros Hst.
  assert (T : keeps (fun s => s = store w)
                    (client_confirmation now uid rid answer)).
  { unfold client_confirmation.
    apply keeps_try; [|intros e; apply keeps_api].
    apply triple_fetch_bind; [apply keeps_api|].
    intros s0 w1 [Hs Hs0]. subst s0. rewrite Hs.
    destruct (hd_error (select_request rid (store w))) as [r|] eqn:Er;
      [|apply (@keeps_api MsgOrderNotFound (fun s => s = store w) w1 Hs)].
    rewrite (Hst r eq_refl).
    apply (@keeps_api MsgAlreadyCompleted (fun s => s = store w) w1 Hs). }
  apply (T w). reflexivity.
Qed.

Lemma calm_fetch_known A B (q : Store -> list A) (k : option A -> M B)
      (I : Store -> Prop) (R : Result B -> World -> Prop) :
  (forall s0, I s0 -> wtriple (calmly I) (k (hd_error (q s0))) R) ->
  wtriple (calmly I) (bind (fetch_one q) k) R.
Proof.
  intros Hk w [Hnf Hw]. unfold result, exec, bind.
  rewrite fetch_one_ok by exact Hnf.
  apply (Hk (store w) Hw (tick w)). split; [nf | exact Hw].
Qed.

(** After a confirmation with the answer 'yes' in which no statement
    fails, the first row of the request, if there is one, is completed. *)
Lemma confirmation_completes (now uid rid : Z) (w : World) :
  no_faults w ->
  forall r,
    hd_error (select_request rid
                (store (exec (client_confirmation now uid rid Yes) w)))
    = Some r ->
    r_status r = Completed.
Proof.
  intros Hnf.
  destruct (hd_error (select_request rid (store w))) as [r0|] eqn:Er0.
  2:{ rewrite confirmation_refused by (intros r E; congruence).
      intros r E. congruence. }
  destruct (status_eqb (r_status r0) Completed) eqn:Est.
  { apply status_eqb_eq in Est.
    rewrite confirmation_refused by (intros r E; congruence).
    intros r E. congruence. }
  assert (Hne : r_status r0 <> Completed).
  { intros E. rewrite E in Est. discriminate. }
  intros r. apply all_completed_first.
  set (Q := fun (_ : Result unit) w' => all_completed rid (store w')).
  assert (Hmark : wtriple (calmly (fun s => s = store w))
                          (mark_request_completed now rid)
                          (fun _ w' => all_completed rid (store w'))).
  { unfold mark_request_completed.
    eapply wtriple_try
      with (Q := fun _ w' => all_completed rid (store w'));
      [|auto|intros e; apply wtriple_keeps, keeps_ret].
    apply calm_fetch_known. intros s1 ->. rewrite Er0.
    eapply calm_update_bind with (I' := all_completed rid);
      [intros s _; apply all_completed_set|].
    apply calm_leaf with (J := all_completed rid);
      [apply keeps_completed_tail | auto | auto]. }
  assert (T : wtriple (calmly (fun s => s = store w))
                      (client_confirmation now uid rid Yes) Q).
  { unfold client_confirmation.
    eapply wtriple_try with (Q := Q);
      [|auto|intros e; apply wtriple_keeps, keeps_api].
    apply calm_fetch_known. intros s0 ->. rewrite Er0.
    destruct (r_status r0) eqn:Est0; try congruence;
      (eapply wtriple_bind with (Q := Q);
       [|intros u; apply wtriple_keeps, keeps_api|auto]);
      (eapply wtriple_bind
         with (Q := fun _ w' => all_completed rid (store w'));
       [exact Hmark
       |intros [|]; apply wtriple_keeps; repeat keeps_step
       |auto]). }
  apply (T w). split; [exact Hnf | reflexivity].
Qed.

(** X13.  A completion is counted once: when no statement fails, a second
    confirmation with the answer 'yes' of the same request changes nothing
    in the database, so [orders_completed] and the skill tier of the
    master are written by the first confirmation only. *)
Theorem confirmation_counts_once (now now' uid uid' rid : Z) (w : World) :
  no_faults w ->
  let w1 := exec (client_confirmation now uid rid Yes) w in
  store (exec (client_confirmation now' uid' rid Yes) w1) = store w1.
Proof.
  intros Hnf w1. apply confirmation_refused.
  apply confirmation_completes, Hnf.
Qed.

Lemma confirmation_counts_once_witness :
  let w := calm (sample_store PendingConfirmation (Some 1) 3) in
  let w1 := exec (client_confirmation 100 77 1 Yes) w in
  no_faults w
  /\ store (exec (client_confirmation 200 77 1 Yes) w1) = store w1.
Proof.
  split; [constructor|].
  apply (@confirmation_counts_once
           100 200 77 77 1 (calm (sample_store PendingConfirmation (Some 1) 3))).
  constructor.
Defined.

(** ** Asking for a review, counting a completion *)

Lemma request_review_runs (rid : Z) (mid : option Z) (w : World) :
  no_faults w ->
  exists w1,
    request_review rid mid w = (Ok tt, w1)
    /\ no_faults w1
    /\ masters (store w1) = masters (store w)
    /\ master_seq (store w1) = master_seq (store w).
Proof.
  intros Hnf.
  exists (exec (request_review rid mid) w). split; [|split; [|split]].
  - unfold exec, request_review, try_except.
    destruct (bind _ _ w) as [[[]|e] w1]; reflexivity.
  - revert w Hnf. change (wkeeps no_faults (request_review rid mid)).
    pose proof steady_no_faults as HJ. unfold request_review.
    apply wkeeps_try; [|intros e; apply wkeeps_ret].
    apply wkeeps_bind; [apply wkeeps_fetch_one, HJ | intros rd].
    destruct (match rd with Some _ => _ | None => _ end);
      [apply wkeeps_ret|].
    apply wkeeps_bind; [apply wkeeps_fetch_one, HJ | intros [v|]];
      [apply wkeeps_ret|].
    apply wkeeps_bind; [apply wkeeps_execute, HJ | intros _].
    apply wkeeps_bind; [apply wkeeps_fetch_one, HJ | intros _].
    apply wkeeps_api, HJ.
  - assert (K : keeps (fun s => masters s = masters (store w))
                      (request_review rid mid))
      by (apply keeps_request_review; intros rid' s Hs; exact Hs).
    apply (K w). reflexivity.
  - assert (K : keeps (fun s => master_seq s = master_seq (store w))
                      (request_review rid mid))
      by (apply keeps_request_review; intros rid' s Hs; exact Hs).
    apply (K w). reflexivity.
Qed.

Lemma mark_request_completed_run (now rid : Z) (w : World) (r : Request) :
  no_faults w ->
  hd_error (select_request rid (store w)) = Some r ->
  result (mark_request_completed now rid) w = Ok true
  /\ masters (store (exec (mark_request_completed now rid) w))
     = masters
         (sql_count_order
            (match hd_error (select_master (r_master_id r) (store w)) with
             | Some m => tier_of (or0 (m_orders_completed m))
             | None => Novice
             end)
            (r_master_id r) (store w)).
Proof.
  intros Hnf Hr.
  set (w2 := set_store (sql_set_completed now rid (store w)) (tick (tick w))).
  destruct (@request_review_runs rid (r_master_id r) w2) as (w3 & E3 & Hnf3 & Hm3 & _);
    [unfold w2; nf|].
  assert (Hm2 : masters (store w3) = masters (store w)) by (rewrite Hm3; reflexivity).
  assert (Hsel : select_master (r_master_id r) (store w3)
                 = select_master (r_master_id r) (store w))
    by (unfold select_master; rewrite Hm2; reflexivity).
  assert (E : mark_request_completed now rid w
              = (Ok true,
                 set_store
                   (sql_count_order
                      (match hd_error (select_master (r_master_id r) (store w)) with
                       | Some m => tier_of (or0 (m_orders_completed m))
                       | None => Novice
                       end)
                      (r_master_id r) (store w3))
                   (tick (tick w3)))).
  { unfold mark_request_completed, try_except.
    erewrite run_bind by (apply fetch_one_ok; exact Hnf).
    rewrite Hr.
    erewrite run_bind by (apply execute_update_ok; nf).
    fold w2.
    erewrite run_bind by exact E3.
    unfold calc_skill_tier.
    assert (Ec : (master <- fetch_one (select_master (r_master_id r)) ;;
                  match master with
                  | Some m => ret (tier_of (or0 (m_orders_completed m)))
                  | None => ret Novice
                  end) w3
                 = (Ok (match hd_error (select_master (r_master_id r) (store w)) with
                        | Some m => tier_of (or0 (m_orders_completed m))
                        | None => Novice
                        end), tick w3)).
    { erewrite run_bind by (apply fetch_one_ok; exact Hnf3).
      rewrite Hsel.
      destruct (hd_error (select_master (r_master_id r) (store w)));
        reflexivity. }
    erewrite run_bind by exact Ec.
    erewrite run_bind by (apply execute_update_ok; nf).
    reflexivity. }
  unfold result, exec. rewrite E. cbn [fst snd]. split; [reflexivity|].
  cbn [store set_store masters sql_count_order set_masters].
  rewrite Hm2. reflexivity.
Qed.

(** X14.  A completion is counted with the tier of the count before it:
    when no statement fails, [mark_request_completed] of an existing
    request returns [True], adds one to [orders_completed] of the master of
    the request and stores the skill tier that corresponds to the number
    of orders completed before this one (read from the first row of that
    master), so the tier lags one completion behind the count. *)
Theorem completion_stores_the_tier_of_the_old_count
        (now rid : Z) (w : World) (r : Request) :
  no_faults w ->
  hd_error (select_request rid (store w)) = Some r ->
  let w' := exec (mark_request_completed now rid) w in
  let old_tier :=
      match hd_error (select_master (r_master_id r) (store w)) with
      | Some m => tier_of (or0 (m_orders_completed m))
      | None => Novice
      end in
  result (mark_request_completed now rid) w = Ok true
  /\ masters (store w')
     = map (fun m => if sql_eq (Some (m_id m)) (r_master_id r)
                     then m_set_completed
                            (option_map (fun n => n + 1) (m_orders_completed m))
                            old_tier m
                     else m)
           (masters (store w)).
Proof.
  intros Hnf Hr w' old_tier.
  destruct (@mark_request_completed_run now rid w r Hnf Hr) as [Hres Hm].
  split; [exact Hres | exact Hm].
Qed.

Lemma completion_stores_the_tier_of_the_old_count_witness :
  let w := calm (sample_store PendingConfirmation (Some 1) 3) in
  let w' := exec (mark_request_completed 100 1) w in
  no_faults w
  /\ result (mark_request_completed 100 1) w = Ok true
  /\ masters (store w')
     = map (fun m => if sql_eq (Some (m_id m)) (Some 1)
                     then m_set_completed
                            (option_map (fun n => n + 1) (m_orders_completed m))
                            (tier_of 19) m
                     else m)
           (masters (store w)).
Proof.
  split; [constructor|].
  apply (@completion_stores_the_tier_of_the_old_count
           100 1 (calm (sample_store PendingConfirmation (Some 1) 3))
           (sample_request 1 PendingConfirmation (Some 1)));
    [constructor | reflexivity].
Defined.





(** ** The sweep of stale requests *)

Lemma requests_map_in (g : Request -> Request) (c : Request -> bool)
      (r : Request) (l : list Request) :
  c r = false -> In r l -> In r (map (fun x => if c x then g x else x) l).
Proof.
  intros Hc Hin. apply in_map_iff. exists r. rewrite Hc. auto.
Qed.

Lemma mark_leaves_other_rows (now rid : Z) (r : Request) :
  rid <> r_id r ->
  keeps (fun s => In r (requests s)) (mark_request_completed now rid).
Proof.
  intros Hne.
  assert (Hc : (r_id r =? rid) = false) by (apply Z.eqb_neq; congruence).
  unfold mark_request_completed, request_review, calc_skill_tier.
  repeat keeps_step;
    try (intros s Hs; exact Hs);
    intros s Hs; cbn [requests sql_set_completed sql_set_review_requested
                      set_requests];
    apply requests_map_in; assumption.
Qed.

Lemma sweep_one_leaves_other_rows (now : Z) (req r : Request) :
  r_id req <> r_id r ->
  keeps (fun s => In r (requests s)) (sweep_one now req).
Proof.
  intros Hne. unfold sweep_one.
  apply keeps_bind; [apply mark_leaves_other_rows, Hne | intros _].
  repeat keeps_step.
Qed.

Lemma sweep_leaves_other_rows (now : Z) (w : World) (r : Request) :
  In r (requests (store w)) ->
  (forall q, In q (select_stale_pending now (store w)) -> r_id q <> r_id r) ->
  In r (requests (store (exec (auto_complete now) w))).
Proof.
  intros Hin Hother.
  assert (T : triple (fun s => s = store w) (auto_complete now)
                     (fun _ s => In r (requests s))).
  { unfold auto_complete.
    eapply triple_try with (Q := fun _ s => In r (requests s));
      [|auto|intros e; apply keeps_ret].
    apply triple_fetch_all_bind.
    - apply triple_ret. intros s ->. exact Hin.
    - intros s0 w1 [Hs Hs0]. subst s0. rewrite Hs.
      refine (@keeps_for_each_in _ (select_stale_pending now (store w))
                (sweep_one now) (fun s => In r (requests s)) _ w1 _).
      + intros q Hq. apply sweep_one_leaves_other_rows, Hother, Hq.
      + rewrite Hs. exact Hin. }
  apply (T w). reflexivity.
Qed.

Lemma swept_frame (stale done : list Request) (s s' : Store) :
  requests s' = requests s -> swept stale done s -> swept stale done s'.
Proof. unfold swept, all_completed. intros ->. trivial. Qed.

Lemma swept_map (stale done : list Request) (g : Request -> Request)
      (c : Request -> bool) (s : Store) :
  (forall r, r_id (g r) = r_id r
             /\ (r_status r = Completed -> r_status (g r) = Completed)) ->
  swept stale done s ->
  swept stale done
        (set_requests (map (fun r => if c r then g r else r) (requests s)) s).
Proof.
  intros Hg [Hex Hdone]. split.
  - intros q Hq. destruct (Hex q Hq) as (r & Hin & Hid).
    exists (if c r then g r else r). split.
    + cbn [requests set_requests].
      apply (in_map (fun r => if c r then g r else r)). exact Hin.
    + destruct (c r); [rewrite (proj1 (Hg r))|]; exact Hid.
  - intros q Hq r Hin Hid. cbn [requests set_requests] in Hin.
    apply in_map_iff in Hin as (r0 & <- & Hin0).
    destruct (c r0); [|apply (Hdone q Hq r0 Hin0 Hid)].
    destruct (Hg r0) as [Eid Hst]. rewrite Eid in Hid.
    apply Hst, (Hdone q Hq r0 Hin0 Hid).
Qed.

Lemma swept_mark (stale done : list Request) (now rid : Z) :
  keeps (swept stale done) (mark_request_completed now rid).
Proof.
  apply keeps_mark_request_completed.
  - intros rid' s. unfold sql_set_review_requested. apply swept_map.
    intros r. cbn. auto.
  - intros now' rid' s. unfold sql_set_completed. apply swept_map.
    intros r. cbn. auto.
  - intros tier mid s. apply swept_frame. reflexivity.
Qed.

Lemma mark_completes (now rid : Z) :
  wtriple (calmly (fun s => select_request rid s <> []))
          (mark_request_completed now rid)
          (fun _ w' => all_completed rid (store w')).
Proof.
  unfold mark_request_completed.
  eapply wtriple_try with (Q := fun _ w' => all_completed rid (store w'));
    [|auto|intros e; apply wtriple_keeps, keeps_ret].
  apply calm_fetch_known. intros s1 Hs1.
  destruct (hd_error (select_request rid s1)) as [r|] eqn:Er;
    [|destruct (select_request rid s1); [congruence | discriminate]].
  eapply calm_update_bind with (I' := all_completed rid);
    [intros s _; apply all_completed_set|].
  apply calm_leaf with (J := all_completed rid);
    [apply keeps_completed_tail | auto | auto].
Qed.

Lemma mark_returns (now rid : Z) (w : World) :
  exists b, mark_request_completed now rid w
            = (Ok b, exec (mark_request_completed now rid) w).
Proof.
  unfold exec, mark_request_completed, try_except.
  destruct (bind _ _ w) as [[b|e] w1]; eexists; reflexivity.
Qed.

Lemma sweep_one_returns (now : Z) (req : Request) (w : World) :
  sweep_one now req w = (Ok tt, exec (sweep_one now req) w).
Proof.
  unfold exec, sweep_one.
  destruct (mark_returns now (r_id req) w) as [b E].
  erewrite run_bind by exact E.
  destruct (r_client_user_id req); [|reflexivity].
  unfold try_except. rewrite api_eq.
  destruct (api_result _) as [[]|e]; reflexivity.
Qed.

Lemma sweep_one_step (now : Z) (stale done : list Request) (req : Request)
      (w : World) :
  In req stale ->
  no_faults w -> swept stale done (store w) ->
  no_faults (exec (sweep_one now req) w)
  /\ swept stale (req :: done) (store (exec (sweep_one now req) w)).
Proof.
  intros Hreq Hnf Hsw.
  assert (Hnf1 : no_faults (exec (mark_request_completed now (r_id req)) w))
    by (apply wkeeps_mark_request_completed; [apply steady_no_faults | exact Hnf]).
  assert (Hsw1 : swept stale done
                       (store (exec (mark_request_completed now (r_id req)) w)))
    by (apply (@swept_mark stale done now (r_id req) w Hsw)).
  assert (Hdone1 : all_completed (r_id req)
                     (store (exec (mark_request_completed now (r_id req)) w))).
  { apply (@mark_completes now (r_id req) w). split; [exact Hnf|].
    destruct (proj1 Hsw req Hreq) as (r & Hin & Hid).
    intros Hempty.
    assert (Hr : In r (select_request (r_id req) (store w)))
      by (apply filter_In; split; [exact Hin | apply Z.eqb_eq; exact Hid]).
    rewrite Hempty in Hr. contradiction. }
  destruct (mark_returns now (r_id req) w) as [b E].
  unfold sweep_one. erewrite exec_bind by exact E.
  set (w1 := exec (mark_request_completed now (r_id req)) w) in *.
  assert (Htail : forall m : M unit,
             wkeeps no_faults m -> (forall s0, keeps (fun s => s = s0) m) ->
             no_faults (exec m w1)
             /\ swept stale (req :: done) (store (exec m w1))).
  { intros m Hm Hs. split; [apply Hm, Hnf1|].
    rewrite keeps_store by exact Hs.
    destruct Hsw1 as [Hex Hdone]. split; [exact Hex|].
    intros q [<-|Hq]; [exact Hdone1 | apply Hdone, Hq]. }
  destruct (r_client_user_id req); apply Htail.
  - apply wkeeps_try; [apply wkeeps_api, steady_no_faults|].
    intros e. apply wkeeps_ret.
  - intros s0. repeat keeps_step.
  - apply wkeeps_ret.
  - intros s0. apply keeps_ret.
Qed.

Lemma sweep_loop (now : Z) (stale : list Request) (todo : list Request) :
  forall (done : list Request) (w : World),
    (forall q, In q todo -> In q stale) ->
    no_faults w -> swept stale done (store w) ->
    swept stale (todo ++ done)
          (store (exec (for_each todo (sweep_one now)) w)).
Proof.
  induction todo as [|x todo IH]; intros done w Hsub Hnf Hsw; [exact Hsw|].
  cbn [for_each]. erewrite exec_bind by apply sweep_one_returns.
  destruct (@sweep_one_step now stale done x w) as [Hnf1 Hsw1];
    [apply Hsub; left; reflexivity | exact Hnf | exact Hsw|].
  destruct (IH (x :: done) (exec (sweep_one now x) w)) as [Hex Hdone];
    [intros q Hq; apply Hsub; right; exact Hq | exact Hnf1 | exact Hsw1|].
  split; [exact Hex|].
  intros q Hq. apply Hdone. apply in_or_app.
  destruct Hq as [<-|Hq]; [right; left; reflexivity|].
  apply in_app_or in Hq as [Hq|Hq]; [left | right; right]; exact Hq.
Qed.

Lemma sweep_completes (now : Z) (w : World) (q : Request) :
  no_faults w ->
  In q (select_stale_pending now (store w)) ->
  all_completed (r_id q) (store (exec (auto_complete now) w)).
Proof.
  intros Hnf Hq.
  set (stale := select_stale_pending now (store w)) in *.
  assert (Hloop : swept stale (stale ++ [])
                        (store (exec (for_each stale (sweep_one now)) (tick w)))).
  { apply sweep_loop; [auto | nf|]. split; [|intros q0 []].
    intros q0 Hq0. exists q0. split; [|reflexivity].
    apply filter_In in Hq0. wsimpl. tauto. }
  assert (E : exec (auto_complete now) w
              = exec (for_each stale (sweep_one now)) (tick w)).
  { unfold exec at 1. unfold auto_complete, try_except.
    erewrite run_bind by (apply fetch_all_ok; exact Hnf).
    fold stale.
    change (for_each stale _) with (for_each stale (sweep_one now)).
    assert (Hret : forall l w0, exists w1,
                 for_each l (sweep_one now) w0 = (Ok tt, w1)).
    { induction l as [|x l IHl]; intros w0; cbn [for_each];
        [eexists; reflexivity|].
      erewrite run_bind by apply sweep_one_returns. apply IHl. }
    destruct (Hret stale (tick w)) as [w1 E1].
    unfold exec. rewrite E1. reflexivity. }
  rewrite E. apply (proj2 Hloop). apply in_or_app. left. exact Hq.
Qed.

(** X16.  The sweep completes the stale requests and nothing else: the
    auto-completion pass leaves every request row untouched whose rowid is
    not that of a request in 'pending_confirmation' created more than 24
    hours before, whatever fails; and when no statement fails, every such
    request is 'completed' afterwards. *)
Theorem sweep_completes_stale_requests (now : Z) (w : World) :
  let w' := exec (auto_complete now) w in
  (forall r, In r (requests (store w)) ->
             (forall q, In q (select_stale_pending now (store w)) ->
                        r_id q <> r_id r) ->
             In r (requests (store w')))
  /\ (no_faults w ->
      forall q, In q (select_stale_pending now (store w)) ->
                forall r, In r (requests (store w')) -> r_id r = r_id q ->
                          r_status r = Completed).
Proof.
  split.
  - intros r. apply sweep_leaves_other_rows.
  - intros Hnf q Hq. apply sweep_completes; assumption.
Qed.

Lemma sweep_completes_stale_requests_witness :
  let s := mkStore [sample_request 1 PendingConfirmation (Some 1);
                    mkRequest 2 None remont PendingConfirmation (Some 2)
                              (Some 78) false None 90000;
                    sample_request 3 Assigned (Some 1)]
                   [sample_master 1 10 Null 3 19 Novice;
                    sample_master 2 11 Null 3 0 Novice]
                   [] [] 3 2 0 0 in
  let w' := exec (auto_complete 100000) (calm s) in
  no_faults (calm s)
  /\ (forall r, In r (requests s) ->
                (forall q, In q (select_stale_pending 100000 s) ->
                           r_id q <> r_id r) ->
                In r (requests (store w')))
  /\ (forall q, In q (select_stale_pending 100000 s) ->
                forall r, In r (requests (store w')) -> r_id r = r_id q ->
                          r_status r = Completed).
Proof.
  intros s w'.
  assert (Hnf : no_faults (calm s)) by constructor.
  split; [exact Hnf|]. split.
  - exact (proj1 (@sweep_completes_stale_requests 100000 (calm s))).
  - exact (proj2 (@sweep_completes_stale_requests 100000 (calm s)) Hnf).
Defined.
